(** * server.py: the tick transition of the multiplayer snake server

    A shallow embedding of [GameState] (spawning, removal, the per-tick
    [step]) and of the message handling of [websocket_endpoint], with the
    properties the specification states about them.

    Conventions of the embedding:
    - a Python [str] is the list of its code points;
    - the [players] dict is an association list in insertion order (the
      order [dict.items()] iterates in), keys unique; [occupied],
      [temp_occupied] and [dead_snakes] are finite sets, [death_reasons]
      a finite map;
    - [random.randint] reads the next draw of an explicit generator state
      and [time.time()] is an explicit argument;
    - the [while] loop of [spawn_food] runs on fuel: [OutOfFuel] is the
      only way a run can fail to return. *)

From Stdlib Require Import ZArith Floats.PrimFloat.
From stdpp Require Import ssreflect gmap list sets pretty.

Set Warnings "-rewrite-rw".

Local Open Scope Z_scope.

(** ** Python values *)

Abbreviation pystr := (list N).

Definition py (s : string) : pystr :=
  (λ a : Ascii.ascii, N.of_nat (Ascii.nat_of_ascii a)) <$> String.list_ascii_of_string s.

(** [str(n)] for an integer, as in an f-string. *)
Definition str_of_int (n : Z) : pystr := py (pretty n).

(** [str.isspace] on one code point (the Unicode White_Space characters
    and the four ASCII separators that Python adds). *)
Definition is_space (c : N) : bool :=
  bool_decide (c ∈ [9; 10; 11; 12; 13; 28; 29; 30; 31; 32; 133; 160; 5760;
                    8192; 8193; 8194; 8195; 8196; 8197; 8198; 8199; 8200;
                    8201; 8202; 8232; 8233; 8239; 8287; 12288]%N).

Fixpoint lstrip (s : pystr) : pystr :=
  match s with
  | c :: s' => if is_space c then lstrip s' else s
  | [] => []
  end.

(** [s.strip()] *)
Definition strip (s : pystr) : pystr := reverse (lstrip (reverse (lstrip s))).

(** ** Exceptions and non-termination *)

Inductive exn := IndexError | KeyError.

Inductive outcome (A : Type) :=
  | Ok (a : A)
  | Raise (e : exn)
  | OutOfFuel.
Arguments Ok {A} a.
Arguments Raise {A} e.
Arguments OutOfFuel {A}.

#[global] Instance outcome_ret : MRet outcome := λ A a, Ok a.
#[global] Instance outcome_bind : MBind outcome := λ A B f m,
  match m with
  | Ok a => f a
  | Raise e => Raise e
  | OutOfFuel => OutOfFuel
  end.

(** ** The random generator *)

Module Rng.

Record rng := { draws : nat → Z; pos : nat }.

Definition Rand (A : Type) : Type := rng → A * rng.

#[global] Instance rand_ret : MRet Rand := λ A a g, (a, g).
#[global] Instance rand_bind : MBind Rand := λ A B f m g,
  let '(a, g') := m g in f a g'.

(** [random.randint(a, b)]: an integer of [a..b], both ends included. *)
Definition randint (a b : Z) : Rand Z := λ g,
  (a + draws g (pos g) `mod` (b - a + 1),
   {| draws := draws g; pos := S (pos g) |}).

(** A generator that replays a list of draws and then answers 0. *)
Definition of_list (l : list Z) : rng :=
  {| draws := λ i, nth i l 0; pos := 0 |}.

End Rng.
Import Rng.

(** ** Dictionaries that remember insertion order *)

Module Dict.
Section dict.
Context {V : Type}.
Implicit Types (k : pystr) (d : list (pystr * V)).

(** [d.get(k)] *)
Fixpoint get k d : option V :=
  match d with
  | [] => None
  | (k', v) :: d' => if decide (k' = k) then Some v else get k d'
  end.

(** [d[k] = v]: in place when the key exists, at the end otherwise. *)
Fixpoint set k (v : V) d : list (pystr * V) :=
  match d with
  | [] => [(k, v)]
  | (k', v') :: d' =>
      if decide (k' = k) then (k', v) :: d' else (k', v') :: set k v d'
  end.

(** [del d[k]] *)
Fixpoint del k d : list (pystr * V) :=
  match d with
  | [] => []
  | (k', v') :: d' => if decide (k' = k) then d' else (k', v') :: del k d'
  end.

(** [d[k][field] = ...]: the value under [k] changed in place. *)
Fixpoint update k (f : V → V) d : list (pystr * V) :=
  match d with
  | [] => []
  | (k', v') :: d' =>
      if decide (k' = k) then (k', f v') :: d' else (k', v') :: update k f d'
  end.

Definition keys d : list pystr := d.*1.
End dict.
End Dict.

(** ** Game configuration *)

Definition WIDTH : Z := 40.
Definition HEIGHT : Z := 30.
Definition START_LENGTH : nat := 3.
Definition FOOD_COUNT : nat := 5.

Abbreviation cell := (Z * Z)%type.

(** ** Game utilities *)

Definition clamp_pos (x y : Z) : cell := (x `mod` WIDTH, y `mod` HEIGHT).

(** The cells in the order of the exhaustive search: [x] outermost. *)
Definition grid_cells : list cell :=
  x ← seqZ 0 WIDTH; y ← seqZ 0 HEIGHT; [(x, y)].

(** The [for _ in range(100)] loop of random probes. *)
Fixpoint probe (n : nat) (occ : gset cell) : Rand (option cell) :=
  match n with
  | O => mret None
  | S n' =>
      x ← randint 0 (WIDTH - 1);
      y ← randint 0 (HEIGHT - 1);
      if bool_decide ((x, y) ∉ occ) then mret (Some (x, y)) else probe n' occ
  end.

Definition find_empty_position (occ : gset cell) : Rand cell :=
  r ← probe 100 occ;
  match r with
  | Some c => mret c
  | None =>
      match List.find (λ c, bool_decide (c ∉ occ)) grid_cells with
      | Some c => mret c
      | None =>
          x ← randint 0 (WIDTH - 1);
          y ← randint 0 (HEIGHT - 1);
          mret (x, y)
      end
  end.

(** ** Game state *)

Record Player := {
  p_id : pystr;
  display_name : pystr;
  body : list cell;
  dir : Z * Z;
  pending_dir : Z * Z;
  alive : bool;
  score : Z;
  food_collected : Z;
  color : pystr;
  last_input_time : float;
  spawn_tick : Z
}.

Record GameState := {
  players : list (pystr * Player);
  food : list cell;
  occupied : gset cell;
  tick : Z;
  death_reasons : gmap pystr pystr
}.

(** [GameState.__init__] *)
Definition init : GameState :=
  {| players := []; food := []; occupied := ∅; tick := 0; death_reasons := ∅ |}.

Definition with_players (ps : list (pystr * Player)) (st : GameState) : GameState :=
  {| players := ps; food := food st; occupied := occupied st;
     tick := tick st; death_reasons := death_reasons st |}.

Definition set_dir (d : Z * Z) (p : Player) : Player :=
  {| p_id := p_id p; display_name := display_name p; body := body p;
     dir := d; pending_dir := pending_dir p; alive := alive p;
     score := score p; food_collected := food_collected p; color := color p;
     last_input_time := last_input_time p; spawn_tick := spawn_tick p |}.

Definition set_pending (d : Z * Z) (now : float) (p : Player) : Player :=
  {| p_id := p_id p; display_name := display_name p; body := body p;
     dir := dir p; pending_dir := d; alive := alive p;
     score := score p; food_collected := food_collected p; color := color p;
     last_input_time := now; spawn_tick := spawn_tick p |}.

Definition set_display_name (n : pystr) (p : Player) : Player :=
  {| p_id := p_id p; display_name := n; body := body p;
     dir := dir p; pending_dir := pending_dir p; alive := alive p;
     score := score p; food_collected := food_collected p; color := color p;
     last_input_time := last_input_time p; spawn_tick := spawn_tick p |}.

Definition set_alive (a : bool) (p : Player) : Player :=
  {| p_id := p_id p; display_name := display_name p; body := body p;
     dir := dir p; pending_dir := pending_dir p; alive := a;
     score := score p; food_collected := food_collected p; color := color p;
     last_input_time := last_input_time p; spawn_tick := spawn_tick p |}.

Definition add_food_collected (p : Player) : Player :=
  {| p_id := p_id p; display_name := display_name p; body := body p;
     dir := dir p; pending_dir := pending_dir p; alive := alive p;
     score := score p; food_collected := food_collected p + 1; color := color p;
     last_input_time := last_input_time p; spawn_tick := spawn_tick p |}.

(** The survivor's update of the last loop of [step]: new body, and the
    score when it grew. *)
Definition set_body (b : list cell) (sc : Z) (p : Player) : Player :=
  {| p_id := p_id p; display_name := display_name p; body := b;
     dir := dir p; pending_dir := pending_dir p; alive := alive p;
     score := sc; food_collected := food_collected p; color := color p;
     last_input_time := last_input_time p; spawn_tick := spawn_tick p |}.

(** *** spawn_food *)

Fixpoint spawn_food (fuel : nat) (st : GameState) (g : rng) : outcome (GameState * rng) :=
  if bool_decide (length (food st) < FOOD_COUNT)%nat then
    match fuel with
    | O => OutOfFuel
    | S fuel' =>
        let all_occupied := occupied st in
        let '(c, g') := find_empty_position all_occupied g in
        if bool_decide (c ∉ all_occupied) then
          spawn_food fuel'
            {| players := players st; food := food st ++ [c];
               occupied := {[c]} ∪ occupied st;
               tick := tick st; death_reasons := death_reasons st |} g'
        else spawn_food fuel' st g'
    end
  else Ok (st, g).

(** *** add_player *)

(** The inner [for i in range(START_LENGTH)] loop of an attempt, from
    segment [i] on: the candidate body, or [None] at the first segment
    that is taken. *)
Fixpoint try_body (n : nat) (i : Z) (spawn_x spawn_y : Z) (occ : gset cell)
  : option (list cell) :=
  match n with
  | O => Some []
  | S n' =>
      let c := ((spawn_x - i) `mod` WIDTH, spawn_y) in
      if bool_decide (c ∈ occ) then None
      else cons c <$> try_body n' (i + 1) spawn_x spawn_y occ
  end.

Definition new_player (player_id name : pystr) (b : list cell) (hue : Z)
    (now : float) (t : Z) : Player :=
  {| p_id := player_id; display_name := name; body := b;
     dir := (1, 0); pending_dir := (1, 0); alive := true;
     score := 0; food_collected := 0;
     color := py "hsl(" ++ str_of_int hue ++ py ", 100%, 50%)";
     last_input_time := now; spawn_tick := t |}.

Definition spawn (player_id name : pystr) (b : list cell) (now : float)
    (st : GameState) : Rand GameState :=
  hue ← randint 0 360;
  mret {| players := Dict.set player_id (new_player player_id name b hue now (tick st)) (players st);
          food := food st;
          occupied := list_to_set b ∪ occupied st;
          tick := tick st; death_reasons := death_reasons st |}.

(** The [for attempt in range(max_attempts)] loop; [None] when every
    attempt was refused. *)
Fixpoint attempts (n : nat) (occ : gset cell) : Rand (option (list cell)) :=
  match n with
  | O => mret None
  | S n' =>
      spawn_x ← randint (Z.of_nat START_LENGTH + 2) (WIDTH - Z.of_nat START_LENGTH - 3);
      spawn_y ← randint 2 (HEIGHT - 3);
      match try_body START_LENGTH 0 spawn_x spawn_y occ with
      | Some b => mret (Some b)
      | None => attempts n' occ
      end
  end.

(** The body of the fallback spawn: no cell of it is checked. *)
Definition fallback_body (spawn_x spawn_y : Z) : list cell :=
  (spawn_x, spawn_y) ::
  ((λ i, ((spawn_x - i) `mod` WIDTH, spawn_y)) <$> seqZ 1 (Z.of_nat START_LENGTH - 1)).

Definition add_player (player_id : pystr) (display_name : option pystr)
    (now : float) (st : GameState) : Rand GameState :=
  let name := default player_id display_name in
  r ← attempts 100 (occupied st);
  match r with
  | Some b => spawn player_id name b now st
  | None =>
      spawn_x ← randint 0 (WIDTH - 1);
      spawn_y ← randint 0 (HEIGHT - 1);
      spawn player_id name (fallback_body spawn_x spawn_y) now st
  end.

(** *** remove_player *)

Definition remove_player (player_id : pystr) (st : GameState) : GameState :=
  match Dict.get player_id (players st) with
  | None => st
  | Some player =>
      {| players := Dict.del player_id (players st);
         food := food st;
         occupied := occupied st ∖ list_to_set (body player);
         tick := tick st;
         death_reasons := delete player_id (death_reasons st) |}
  end.

(** *** step *)

Definition opposite (d : Z * Z) : Z * Z := (- d.1, - d.2).

(** The direction a player moves in this tick: the pending one unless it
    is the exact opposite of the current one. *)
Definition commit (p : Player) : Player :=
  if bool_decide (pending_dir p ≠ opposite (dir p)) then set_dir (pending_dir p) p
  else p.

(** First pass: directions and projected heads. [body[0]] raises
    [IndexError] on an empty body. The heads are listed in the order of
    the players, which is the order of the [new_heads] dict. *)
Fixpoint first_pass (ps : list (pystr * Player))
  : outcome (list (pystr * Player) * list (pystr * cell)) :=
  match ps with
  | [] => Ok ([], [])
  | (player_id, player) :: ps' =>
      if negb (alive player) then
        '(qs, new_heads) ← first_pass ps';
        Ok ((player_id, player) :: qs, new_heads)
      else
        let player := commit player in
        match body player with
        | [] => Raise IndexError
        | (head_x, head_y) :: _ =>
            let new_head := clamp_pos (head_x + (dir player).1) (head_y + (dir player).2) in
            '(qs, new_heads) ← first_pass ps';
            Ok ((player_id, player) :: qs, (player_id, new_head) :: new_heads)
        end
  end.

(** The transient occupancy: bodies of the alive players and the food. *)
Definition temp_occupied_of (ps : list (pystr * Player)) (fd : list cell) : gset cell :=
  list_to_set (ps ≫= λ '(_, player), if alive player then body player else [])
  ∪ list_to_set fd.

(** What the collision loop has decided so far. *)
Record Verdict := {
  v_food : list cell;
  snakes_to_grow : list pystr;
  temp_occupied : gset cell;
  dead_snakes : gset pystr;
  v_reasons : gmap pystr pystr
}.

(** [self.food.remove(c)]: the first occurrence. *)
Fixpoint remove_first (c : cell) (l : list cell) : list cell :=
  match l with
  | [] => []
  | c' :: l' => if decide (c' = c) then l' else c' :: remove_first c l'
  end.

Definition eat (player_id : pystr) (new_head : cell) (v : Verdict) : Verdict :=
  {| v_food := remove_first new_head (v_food v);
     snakes_to_grow := snakes_to_grow v ++ [player_id];
     temp_occupied := temp_occupied v ∖ {[new_head]};
     dead_snakes := dead_snakes v;
     v_reasons := v_reasons v |}.

Definition kill (player_id : pystr) (reason : pystr) (v : Verdict) : Verdict :=
  {| v_food := v_food v;
     snakes_to_grow := snakes_to_grow v;
     temp_occupied := temp_occupied v;
     dead_snakes := {[player_id]} ∪ dead_snakes v;
     v_reasons := <[player_id := reason]> (v_reasons v) |}.

(** The head-to-head loop of one player over [new_heads.items()]. *)
Definition head_to_head (player_id : pystr) (new_head : cell)
    (new_heads : list (pystr * cell)) (v : Verdict) : Verdict :=
  foldl (λ v '(other_id, other_new_head),
           if decide (other_id = player_id) then v
           else if decide (new_head = other_new_head) then
             kill other_id (py "head_collision") (kill player_id (py "head_collision") v)
           else v)
        v new_heads.

(** The check against the transient occupancy. The source scans the set
    for a position equal to [new_head] and outside the excluded ones, and
    stops at the first: at most one position can match, so the scan is a
    membership test. *)
Definition body_check (player_id : pystr) (player : Player) (new_head : cell)
    (v : Verdict) : Verdict :=
  if bool_decide (player_id ∈ dead_snakes v) then v
  else
    let excluded_positions : gset cell :=
      match last (body player) with
      | Some tail =>
          if bool_decide (player_id ∉ snakes_to_grow v) then {[tail]} else ∅
      | None => ∅
      end in
    if bool_decide (new_head ∈ temp_occupied v ∧ new_head ∉ excluded_positions) then
      kill player_id
        (if bool_decide (new_head ∈ body player) then py "self" else py "other") v
    else v.

Definition resolve_one (new_heads : list (pystr * cell)) (player_id : pystr)
    (player : Player) (v : Verdict) : outcome (Player * Verdict) :=
  match Dict.get player_id new_heads with
  | None => Raise KeyError
  | Some new_head =>
      let '(player, v) :=
        if bool_decide (new_head ∈ v_food v)
        then (add_food_collected player, eat player_id new_head v)
        else (player, v) in
      let v := head_to_head player_id new_head new_heads v in
      Ok (player, body_check player_id player new_head v)
  end.

(** Second loop over the players: consumption and collisions. *)
Fixpoint resolve (new_heads : list (pystr * cell)) (ps : list (pystr * Player))
    (v : Verdict) : outcome (list (pystr * Player) * Verdict) :=
  match ps with
  | [] => Ok ([], v)
  | (player_id, player) :: ps' =>
      if negb (alive player) then
        '(qs, v') ← resolve new_heads ps' v;
        Ok ((player_id, player) :: qs, v')
      else
        '(player', v1) ← resolve_one new_heads player_id player v;
        '(qs, v') ← resolve new_heads ps' v1;
        Ok ((player_id, player') :: qs, v')
  end.

(** The body after the move: the head inserted, the tail popped unless
    the snake grows or is not longer than the start length. *)
Definition moved_body (grows : bool) (new_head : cell) (b : list cell) : list cell :=
  let b' := new_head :: b in
  if grows then b'
  else if bool_decide (START_LENGTH < length b')%nat then removelast b' else b'.

(** Third loop over the players: the moves. *)
Fixpoint move_all (new_heads : list (pystr * cell)) (v : Verdict)
    (ps : list (pystr * Player)) (occ : gset cell)
  : outcome (list (pystr * Player) * gset cell) :=
  match ps with
  | [] => Ok ([], occ)
  | (player_id, player) :: ps' =>
      if negb (alive player) then
        '(qs, occ') ← move_all new_heads v ps' occ;
        Ok ((player_id, player) :: qs, occ')
      else if bool_decide (player_id ∈ dead_snakes v) then
        '(qs, occ') ← move_all new_heads v ps' occ;
        Ok ((player_id, set_alive false player) :: qs, occ')
      else
        match Dict.get player_id new_heads with
        | None => Raise KeyError
        | Some new_head =>
            let grows := bool_decide (player_id ∈ snakes_to_grow v) in
            let b := moved_body grows new_head (body player) in
            let player' := set_body b (if grows then score player + 1 else score player) player in
            '(qs, occ') ← move_all new_heads v ps' (list_to_set b ∪ occ);
            Ok ((player_id, player') :: qs, occ')
        end
  end.

(** The clean-up loop over [dead_snakes]: every cell of a dead body
    leaves the occupancy. The order of a set's elements does not matter
    to the result. *)
Definition clean_up (dead : gset pystr) (ps : list (pystr * Player))
    (occ : gset cell) : list (pystr * Player) * gset cell :=
  foldr (λ player_id '(ps, occ),
           match Dict.get player_id ps with
           | Some player =>
               (Dict.update player_id (set_alive false) ps,
                occ ∖ list_to_set (body player))
           | None => (ps, occ)
           end)
        (ps, occ) (elements dead).

(** Everything of [step] before the food is replenished. *)
Definition resolve_tick (st : GameState) : outcome GameState :=
  '(ps1, new_heads) ← first_pass (players st);
  let temp := temp_occupied_of ps1 (food st) in
  '(ps2, v) ← resolve new_heads ps1
     {| v_food := food st; snakes_to_grow := []; temp_occupied := temp;
        dead_snakes := ∅; v_reasons := death_reasons st |};
  '(ps3, occ) ← move_all new_heads v ps2 (list_to_set (v_food v));
  let '(ps4, occ') := clean_up (dead_snakes v) ps3 occ in
  Ok {| players := ps4; food := v_food v; occupied := occ';
        tick := tick st; death_reasons := v_reasons v |}.

Definition step (fuel : nat) (st : GameState) (g : rng) : outcome (GameState * rng) :=
  st1 ← resolve_tick st;
  '(st2, g') ← spawn_food fuel st1 g;
  Ok ({| players := players st2; food := food st2; occupied := occupied st2;
         tick := tick st2 + 1; death_reasons := death_reasons st2 |}, g').

(** ** Messages of a connection *)

(** What [json.loads] returns. *)
#[warnings="-register-all"]
Inductive json :=
  | JNull
  | JBool (b : bool)
  | JInt (n : Z)
  | JFloat (f : float)
  | JStr (s : pystr)
  | JList (l : list json)
  | JObj (d : list (pystr * json)).

(** [message.get(k)]: [None] stands for the [AttributeError] of a message
    that is not a dict; a missing key gives Python's [None]. *)
Definition msg_get (k : pystr) (message : json) : option json :=
  match message with
  | JObj d => Some (default JNull (Dict.get k d))
  | _ => None
  end.

(** [v == s] for a string literal [s]. *)
Definition str_eq (v : json) (s : pystr) : bool :=
  match v with
  | JStr s' => bool_decide (s' = s)
  | _ => false
  end.

(** [v in (-1, 0, 1)], with the member of the tuple that [v] equals.
    Python compares by [==]: [True == 1], [False == 0] and [1.0 == 1]
    hold, so booleans and floats pass as well as integers. The objects
    themselves are stored in [pending_dir]; [step] only negates, adds and
    compares them, which sees their numeric value, the one kept here. *)
Definition unit_of (v : json) : option Z :=
  match v with
  | JInt n => if bool_decide (n ∈ [-1; 0; 1]) then Some n else None
  | JBool b => Some (if b then 1 else 0)
  | JFloat f =>
      if PrimFloat.eqb f (-1)%float then Some (-1)
      else if PrimFloat.eqb f 0%float then Some 0
      else if PrimFloat.eqb f 1%float then Some 1
      else None
  | _ => None
  end.

(** The direction an [input] message is accepted with, if it is. *)
Definition valid_dir (direction : json) : option (Z * Z) :=
  match direction with
  | JList [dx; dy] =>
      match unit_of dx, unit_of dy with
      | Some x, Some y =>
          if bool_decide (x ≠ 0 ∨ y ≠ 0) then Some (x, y) else None
      | _, _ => None
      end
  | _ => None
  end.

Definition is_list_of_two (v : json) : bool :=
  match v with
  | JList [_; _] => true
  | _ => false
  end.

Inductive outbound := Notification (message : pystr).

(** One turn of the receive loop after [json.loads]: the loop goes on
    with a new state, or an exception breaks it. *)
Inductive handled :=
  | Continue (st : GameState) (g : rng) (sent : list outbound)
  | Break.

Definition is_alive (player_id : pystr) (st : GameState) : bool :=
  match Dict.get player_id (players st) with
  | Some player => alive player
  | None => false
  end.

Definition on_input (player_id : pystr) (now : float) (direction : json)
    (st : GameState) : GameState :=
  if is_list_of_two direction && is_alive player_id st then
    match valid_dir direction with
    | Some d =>
        with_players (Dict.update player_id (set_pending d now) (players st)) st
    | None => st
    end
  else st.

Definition on_respawn (player_id display_name : pystr) (now : float)
    (st : GameState) : Rand GameState :=
  match Dict.get player_id (players st) with
  | Some player =>
      if alive player then mret st
      else add_player player_id (Some display_name) now (remove_player player_id st)
  | None => mret st
  end.

(** The new display name of a [rename] that is accepted. *)
Definition valid_name (new_name : json) : option pystr :=
  match new_name with
  | JStr s =>
      if bool_decide (s ≠ []) && bool_decide (0 < length (strip s))%nat
      then Some (take 20 (strip s)) else None
  | _ => None
  end.

Definition on_rename (player_id : pystr) (new_name : json) (st : GameState)
  : GameState * list outbound :=
  match Dict.get player_id (players st), valid_name new_name with
  | Some _, Some n =>
      (with_players (Dict.update player_id (set_display_name n) (players st)) st,
       [Notification (py "Name changed to " ++ n)])
  | _, _ => (st, [])
  end.

(** The body of the receive loop of [websocket_endpoint] for the
    connection of [player_id]; its [display_name] is the variable bound
    to [player_id] when the connection is accepted. *)
Definition on_message (player_id : pystr) (now : float) (message : json)
    (st : GameState) (g : rng) : handled :=
  let display_name := player_id in
  match msg_get (py "type") message with
  | None => Break
  | Some msg_type =>
      if str_eq msg_type (py "input") then
        match msg_get (py "dir") message with
        | Some direction => Continue (on_input player_id now direction st) g []
        | None => Break
        end
      else if str_eq msg_type (py "respawn") then
        let '(st', g') := on_respawn player_id display_name now st g in
        Continue st' g' []
      else if str_eq msg_type (py "rename") then
        match msg_get (py "name") message with
        | Some new_name =>
            let '(st', sent) := on_rename player_id new_name st in
            Continue st' g sent
        | None => Break
        end
      else Continue st g []
  end.

(** Admission of a connection, and the [finally] clause at its end. *)
Definition on_connect (player_id : pystr) (now : float) (st : GameState)
  : Rand GameState :=
  add_player player_id (Some player_id) now st.

Definition on_close (player_id : pystr) (st : GameState) : GameState :=
  remove_player player_id st.

(** ** Sample runs *)

Definition at_cell (player_id : pystr) (b : list cell) (d pd : Z * Z) : pystr * Player :=
  (player_id,
   {| p_id := player_id; display_name := player_id; body := b; dir := d;
      pending_dir := pd; alive := true; score := 0; food_collected := 0;
      color := py "hsl(0, 100%, 50%)"; last_input_time := 0%float;
      spawn_tick := 0 |}).

Definition state_of (ps : list (pystr * Player)) (fd : list cell) : GameState :=
  {| players := ps; food := fd;
     occupied := temp_occupied_of ps fd; tick := 0; death_reasons := ∅ |}.

(** ** The specification's own conditions *)

(** The direction the specification accepts: two integers of -1..1, not
    both zero. *)
Definition int_unit_dir (direction : json) : Prop :=
  ∃ x y : Z, direction = JList [JInt x; JInt y] ∧
    x ∈ [-1; 0; 1] ∧ y ∈ [-1; 0; 1] ∧ (x ≠ 0 ∨ y ≠ 0).

(** What the code accepts: two values that each equal one of -1, 0, 1,
    not both equal to zero. *)
Definition unit_dir (direction : json) (d : Z * Z) : Prop :=
  ∃ dx dy, direction = JList [dx; dy] ∧
    unit_of dx = Some d.1 ∧ unit_of dy = Some d.2 ∧ (d.1 ≠ 0 ∨ d.2 ≠ 0).

Definition input_message (direction : json) : json :=
  JObj [(py "type", JStr (py "input")); (py "dir", direction)].

Definition rename_message (name : pystr) : json :=
  JObj [(py "type", JStr (py "rename")); (py "name", JStr name)].

Definition respawn_message : json :=
  JObj [(py "type", JStr (py "respawn"))].

(** ** The loops of [step] as functions of the state at the start *)

(** The players after the first pass. *)
Definition committed (ps : list (pystr * Player)) : list (pystr * Player) :=
  (λ '(k, p), (k, if alive p then commit p else p)) <$> ps.

(** The head a player with a committed direction projects. *)
Definition projected (p : Player) : option cell :=
  match body p with
  | [] => None
  | (head_x, head_y) :: _ =>
      Some (clamp_pos (head_x + (dir p).1) (head_y + (dir p).2))
  end.

(** [new_heads] of players that went through the first pass. *)
Definition heads_of (qs : list (pystr * Player)) : list (pystr * cell) :=
  omap (λ '(k, p), if alive p then pair k <$> projected p else None) qs.

(** No alive player has an empty body. *)
Definition bodies_nonempty (ps : list (pystr * Player)) : Prop :=
  Forall (λ kp, alive kp.2 = true → body kp.2 ≠ []) ps.

(** ** Capacity of the grid *)

(** Every cell of the grid is taken. *)
Definition grid_full (occ : gset cell) : Prop :=
  ∀ c, c ∈ grid_cells → c ∈ occ.

Definition grid_full_b (occ : gset cell) : bool :=
  forallb (λ c, bool_decide (c ∈ occ)) grid_cells.

(** The tick resolves into a state with a full grid and food missing. *)
Definition stuck_after_resolve (st : GameState) : bool :=
  match resolve_tick st with
  | Ok st1 =>
      grid_full_b (occupied st1) && bool_decide (length (food st1) < FOOD_COUNT)%nat
  | _ => false
  end.

(** The grid has room for the food that is missing. *)
Definition has_capacity (st : GameState) : Prop :=
  (size (occupied st) + (FOOD_COUNT - length (food st)) ≤ Z.to_nat (WIDTH * HEIGHT))%nat.

(** A path through all the cells of the grid, row by row, alternating
    the direction. *)
Definition hamilton : list cell :=
  y ← seqZ 0 HEIGHT;
  (λ x, (x, y)) <$> (if Z.even y then seqZ 0 WIDTH else reverse (seqZ 0 WIDTH)).

(** One snake fills the grid but for five cells of food in front of it. *)
Definition crowded : GameState :=
  state_of [at_cell (py "a") (drop 5 hamilton) (-1, 0) (-1, 0)] (take 5 hamilton).

(** ** Vocabulary of the collision loop *)

(** Another player projects the head [h] that [k] projects. *)
Definition clash (new_heads : list (pystr * cell)) (k : pystr) (h : cell) : Prop :=
  ∃ k', k' ≠ k ∧ (k', h) ∈ new_heads.

(** [x] is recorded dead by a head-to-head collision. *)
Definition marked (v : Verdict) (x : pystr) : Prop :=
  x ∈ dead_snakes v ∧ v_reasons v !! x = Some (py "head_collision").

(** Two player dicts with the same keys in the same order, the players
    under each key related by [R]. *)
Definition related (R : pystr → Player → Player → Prop)
    (ps qs : list (pystr * Player)) : Prop :=
  Forall2 (λ a b, a.1 = b.1 ∧ R a.1 a.2 b.2) ps qs.

(** What the second loop does to a player: at most one more food item
    collected. *)
Definition fed (_ : pystr) (p q : Player) : Prop :=
  (alive p = false → q = p) ∧ (q = p ∨ q = add_food_collected p).

(** What the third loop does to a player under the verdict [v]. *)
Definition moved (new_heads : list (pystr * cell)) (v : Verdict)
    (k : pystr) (p q : Player) : Prop :=
  if alive p then
    if bool_decide (k ∈ dead_snakes v) then q = set_alive false p
    else ∃ h, Dict.get k new_heads = Some h ∧
      let grows := bool_decide (k ∈ snakes_to_grow v) in
      q = set_body (moved_body grows h (body p))
                   (if grows then score p + 1 else score p) p
  else q = p.

(** What the clean-up does to a player. *)
Definition cleaned (dead : list pystr) (k : pystr) (p q : Player) : Prop :=
  q = p ∨ (k ∈ dead ∧ q = set_alive false p).

(** The verdict the collision loop starts from. *)
Definition verdict0 (st : GameState) : Verdict :=
  {| v_food := food st; snakes_to_grow := [];
     temp_occupied := temp_occupied_of (committed (players st)) (food st);
     dead_snakes := ∅; v_reasons := death_reasons st |}.

(** ** Well-formed and consistent states *)

(** The keys of the players dict are distinct, and no alive player has an
    empty body. *)
Definition well_formed (st : GameState) : Prop :=
  NoDup (Dict.keys (players st)) ∧ bodies_nonempty (players st).

(** The bodies of any two distinct alive players share no cell. *)
Definition alive_disjoint (ps : list (pystr * Player)) : Prop :=
  ∀ k1 p1 k2 p2 c,
    Dict.get k1 ps = Some p1 → Dict.get k2 ps = Some p2 → k1 ≠ k2 →
    alive p1 = true → alive p2 = true →
    c ∈ body p1 → c ∉ body p2.

(** No food lies under the body of an alive player. *)
Definition food_clear (st : GameState) : Prop :=
  ∀ k p c, Dict.get k (players st) = Some p → alive p = true →
    c ∈ body p → c ∉ food st.

(** Every alive player of [ps] has an entry in [new_heads]. *)
Definition heads_cover (new_heads : list (pystr * cell))
    (ps : list (pystr * Player)) : Prop :=
  Forall (λ kp, alive kp.2 = true → is_Some (Dict.get kp.1 new_heads)) ps.

(** [x] projects [h] and nobody else does. *)
Definition sole (new_heads : list (pystr * cell)) (x : pystr) (h : cell) : Prop :=
  Dict.get x new_heads = Some h ∧ ∀ k, (k, h) ∈ new_heads → k = x.

(** What a whole tick does to a player, under the verdict [v] of its
    collision loop. *)
Definition ticked (new_heads : list (pystr * cell)) (v : Verdict)
    (k : pystr) (p q : Player) : Prop :=
  if alive p then
    display_name q = display_name p ∧ dir q = dir (commit p) ∧
    if bool_decide (k ∈ dead_snakes v) then
      alive q = false ∧ body q = body p ∧ score q = score p
    else ∃ h, Dict.get k new_heads = Some h ∧
      let grows := bool_decide (k ∈ snakes_to_grow v) in
      alive q = true ∧ body q = moved_body grows h (body p) ∧
      score q = (if grows then score p + 1 else score p)
  else q = p.

(** After the tick, [k] is dead of a head-to-head collision and lies
    where the player [p] it was before the tick lay. *)
Definition head_collided (st' : GameState) (k : pystr) (p : Player) : Prop :=
  ∃ p', Dict.get k (players st') = Some p' ∧ alive p' = false ∧
    body p' = body p ∧
    death_reasons st' !! k = Some (py "head_collision").

(** ** Runs of the server *)

(** What happens to the game state, one event at a time: the startup of
    the application, a connection admitted, a message received on a
    connection, a connection closed, a tick of the game loop. *)
Inductive event :=
  | Startup
  | Connect (player_id : pystr)
  | Message (player_id : pystr) (message : json)
  | Close (player_id : pystr)
  | Tick.

Definition apply_event (fuel : nat) (now : float) (e : event)
    (s : GameState * rng) : option (GameState * rng) :=
  let '(st, g) := s in
  match e with
  | Startup =>
      match spawn_food fuel st g with Ok s' => Some s' | _ => None end
  | Connect player_id => Some (on_connect player_id now st g)
  | Message player_id message =>
      match on_message player_id now message st g with
      | Continue st' g' _ => Some (st', g')
      | Break => Some (on_close player_id st, g)
      end
  | Close player_id => Some (on_close player_id st, g)
  | Tick =>
      match step fuel st g with Ok s' => Some s' | _ => None end
  end.

Definition run (fuel : nat) (now : float) (es : list event)
    (s : GameState * rng) : option (GameState * rng) :=
  foldl (λ o e, o ≫= apply_event fuel now e) (Some s) es.

(** The union of the bodies of the alive players and of the food: what
    the occupancy set is meant to equal. *)
Definition occupancy_of (st : GameState) : gset cell :=
  temp_occupied_of (players st) (food st).

(** ** Sample states and sample runs *)

Definition alice : pystr := py "a".
Definition bob : pystr := py "b".
Definition carol : pystr := py "c".

(** The draws that place the five food items of the startup at
    (0,0) .. (4,0). *)
Definition food_draws : list Z := [0; 0; 1; 0; 2; 0; 3; 0; 4; 0].

(** The draws of an admission at (10,5), of one at (13,5), of one at
    (10,4); the draws of a hundred attempts at (10,5). *)
Definition at_10_5 : list Z := [5; 3; 0].
Definition at_13_5 : list Z := [8; 3; 0].
Definition at_10_4 : list Z := [5; 2; 0].
Definition refused_at_10_5 : list Z := mjoin (replicate 100 [5; 3]).

Definition turn (player_id : pystr) (dx dy : Z) : event :=
  Message player_id (input_message (JList [JInt dx; JInt dy])).

(** [alice] is admitted at (10,5); every attempt to place [bob] falls on
    her, the fallback puts him on (9,5), over her body; he turns down
    and the tick passes. *)
Definition overlap_run : option (GameState * rng) :=
  run 10 0%float
    [Startup; Connect alice; Connect bob; turn bob 0 1; Tick]
    (init, of_list (food_draws ++ at_10_5 ++ refused_at_10_5 ++ [9; 5; 0])).

(** Food lies on (10,5); every attempt to place [alice] falls on it and
    the fallback puts her on (11,5), over the food; she turns down, a
    tick passes, and she turns back onto her own tail, where the food
    still lies. *)
Definition tail_meal_run : option (GameState * rng) :=
  run 10 0%float
    [Startup; Connect alice; turn alice 0 1; Tick; turn alice (-1) (-1)]
    (init, of_list ([10; 5; 0; 0; 1; 0; 2; 0; 3; 0] ++ refused_at_10_5
                    ++ [11; 5; 0])).

(** [alice] runs into the tail of [bob] and dies; [carol] is admitted on
    the cells the dead body of [alice] still lists. *)
Definition corpse_run : option (GameState * rng) :=
  run 10 0%float
    [Startup; Connect alice; Connect bob; Tick; Connect carol]
    (init, of_list (food_draws ++ at_10_5 ++ at_13_5 ++ at_10_5)).

(** [alice] takes the name Bob and then dies on the tail of [bob]. *)
Definition renamed_run : option (GameState * rng) :=
  run 10 0%float
    [Startup; Connect alice; Connect bob;
     Message alice (rename_message (py "Bob")); Tick]
    (init, of_list (food_draws ++ at_10_5 ++ at_13_5)).

(** Food lies on (11,5); [alice] heads for it along her row and [bob]
    along a diagonal. *)
Definition shared_meal_run : option (GameState * rng) :=
  run 10 0%float
    [Startup; Connect alice; Connect bob; turn bob 1 1]
    (init, of_list ([11; 5; 0; 0; 1; 0; 2; 0; 3; 0] ++ at_10_5 ++ at_10_4)).

(** [alice] alone, just admitted. *)
Definition lone_run : option (GameState * rng) :=
  run 10 0%float [Startup; Connect alice]
    (init, of_list (food_draws ++ at_10_5)).

(** The state of a run, the initial one if the run failed. *)
Definition state_of_run (r : option (GameState * rng)) : GameState :=
  match r with Some (st, _) => st | None => init end.

Definition rng_of_run (r : option (GameState * rng)) : rng :=
  match r with Some (_, g) => g | None => of_list [] end.

(** A snake about to leave the board on the right, and one behind it. *)
Definition edge_players : list (pystr * Player) :=
  [at_cell alice [(39, 5); (38, 5); (37, 5)] (1, 0) (1, 0);
   at_cell bob [(30, 7); (30, 8); (30, 9)] (0, -1) (0, 1)].

(** ** Checks that compute *)

Definition alive_disjoint_b (ps : list (pystr * Player)) : bool :=
  forallb (λ '(k1, p1),
    forallb (λ '(k2, p2),
      bool_decide (k1 = k2) || negb (alive p1) || negb (alive p2) ||
      forallb (λ c, bool_decide (c ∉ body p2)) (body p1)) ps) ps.

Definition food_clear_b (st : GameState) : bool :=
  forallb (λ '(_, p),
    negb (alive p) || forallb (λ c, bool_decide (c ∉ food st)) (body p))
    (players st).

(** ** Sample states *)

Definition five_food : list cell := [(0, 0); (1, 0); (2, 0); (3, 0); (4, 0)].

(** Two snakes one free cell apart on a row, heading for it. *)
Definition head_on_players : list (pystr * Player) :=
  [at_cell alice [(5, 5); (4, 5); (3, 5)] (1, 0) (1, 0);
   at_cell bob [(7, 5); (8, 5); (9, 5)] (-1, 0) (-1, 0)].

Definition head_on : GameState := state_of head_on_players five_food.

(** A snake with food in front of it. *)
Definition meal : GameState :=
  state_of [at_cell alice [(5, 5); (4, 5); (3, 5)] (1, 0) (1, 0)]
           [(6, 5); (0, 0); (1, 0); (2, 0); (3, 0)].

Definition edge_state : GameState := state_of edge_players five_food.

(** ** Further vocabulary *)

(** One of the eight directions of a move. *)
Definition unit_vector (d : Z * Z) : Prop :=
  d ∈ [(-1, -1); (-1, 0); (-1, 1); (0, -1); (0, 1); (1, -1); (1, 0); (1, 1)].

(** The horizontal body of a spawn anchored at (x, y). *)
Definition spawn_body (x y : Z) : list cell :=
  [(x, y); ((x - 1) `mod` WIDTH, y); ((x - 2) `mod` WIDTH, y)].

(** What a tick never changes of a player, and the little it may change:
    the direction becomes the pending one or stays, and at most one more
    food item is collected. *)
Definition framed (p q : Player) : Prop :=
  p_id q = p_id p ∧ display_name q = display_name p ∧
  pending_dir q = pending_dir p ∧ color q = color p ∧
  last_input_time q = last_input_time p ∧ spawn_tick q = spawn_tick p ∧
  (dir q = dir p ∨ dir q = pending_dir p) ∧
  food_collected p ≤ food_collected q ≤ food_collected p + 1.

(** The causes of death the code records. *)
Definition death_causes : list pystr :=
  [py "head_collision"; py "self"; py "other"].

(** Against the death causes [dr] at the start of the tick: every
    identity the verdict lists dead has one of the causes recorded, and
    the record of every other identity is as it was. *)
Definition accounted (dr : gmap pystr pystr) (v : Verdict) : Prop :=
  (∀ x, x ∈ dead_snakes v → ∃ r, v_reasons v !! x = Some r ∧ r ∈ death_causes) ∧
  (∀ x, x ∉ dead_snakes v → v_reasons v !! x = dr !! x).

(** ** States a run of the server can reach *)

(** What holds of every player of such a state at tick [t]. *)
Definition good_player (t : Z) (k : pystr) (p : Player) : Prop :=
  p_id p = k ∧
  (START_LENGTH ≤ length (body p))%nat ∧
  (∀ c, c ∈ body p → c ∈ grid_cells) ∧
  unit_vector (dir p) ∧ unit_vector (pending_dir p) ∧
  0 ≤ score p ∧ score p ≤ food_collected p ∧
  0 ≤ spawn_tick p ∧ spawn_tick p ≤ t.

Definition good (st : GameState) : Prop :=
  NoDup (Dict.keys (players st)) ∧
  (∀ k p, (k, p) ∈ players st → good_player (tick st) k p) ∧
  (∀ c, c ∈ food st → c ∈ grid_cells) ∧
  (length (food st) ≤ FOOD_COUNT)%nat ∧
  0 ≤ tick st.

(** ** Consistent boards *)

(** A well-formed state in which the bodies of distinct alive players
    share no cell, no food lies under an alive body, the food cells are
    distinct, and the occupancy set is the union of the alive bodies and
    the food. *)
Definition consistent (st : GameState) : Prop :=
  well_formed st ∧ alive_disjoint (players st) ∧ food_clear st ∧
  NoDup (food st) ∧ occupied st = occupancy_of st.

(** ** snapshot *)

(** What a client is sent of a player. *)
Record PlayerView := {
  pv_id : pystr;
  pv_body : list cell;
  pv_alive : bool;
  pv_color : pystr;
  pv_score : Z;
  pv_name : pystr;
  pv_food_collected : Z;
  snake_length : nat;
}.

Record Snapshot := {
  s_tick : Z;
  s_players : list (pystr * PlayerView);
  s_food : list cell;
  s_width : Z;
  s_height : Z;
}.

Definition view (pid : pystr) (player : Player) : PlayerView :=
  {| pv_id := pid; pv_body := body player; pv_alive := alive player;
     pv_color := color player; pv_score := score player;
     pv_name := display_name player;
     pv_food_collected := food_collected player;
     snake_length := length (body player) |}.

(** [GameState.snapshot] *)
Definition snapshot (st : GameState) : Snapshot :=
  {| s_tick := tick st;
     s_players := (λ kp, (kp.1, view kp.1 kp.2)) <$> players st;
     s_food := food st;
     s_width := WIDTH;
     s_height := HEIGHT |}.

(** ** Further samples *)

(** The state and the generator a call returns, the initial ones if it
    did not return. *)
Definition state_after (o : outcome (GameState * rng)) : GameState :=
  match o with Ok (st, _) => st | _ => init end.

Definition rng_after (o : outcome (GameState * rng)) : rng :=
  match o with Ok (_, g) => g | _ => of_list [] end.

(** [alice] lies dead on her row. *)
Definition fallen_alice : Player :=
  set_alive false (at_cell alice [(5, 5); (4, 5); (3, 5)] (1, 0) (1, 0)).2.

Definition fallen : GameState := state_of [(alice, fallen_alice)] five_food.

(** * Properties *)

(** ** Dictionaries *)

Lemma get_update {V} k k' (f : V → V) d :
  Dict.get k' (Dict.update k f d) =
  if decide (k = k') then f <$> Dict.get k' d else Dict.get k' d.
Proof.
  induction d as [|[k0 v0] d IH]; simpl.
  - by case_decide.
  - destruct (decide (k0 = k)) as [->|Hne]; simpl.
    + by destruct (decide (k = k')).
    + destruct (decide (k0 = k')) as [->|?]; [|apply IH].
      by destruct (decide (k = k')).
Qed.


Lemma update_ext {V} k (f h : V → V) d :
  (∀ v, f v = h v) → Dict.update k f d = Dict.update k h d.
Proof.
  intros Hfh. induction d as [|[k0 v0] d IH]; simpl; [done|].
  case_decide; by rewrite ?Hfh ?IH.
Qed.

Lemma keys_update {V} k (f : V → V) d :
  Dict.keys (Dict.update k f d) = Dict.keys d.
Proof.
  unfold Dict.keys. induction d as [|[k0 v0] d IH]; simpl; [done|].
  case_decide; simpl; [done|]. by f_equal.
Qed.

(** ** Direction commit and head projection *)

Lemma commit_fields p :
  body (commit p) = body p ∧ alive (commit p) = alive p ∧
  score (commit p) = score p ∧ pending_dir (commit p) = pending_dir p ∧
  display_name (commit p) = display_name p ∧
  food_collected (commit p) = food_collected p.
Proof. unfold commit. by case_bool_decide. Qed.

Lemma commit_dir p :
  dir (commit p) =
  if bool_decide (pending_dir p = opposite (dir p)) then dir p else pending_dir p.
Proof.
  unfold commit. case_bool_decide as H1; case_bool_decide as H2; done.
Qed.

Lemma bodies_nonempty_cons k p ps :
  bodies_nonempty ((k, p) :: ps) →
  (alive p = true → body p ≠ []) ∧ bodies_nonempty ps.
Proof. intros H. by apply Forall_cons_1 in H. Qed.

Lemma first_pass_Ok ps :
  bodies_nonempty ps →
  first_pass ps = Ok (committed ps, heads_of (committed ps)).
Proof.
  induction ps as [|[k p] ps IH]; intros Hne; [done|].
  apply bodies_nonempty_cons in Hne as [Hb Hne].
  simpl. rewrite IH; [|done].
  destruct (alive p) eqn:Hp; simpl.
  - specialize (Hb eq_refl).
    destruct (commit_fields p) as (Hcb & Hca & _).
    rewrite Hca Hp. simpl. unfold projected. rewrite Hcb.
    by destruct (body p) as [|[hx hy] ?].
  - by rewrite Hp.
Qed.

Lemma get_committed k ps :
  Dict.get k (committed ps) = (λ p, if alive p then commit p else p) <$> Dict.get k ps.
Proof.
  induction ps as [|[k0 p0] ps IH]; simpl; [done|]. by case_decide.
Qed.

Lemma get_heads_of k qs q h :
  Dict.get k qs = Some q → alive q = true → projected q = Some h →
  Dict.get k (heads_of qs) = Some h.
Proof.
  induction qs as [|[k0 q0] qs IH]; simpl; [done|].
  intros Hget Hal Hpr. destruct (decide (k0 = k)) as [->|Hk].
  - injection Hget as ->. rewrite Hal Hpr. simpl. by rewrite decide_True.
  - destruct (alive q0); [|by apply IH].
    destruct (projected q0); simpl; [|by apply IH].
    rewrite decide_False; [|done]. by apply IH.
Qed.

(** C7. In the first pass of a tick every alive player takes its pending
    direction unless that is the exact opposite of its current one: with
    the current direction (cx, cy), the pending direction is refused
    when it is (-cx, -cy), and the player then keeps (cx, cy); every
    other pending direction becomes the current one. Its new head is
    projected at ((head_x + dx) mod WIDTH, (head_y + dy) mod HEIGHT) for
    the direction (dx, dy) it then has; a player at x = WIDTH-1 on the
    grid that moves in direction (1,0) projects its head at x = 0 with
    the same y. The pass returns whenever no alive player has an empty
    body. *)
Theorem first_pass_commits_and_projects
    (ps : list (pystr * Player)) player_id player head_x head_y tl :
  bodies_nonempty ps →
  Dict.get player_id ps = Some player →
  alive player = true →
  body player = (head_x, head_y) :: tl →
  ∃ qs new_heads, first_pass ps = Ok (qs, new_heads) ∧
    let d := if bool_decide
                  (pending_dir player = (- (dir player).1, - (dir player).2))
             then dir player else pending_dir player in
    dir <$> Dict.get player_id qs = Some d ∧
    Dict.get player_id new_heads
      = Some ((head_x + d.1) `mod` WIDTH, (head_y + d.2) `mod` HEIGHT) ∧
    (head_x = WIDTH - 1 → d = (1, 0) → 0 ≤ head_y < HEIGHT →
     Dict.get player_id new_heads = Some (0, head_y)).
Proof.
  intros Hne Hget Hal Hb.
  eexists _, _. split; [by apply first_pass_Ok|].
  destruct (commit_fields player) as (Hcb & Hca & _).
  assert (Hq : Dict.get player_id (committed ps) = Some (commit player)).
  { by rewrite get_committed Hget /= Hal. }
  assert (Hh : Dict.get player_id (heads_of (committed ps))
               = Some (clamp_pos (head_x + (dir (commit player)).1)
                                 (head_y + (dir (commit player)).2))).
  { apply (get_heads_of _ _ _ _ Hq); [by rewrite Hca|].
    unfold projected. by rewrite Hcb Hb. }
  cbv zeta. rewrite Hq Hh /= commit_dir. unfold opposite.
  split; [done|]. split; [done|].
  intros -> -> [??]. simpl. unfold clamp_pos, WIDTH, HEIGHT in *.
  f_equal. f_equal. rewrite Z.add_0_r. by apply Z.mod_small.
Qed.

(** ** Messages *)

Lemma msg_get_obj k message v :
  msg_get k message = Some v → ∃ d, message = JObj d.
Proof. destruct message; naive_solver. Qed.


Lemma valid_dir_spec direction d :
  valid_dir direction = Some d ↔ unit_dir direction d.
Proof.
  unfold unit_dir. split.
  - destruct direction as [| | | | |[|dx [|dy [|??]]]|]; simpl; try done.
    destruct (unit_of dx) as [x|] eqn:Hx; [|done].
    destruct (unit_of dy) as [y|] eqn:Hy; [|done].
    case_bool_decide; [|done]. intros [= <-]. by eexists _, _.
  - intros (dx & dy & -> & Hx & Hy & Hnz). simpl. rewrite Hx Hy.
    rewrite bool_decide_eq_true_2; [|done]. by destruct d.
Qed.


(** An array of two integers as the specification describes it is one
    the code accepts. *)
Lemma int_unit_dir_valid direction :
  int_unit_dir direction →
  ∃ x y, direction = JList [JInt x; JInt y] ∧ unit_dir direction (x, y).
Proof.
  intros (x & y & -> & Hx & Hy & Hnz). exists x, y. split; [done|].
  exists (JInt x), (JInt y). simpl.
  rewrite !bool_decide_eq_true_2; done.
Qed.



(** ** Food replenishment *)

Lemma elem_of_grid x y :
  (x, y) ∈ grid_cells ↔ 0 ≤ x < WIDTH ∧ 0 ≤ y < HEIGHT.
Proof.
  unfold grid_cells. rewrite list_elem_of_bind. split.
  - intros (x' & Hin & Hx%elem_of_seqZ).
    apply list_elem_of_bind in Hin as (y' & Hin & Hy%elem_of_seqZ).
    apply list_elem_of_singleton in Hin as [= -> ->]. lia.
  - intros [Hx Hy]. exists x. split; [|apply elem_of_seqZ; lia].
    apply list_elem_of_bind. exists y. split; [by apply list_elem_of_singleton|].
    apply elem_of_seqZ. lia.
Qed.

Lemma grid_full_b_spec occ : grid_full_b occ = true ↔ grid_full occ.
Proof.
  unfold grid_full_b, grid_full. rewrite forallb_forall. split.
  - intros H c Hc. apply list_elem_of_In in Hc. apply H in Hc.
    by apply bool_decide_eq_true in Hc.
  - intros H c Hc. apply bool_decide_eq_true, H. by apply list_elem_of_In.
Qed.

Lemma randint_range a b g :
  a ≤ b → a ≤ (randint a b g).1 ≤ b.
Proof.
  intros Hab. simpl.
  pose proof (Z.mod_pos_bound (draws g (pos g)) (b - a + 1)). lia.
Qed.

Lemma probe_full n occ g :
  grid_full occ → (probe n occ g).1 = None.
Proof.
  intros Hfull. revert g. induction n as [|n IH]; intros g; [done|].
  simpl. unfold mbind, rand_bind.
  destruct (randint 0 (WIDTH - 1) g) as [x g1] eqn:Hx.
  destruct (randint 0 (HEIGHT - 1) g1) as [y g2] eqn:Hy.
  rewrite bool_decide_eq_false_2; [apply IH|].
  intros Hn. apply Hn, Hfull, elem_of_grid.
  pose proof (randint_range 0 (WIDTH - 1) g) as H1.
  pose proof (randint_range 0 (HEIGHT - 1) g1) as H2.
  rewrite Hx in H1. rewrite Hy in H2. unfold WIDTH, HEIGHT in *.
  simpl in *. lia.
Qed.

Lemma probe_free n occ g c :
  (probe n occ g).1 = Some c → c ∉ occ.
Proof.
  revert g. induction n as [|n IH]; intros g; [done|].
  simpl. unfold mbind, rand_bind.
  destruct (randint 0 (WIDTH - 1) g) as [x g1].
  destruct (randint 0 (HEIGHT - 1) g1) as [y g2].
  case_bool_decide as Hf; [|apply IH]. by intros [= <-].
Qed.

(** On a full grid the position found is a taken one. *)
Lemma find_empty_position_full occ g :
  grid_full occ → (find_empty_position occ g).1 ∈ occ.
Proof.
  intros Hfull. unfold find_empty_position, mbind, rand_bind.
  pose proof (probe_full 100 occ g Hfull) as Hp.
  destruct (probe 100 occ g) as [r g1]. simpl in Hp. subst r.
  destruct (find _ grid_cells) as [c|] eqn:Hf.
  - apply find_some in Hf as [Hin Hc]. apply bool_decide_eq_true in Hc.
    destruct Hc. by apply Hfull, list_elem_of_In.
  - destruct (randint 0 (WIDTH - 1) g1) as [x g2] eqn:Hx.
    destruct (randint 0 (HEIGHT - 1) g2) as [y g3] eqn:Hy.
    simpl. apply Hfull, elem_of_grid.
    pose proof (randint_range 0 (WIDTH - 1) g1) as H1.
    pose proof (randint_range 0 (HEIGHT - 1) g2) as H2.
    rewrite Hx in H1. rewrite Hy in H2. unfold WIDTH, HEIGHT in *.
    simpl in *. lia.
Qed.

(** While a cell of the grid is free the position found is a free one. *)
Lemma find_empty_position_free occ g c :
  c ∈ grid_cells → c ∉ occ → (find_empty_position occ g).1 ∉ occ.
Proof.
  intros Hin Hc. unfold find_empty_position, mbind, rand_bind.
  destruct (probe 100 occ g) as [[c'|] g1] eqn:Hp.
  - simpl. apply (probe_free 100 occ g). by rewrite Hp.
  - destruct (find _ grid_cells) as [c'|] eqn:Hf.
    + apply find_some in Hf as [_ Hc']. by apply bool_decide_eq_true in Hc'.
    + apply list_elem_of_In in Hin.
      pose proof (find_none _ _ Hf _ Hin) as Hb. simpl in Hb.
      by apply bool_decide_eq_false in Hb.
Qed.

(** The loop of [spawn_food] never ends on a full grid that misses food. *)
Lemma spawn_food_diverges fuel st g :
  grid_full (occupied st) → (length (food st) < FOOD_COUNT)%nat →
  spawn_food fuel st g = OutOfFuel.
Proof.
  intros Hfull Hlen. revert g. induction fuel as [|fuel IH]; intros g; simpl;
    rewrite bool_decide_eq_true_2 //.
  pose proof (find_empty_position_full _ g Hfull) as Hc.
  destruct (find_empty_position (occupied st) g) as [c g'].
  rewrite bool_decide_eq_false_2; [apply IH|]. by intros Hn.
Qed.

Lemma step_diverges st :
  stuck_after_resolve st = true → ∀ fuel g, step fuel st g = OutOfFuel.
Proof.
  unfold stuck_after_resolve, step. intros Hs fuel g.
  destruct (resolve_tick st) as [st1| |]; try done. simpl.
  apply andb_true_iff in Hs as [Hfull%grid_full_b_spec Hlen%bool_decide_eq_true].
  by rewrite spawn_food_diverges.
Qed.

(** C3, at its failing input. The snake of [crowded] eats the food in
    front of it; the grid is then full with four food items, and the
    replenishment of that tick does not return, whatever the fuel and the
    random draws. *)
Theorem step_crowded_never_returns :
  ∀ fuel g, step fuel crowded g = OutOfFuel.
Proof. apply step_diverges. by vm_compute. Qed.

Lemma NoDup_grid_cells : NoDup grid_cells.
Proof. apply (bool_decide_unpack _). by vm_compute. Qed.

Lemma free_cell (occ : gset cell) :
  (size occ < Z.to_nat (WIDTH * HEIGHT))%nat → ∃ c, c ∈ grid_cells ∧ c ∉ occ.
Proof.
  intros Hsz.
  destruct (Forall_Exists_dec (λ c, c ∈ occ) (λ c, c ∉ occ)
              (λ c, decide (c ∈ occ)) grid_cells) as [Hall|Hex].
  - assert (Hsub : list_to_set grid_cells ⊆ occ).
    { intros c Hc%elem_of_list_to_set. by eapply Forall_forall in Hall. }
    apply subseteq_size in Hsub.
    rewrite size_list_to_set in Hsub; [|apply NoDup_grid_cells].
    replace (length grid_cells) with (Z.to_nat (WIDTH * HEIGHT)) in Hsub
      by by vm_compute.
    lia.
  - apply Exists_exists in Hex as (c & Hin & Hc). by exists c.
Qed.

(** With room on the grid and fuel for the missing items, [spawn_food]
    returns, with the food topped up to [FOOD_COUNT] and nothing of the
    players touched. *)
Lemma spawn_food_returns fuel st g :
  has_capacity st → (FOOD_COUNT - length (food st) ≤ fuel)%nat →
  ∃ st' g', spawn_food fuel st g = Ok (st', g') ∧
    players st' = players st ∧ tick st' = tick st ∧
    death_reasons st' = death_reasons st ∧
    length (food st') = (length (food st) `max` FOOD_COUNT)%nat.
Proof.
  revert st g. induction fuel as [|fuel IH]; intros st g Hcap Hfuel; simpl.
  - rewrite bool_decide_eq_false_2; [|lia]. eexists _, _. repeat split. lia.
  - case_bool_decide as Hlen; [|eexists _, _; repeat split; lia].
    unfold has_capacity in Hcap.
    destruct (free_cell (occupied st)) as (c0 & Hin & Hfree); [lia|].
    pose proof (find_empty_position_free _ g _ Hin Hfree) as Hc.
    destruct (find_empty_position (occupied st) g) as [c g']. simpl in Hc.
    rewrite bool_decide_eq_true_2 //.
    edestruct IH as (st' & g'' & -> & Hp & Ht & Hd & Hl).
    + unfold has_capacity. simpl. rewrite size_union; [|set_solver].
      rewrite size_singleton length_app. simpl. lia.
    + simpl. rewrite length_app. simpl. lia.
    + eexists _, _. split; [done|]. simpl in *. rewrite length_app in Hl.
      simpl in Hl. repeat split; try done. lia.
Qed.

(** Whenever [spawn_food] returns, the players are as they were and no
    food item is missing. *)
Lemma spawn_food_Ok fuel st g st' g' :
  spawn_food fuel st g = Ok (st', g') →
  players st' = players st ∧ tick st' = tick st ∧
  death_reasons st' = death_reasons st ∧ (FOOD_COUNT ≤ length (food st'))%nat.
Proof.
  revert st g. induction fuel as [|fuel IH]; intros st g; simpl.
  - case_bool_decide; [done|]. intros [= <- <-]. repeat split. lia.
  - case_bool_decide; [|intros [= <- <-]; repeat split; lia].
    destruct (find_empty_position (occupied st) g) as [c g1].
    case_bool_decide; intros H'; by apply IH in H'.
Qed.

(** ** Dictionaries, continued *)

Lemma get_elem_of {V} k (v : V) d : Dict.get k d = Some v → (k, v) ∈ d.
Proof.
  induction d as [|[k0 v0] d IH]; simpl; [done|].
  case_decide as Hk; [intros [= ->]; subst; left|right; auto].
Qed.

Lemma elem_of_get {V} k (v : V) d :
  NoDup (Dict.keys d) → (k, v) ∈ d → Dict.get k d = Some v.
Proof.
  unfold Dict.keys. induction d as [|[k0 v0] d IH]; simpl.
  - by intros _ ?%elem_of_nil.
  - intros [Hnin Hnd]%NoDup_cons [[= -> ->]|Hin]%elem_of_cons.
    + by rewrite decide_True.
    + rewrite decide_False; [by apply IH|].
      intros ->. apply Hnin. apply list_elem_of_fmap. by exists (k, v).
Qed.

Lemma get_Some_key {V} k (v : V) d : Dict.get k d = Some v → k ∈ Dict.keys d.
Proof.
  intros Hin%get_elem_of. apply list_elem_of_fmap. by exists (k, v).
Qed.

Lemma get_None_key {V} k (d : list (pystr * V)) :
  Dict.get k d = None ↔ k ∉ Dict.keys d.
Proof.
  unfold Dict.keys. induction d as [|[k0 v0] d IH]; simpl.
  - split; [intros _ ?%elem_of_nil|]; done.
  - rewrite not_elem_of_cons. case_decide; naive_solver.
Qed.

Lemma related_keys R ps qs : related R ps qs → Dict.keys qs = Dict.keys ps.
Proof.
  unfold Dict.keys.
  induction 1 as [|[??] [??] ?? [??] _ IH]; simpl in *; [done|].
  f_equal; [done|]. apply IH.
Qed.

Lemma related_get R ps qs k p :
  related R ps qs → Dict.get k ps = Some p →
  ∃ q, Dict.get k qs = Some q ∧ R k p q.
Proof.
  induction 1 as [|[k1 p1] [k2 p2] ps qs [Hk HR] _ IH]; simpl in *; [done|].
  subst k2. case_decide; [|done]. intros [= ->]. subst. by exists p2.
Qed.

Lemma related_get_inv R ps qs k q :
  related R ps qs → Dict.get k qs = Some q →
  ∃ p, Dict.get k ps = Some p ∧ R k p q.
Proof.
  induction 1 as [|[k1 p1] [k2 p2] ps qs [Hk HR] _ IH]; simpl in *; [done|].
  subst k2. case_decide; [|done]. intros [= ->]. subst. by exists p1.
Qed.

Lemma related_impl (R R' : pystr → Player → Player → Prop) ps qs :
  (∀ k p q, R k p q → R' k p q) → related R ps qs → related R' ps qs.
Proof. intros HR H. eapply Forall2_impl; [done|]. naive_solver. Qed.

Lemma related_update k f ps :
  related (λ k' p q, q = p ∨ (k' = k ∧ q = f p)) ps (Dict.update k f ps).
Proof.
  induction ps as [|[k0 p0] ps IH]; simpl; [constructor|].
  case_decide; constructor; simpl; auto.
  apply Forall2_same_length_lookup_2; [done|].
  intros i [??] [??] H1 H2. simplify_eq. simpl. auto.
Qed.

(** ** One player in the collision loop *)

Lemma marked_kill_same v x : marked (kill x (py "head_collision") v) x.
Proof. split; simpl; [set_solver|]. by rewrite lookup_insert_eq. Qed.

Lemma marked_kill v x y : marked v y → marked (kill x (py "head_collision") v) y.
Proof.
  intros [Hd Hr]. split; simpl; [set_solver|].
  destruct (decide (x = y)) as [->|Hne];
    [by rewrite lookup_insert_eq|by rewrite lookup_insert_ne].
Qed.

Lemma head_to_head_facts k h nh v :
  let v' := head_to_head k h nh v in
  v_food v' = v_food v ∧ snakes_to_grow v' = snakes_to_grow v ∧
  temp_occupied v' = temp_occupied v ∧
  dead_snakes v ⊆ dead_snakes v' ∧
  (∀ x, marked v x → marked v' x) ∧
  (clash nh k h → marked v' k) ∧
  (∀ x, x ∈ dead_snakes v' →
     x ∈ dead_snakes v ∨ (clash nh k h ∧ (x = k ∨ (x, h) ∈ nh))).
Proof.
  unfold head_to_head. revert v.
  induction nh as [|[k0 h0] nh IH]; intros v; simpl.
  - split_and!; try done; [by intros (k' & _ & ?%elem_of_nil)|auto].
  - set (v1 := if decide (k0 = k) then v else _).
    destruct (IH v1) as (Hf & Hg & Ht & Hd & Hm & Hc & Hx).
    assert (Hv1 : v_food v1 = v_food v ∧ snakes_to_grow v1 = snakes_to_grow v ∧
                  temp_occupied v1 = temp_occupied v ∧
                  dead_snakes v ⊆ dead_snakes v1 ∧
                  (∀ x, marked v x → marked v1 x)).
    { subst v1. destruct (decide (k0 = k)); [done|].
      destruct (decide (h = h0)); [|done]. split_and!; try done.
      - simpl. intros x Hx'. apply elem_of_union_r. by apply elem_of_union_r.
      - intros x Hmx. by do 2 apply marked_kill. }
    destruct Hv1 as (Hf1 & Hg1 & Ht1 & Hd1 & Hm1).
    split; [congruence|]. split; [congruence|]. split; [congruence|].
    split; [by etrans|]. split; [auto|]. split.
    + intros (k' & Hne & [[= -> ->]|Hin]%elem_of_cons).
      * apply Hm. subst v1. rewrite decide_False // decide_True //.
        apply marked_kill, marked_kill_same.
      * apply Hc. by exists k'.
    + intros x [Hin|[(k' & Hne & Hk') Hor]]%Hx.
      * subst v1. destruct (decide (k0 = k)); [by left|].
        destruct (decide (h = h0)) as [<-|]; [|by left]. simpl in Hin.
        assert (Hcl : clash ((k0, h) :: nh) k h).
        { exists k0. split; [done|]. left. }
        apply elem_of_union in Hin as [->%elem_of_singleton|Hin].
        { right. split; [done|]. right. left. }
        apply elem_of_union in Hin as [->%elem_of_singleton|Hin].
        { right. split; [done|]. by left. }
        by left.
      * right. split; [exists k'; split; [done|by right]|].
        destruct Hor; [auto|right; by right].
Qed.

Lemma body_check_facts k p h v :
  let v' := body_check k p h v in
  v_food v' = v_food v ∧ snakes_to_grow v' = snakes_to_grow v ∧
  temp_occupied v' = temp_occupied v ∧
  dead_snakes v ⊆ dead_snakes v' ∧
  (∀ x, marked v x → marked v' x) ∧
  (∀ x, x ∈ dead_snakes v' →
     x ∈ dead_snakes v ∨ (x = k ∧ h ∈ temp_occupied v)) ∧
  (k ∉ dead_snakes v' → h ∈ temp_occupied v →
     last (body p) = Some h ∧ k ∉ snakes_to_grow v).
Proof.
  unfold body_check. case_bool_decide as Hdead.
  { split_and!; try done; auto. }
  set (excluded := match last (body p) with Some _ => _ | None => _ end).
  assert (Hex : h ∈ excluded → last (body p) = Some h ∧ k ∉ snakes_to_grow v).
  { subst excluded. destruct (last (body p)) as [t|]; [|by intros ?%elem_of_empty].
    case_bool_decide; [|by intros ?%elem_of_empty].
    by intros ->%elem_of_singleton. }
  case_bool_decide as Hhit; simpl.
  - destruct Hhit as [Hin Hnex]. split_and!; try done.
    + intros x ?. by apply elem_of_union_r.
    + intros x [Hd Hr]. split; simpl; [by apply elem_of_union_r|].
      rewrite lookup_insert_ne //. by intros ->.
    + intros x [->%elem_of_singleton|?]%elem_of_union; auto.
    + intros Hn. destruct Hn. apply elem_of_union_l. by apply elem_of_singleton.
  - split_and!; try done; auto.
    intros _ Hin. apply Hex. apply not_and_r in Hhit as [?|Hhit]; [done|].
    by apply dec_stable in Hhit.
Qed.

Lemma elem_of_remove_first c h l : c ∈ remove_first h l → c ∈ l.
Proof.
  induction l as [|c0 l IH]; simpl; [done|].
  case_decide; [by right|]. intros [->|?]%elem_of_cons; [left|right; auto].
Qed.

Lemma elem_of_remove_first_ne c h l : c ≠ h → c ∈ l → c ∈ remove_first h l.
Proof.
  intros Hne. induction l as [|c0 l IH]; simpl; [done|].
  intros [->|?]%elem_of_cons.
  - rewrite decide_False; [left|done].
  - case_decide; [done|right; auto].
Qed.

Lemma resolve_one_facts nh k p h v :
  Dict.get k nh = Some h →
  ∃ p' v1, resolve_one nh k p v = Ok (p', v1) ∧
    (p' = p ∨ p' = add_food_collected p) ∧
    dead_snakes v ⊆ dead_snakes v1 ∧
    (∀ x, marked v x → marked v1 x) ∧
    (clash nh k h → marked v1 k) ∧
    (∀ c, c ∈ v_food v1 → c ∈ v_food v) ∧
    (∀ c, c ≠ h → c ∈ v_food v → c ∈ v_food v1) ∧
    (∀ c, c ∈ temp_occupied v → c ∉ v_food v → c ∈ temp_occupied v1) ∧
    (∀ x, x ∈ snakes_to_grow v1 ↔ x ∈ snakes_to_grow v ∨ (x = k ∧ h ∈ v_food v)) ∧
    (k ∉ dead_snakes v1 → h ∈ temp_occupied v → h ∉ v_food v →
       last (body p) = Some h) ∧
    (∀ x, x ∈ dead_snakes v1 →
       x ∈ dead_snakes v ∨ (x ≠ k ∧ (x, h) ∈ nh) ∨
       (x = k ∧ (clash nh k h ∨ h ∉ v_food v))).
Proof.
  intros Hget. unfold resolve_one. rewrite Hget.
  set (pv := if bool_decide (h ∈ v_food v) then _ else _).
  destruct pv as [p' ve] eqn:Hpv.
  assert (Heat : (p' = p ∨ p' = add_food_collected p) ∧ body p' = body p ∧
    dead_snakes ve = dead_snakes v ∧ v_reasons ve = v_reasons v ∧
    (∀ c, c ∈ v_food ve → c ∈ v_food v) ∧
    (∀ c, c ≠ h → c ∈ v_food v → c ∈ v_food ve) ∧
    (∀ c, c ∈ temp_occupied v → c ∉ v_food v → c ∈ temp_occupied ve) ∧
    (∀ x, x ∈ snakes_to_grow ve ↔ x ∈ snakes_to_grow v ∨ (x = k ∧ h ∈ v_food v)) ∧
    (h ∈ temp_occupied ve → h ∈ temp_occupied v ∧ h ∉ v_food v)).
  { subst pv. case_bool_decide as Hfd; injection Hpv as <- <-; simpl.
    - split; [by right|]. split; [done|]. split; [done|]. split; [done|].
      split; [intros c; apply elem_of_remove_first|].
      split; [intros c; apply elem_of_remove_first_ne|].
      split.
      { intros c Hc Hn. apply elem_of_difference. split; [done|].
        by intros ->%elem_of_singleton. }
      split.
      { intros x. rewrite elem_of_app list_elem_of_singleton. naive_solver. }
      intros [_ Hn]%elem_of_difference. destruct Hn. by apply elem_of_singleton.
    - split; [by left|]. split; [done|]. split; [done|]. split; [done|].
      split; [done|]. split; [done|]. split; [done|].
      split; [naive_solver|done]. }
  destruct Heat as (Hp' & Hb & Hd & Hr & Hf1 & Hf2 & Ht & Hg & Hh).
  pose proof (head_to_head_facts k h nh ve) as (Hf' & Hg' & Ht' & Hd' & Hm' & Hc' & Hx').
  pose proof (body_check_facts k p' h (head_to_head k h nh ve))
    as (Hf'' & Hg'' & Ht'' & Hd'' & Hm'' & Hx'' & Hs'').
  cbv zeta in *. eexists _, _. split; [done|].
  assert (Hmve : ∀ x, marked v x → marked ve x).
  { intros x [??]. split; congruence. }
  split_and!.
  - done.
  - rewrite -Hd. set_solver.
  - auto.
  - auto.
  - intros c. rewrite Hf'' Hf'. auto.
  - intros c ??. rewrite Hf'' Hf'. auto.
  - intros c ??. rewrite Ht'' Ht'. auto.
  - intros x. rewrite Hg'' Hg'. auto.
  - intros Hnd Hin Hnf. rewrite -Hb. apply Hs''; [done|].
    rewrite Ht'. apply Ht; done.
  - intros x [Hin|[-> Hin]]%Hx''.
    + apply Hx' in Hin as [Hin|[Hcl [->|Hin]]].
      * left. by rewrite -Hd.
      * right. right. auto.
      * destruct (decide (x = k)) as [->|?]; [right; right; auto|auto].
    + right. right. split; [done|]. right. rewrite Ht' in Hin.
      by apply Hh in Hin as [_ ?].
Qed.

(** ** The collision loop *)

Lemma resolve_Ok nh ps v :
  heads_cover nh ps → ∃ ps' v', resolve nh ps v = Ok (ps', v').
Proof.
  revert v. induction ps as [|[k p] ps IH]; intros v Hc; simpl.
  - by eexists _, _.
  - apply Forall_cons_1 in Hc as [Hk Hc]. simpl in Hk.
    destruct (alive p) eqn:Hp; simpl.
    + destruct (Hk eq_refl) as [h Hh].
      destruct (resolve_one_facts nh k p h v Hh) as (p' & v1 & -> & _). simpl.
      destruct (IH v1 Hc) as (ps' & v' & ->). by eexists _, _.
    + destruct (IH v Hc) as (ps' & v' & ->). by eexists _, _.
Qed.

(** Induction over a run of the loop that returns. *)
Lemma resolve_run_ind nh
    (P : list (pystr * Player) → Verdict → list (pystr * Player) → Verdict → Prop) :
  (∀ v, P [] v [] v) →
  (∀ k p ps v ps' v', alive p = false →
     resolve nh ps v = Ok (ps', v') → P ps v ps' v' →
     P ((k, p) :: ps) v ((k, p) :: ps') v') →
  (∀ k p h p1 v1 ps v ps' v', alive p = true →
     Dict.get k nh = Some h → resolve_one nh k p v = Ok (p1, v1) →
     resolve nh ps v1 = Ok (ps', v') → P ps v1 ps' v' →
     P ((k, p) :: ps) v ((k, p1) :: ps') v') →
  ∀ ps v ps' v', resolve nh ps v = Ok (ps', v') → P ps v ps' v'.
Proof.
  intros Hnil Hskip Hone ps.
  induction ps as [|[k p] ps IH]; intros v ps' v'; simpl.
  - intros [= <- <-]. apply Hnil.
  - destruct (alive p) eqn:Hp; simpl.
    + destruct (resolve_one nh k p v) as [[p1 v1]| |] eqn:H1; simpl; try done.
      destruct (resolve nh ps v1) as [[qs v2]| |] eqn:H2; simpl; try done.
      intros [= <- <-].
      assert (∃ h, Dict.get k nh = Some h) as [h Hh].
      { unfold resolve_one in H1. destruct (Dict.get k nh); [eauto|done]. }
      eapply Hone; eauto.
    + destruct (resolve nh ps v) as [[qs v2]| |] eqn:H2; simpl; try done.
      intros [= <- <-]. eapply Hskip; eauto.
Qed.

Ltac one_facts H1 Hh :=
  let p' := fresh "p'" in let v' := fresh "v'" in let E := fresh "E" in
  match type of H1 with
  | resolve_one ?nh ?k ?p ?v = _ =>
      destruct (resolve_one_facts nh k p _ v Hh)
        as (p' & v' & E & Hfed1 & Hsub1 & Hmark1 & Hclash1 & Hfood1 &
            Hfoodne1 & Htemp1 & Hgrow1 & Hsurv1 & Hdead1);
      rewrite H1 in E; injection E as <- <-
  end.

Lemma resolve_fed nh ps v ps' v' :
  resolve nh ps v = Ok (ps', v') → related fed ps ps'.
Proof.
  revert ps v ps' v'. apply resolve_run_ind.
  - constructor.
  - intros. constructor; [|done]. by split; [|split; [|left]].
  - intros k p h p1 v1 ps v ps' v' Hp Hh H1 _ IH. one_facts H1 Hh.
    constructor; [|done]. split; [done|]. split; [simpl; congruence|done].
Qed.

Lemma resolve_stable nh ps v ps' v' :
  resolve nh ps v = Ok (ps', v') →
  dead_snakes v ⊆ dead_snakes v' ∧
  (∀ x, marked v x → marked v' x) ∧
  (∀ c, c ∈ v_food v' → c ∈ v_food v) ∧
  (∀ c, c ∈ temp_occupied v → c ∉ v_food v → c ∈ temp_occupied v') ∧
  (∀ x, x ∈ snakes_to_grow v → x ∈ snakes_to_grow v').
Proof.
  revert ps v ps' v'. apply resolve_run_ind; [done..|].
  intros k p h p1 v1 ps v ps' v' Hp Hh H1 _ (Hd & Hm & Hf & Ht & Hg).
  one_facts H1 Hh. split_and!; [set_solver|naive_solver..].
Qed.

(** A player whose projected head another player projects too is
    recorded dead by a head-to-head collision when the loop ends. *)
Lemma resolve_clash nh ps v ps' v' :
  resolve nh ps v = Ok (ps', v') →
  ∀ k p h, (k, p) ∈ ps → alive p = true → Dict.get k nh = Some h →
    clash nh k h → marked v' k.
Proof.
  revert ps v ps' v'.
  apply (resolve_run_ind nh (λ ps v ps' v',
    ∀ k p h, (k, p) ∈ ps → alive p = true → Dict.get k nh = Some h →
      clash nh k h → marked v' k)).
  - by intros v k p h ?%elem_of_nil.
  - intros k0 p0 ps v ps' v' Hp0 _ IH k p h [[= -> ->]|Hin]%elem_of_cons;
      [congruence|by eapply IH].
  - intros k0 p0 h0 p1 v1 ps v ps' v' Hp0 Hh0 H1 Hrest IH k p h
      [[= -> ->]|Hin]%elem_of_cons Hp Hh Hcl; [|by eapply IH].
    one_facts H1 Hh0. apply resolve_stable in Hrest as (_ & Hm & _).
    apply Hm. naive_solver.
Qed.

(** A survivor's projected head lies on no cell that was taken by a
    body at the start of the tick, its own tail apart. *)
Lemma resolve_survivor (nh : list (pystr * cell)) (F : list cell) (T : gset cell)
    (ps : list (pystr * Player)) (v : Verdict) ps' v' :
  resolve nh ps v = Ok (ps', v') →
  (∀ c, c ∈ v_food v → c ∈ F) →
  (∀ c, c ∈ T → c ∉ F → c ∈ temp_occupied v) →
  ∀ k p h, (k, p) ∈ ps → alive p = true → Dict.get k nh = Some h →
    k ∉ dead_snakes v' → h ∈ T → h ∉ F → last (body p) = Some h.
Proof.
  revert ps v ps' v'.
  apply (resolve_run_ind nh (λ ps v ps' v',
    (∀ c, c ∈ v_food v → c ∈ F) →
    (∀ c, c ∈ T → c ∉ F → c ∈ temp_occupied v) →
    ∀ k p h, (k, p) ∈ ps → alive p = true → Dict.get k nh = Some h →
      k ∉ dead_snakes v' → h ∈ T → h ∉ F → last (body p) = Some h)).
  - by intros v _ _ k p h ?%elem_of_nil.
  - intros k0 p0 ps v ps' v' Hp0 _ IH HF HT k p h [[= -> ->]|Hin]%elem_of_cons;
      [congruence|by eapply IH].
  - intros k0 p0 h0 p1 v1 ps v ps' v' Hp0 Hh0 H1 Hrest IH HF HT k p h
      [[= -> ->]|Hin]%elem_of_cons Hp Hh Hnd HhT HhF.
    + one_facts H1 Hh0. apply resolve_stable in Hrest as (Hd & _).
      assert (h0 = h) as -> by congruence.
      naive_solver (eauto using elem_of_weaken).
    + one_facts H1 Hh0. eapply IH; eauto.
      intros c HcT HcF. naive_solver.
Qed.

(** Nobody grows without food under its projected head. *)
Lemma resolve_grow_food nh ps v ps' v' :
  resolve nh ps v = Ok (ps', v') →
  ∀ x h, Dict.get x nh = Some h → x ∈ snakes_to_grow v' →
    x ∈ snakes_to_grow v ∨ h ∈ v_food v.
Proof.
  revert ps v ps' v'.
  apply (resolve_run_ind nh (λ ps v ps' v',
    ∀ x h, Dict.get x nh = Some h → x ∈ snakes_to_grow v' →
      x ∈ snakes_to_grow v ∨ h ∈ v_food v)); [auto..|].
  intros k p h0 p1 v1 ps v ps' v' Hp Hh0 H1 _ IH x h Hh Hin.
  one_facts H1 Hh0. destruct (IH x h Hh Hin) as [Hg|Hf]; [|auto].
  assert (x ∈ snakes_to_grow v ∨ x = k ∧ h0 ∈ v_food v) as [?|[-> ?]]
    by naive_solver; [auto|].
  right. congruence.
Qed.

(** A player outside the rest of the loop that alone projects its head
    is not killed by the others. *)
Lemma resolve_sole_absent nh x h ps v ps' v' :
  resolve nh ps v = Ok (ps', v') →
  NoDup (Dict.keys nh) → sole nh x h →
  x ∉ Dict.keys ps → x ∉ dead_snakes v → x ∉ dead_snakes v'.
Proof.
  intros Hrun Hnd [Hx Hsole]. revert ps v ps' v' Hrun.
  apply (resolve_run_ind nh (λ ps v ps' v',
    x ∉ Dict.keys ps → x ∉ dead_snakes v → x ∉ dead_snakes v')).
  - done.
  - intros k p ps v ps' v' _ _ IH Hk. apply IH. set_solver.
  - intros k p h0 p1 v1 ps v ps' v' Hp Hh0 H1 _ IH Hk Hd.
    unfold Dict.keys in Hk. simpl in Hk. apply not_elem_of_cons in Hk as [Hne Hk].
    one_facts H1 Hh0. apply IH; [done|].
    intros [?|[[_ Hin]|[? _]]]%Hdead1; [done| |done].
    apply elem_of_get in Hin; [|done].
    assert (h0 = h) as -> by congruence.
    apply get_elem_of in Hh0. by apply Hsole in Hh0.
Qed.

(** A player that alone projects its head, onto food, grows and
    survives the loop. *)
Lemma resolve_sole_eats nh x h ps v ps' v' :
  resolve nh ps v = Ok (ps', v') →
  NoDup (Dict.keys nh) → sole nh x h → NoDup (Dict.keys ps) →
  (∃ p, (x, p) ∈ ps ∧ alive p = true) →
  x ∉ dead_snakes v → h ∈ v_food v →
  x ∈ snakes_to_grow v' ∧ x ∉ dead_snakes v'.
Proof.
  intros Hrun Hnd Hs. pose proof Hs as [Hx Hsole]. revert ps v ps' v' Hrun.
  apply (resolve_run_ind nh (λ ps v ps' v',
    NoDup (Dict.keys ps) → (∃ p, (x, p) ∈ ps ∧ alive p = true) →
    x ∉ dead_snakes v → h ∈ v_food v →
    x ∈ snakes_to_grow v' ∧ x ∉ dead_snakes v')).
  - by intros v _ (p & ?%elem_of_nil & _).
  - intros k p ps v ps' v' Hp _ IH [_ Hnd']%NoDup_cons
      (px & [[= -> ->]|Hin]%elem_of_cons & Hpx); [congruence|].
    apply IH; eauto.
  - intros k p h0 p1 v1 ps v ps' v' Hp Hh0 H1 Hrest IH [Hk Hnd']%NoDup_cons
      (px & Hin & Hpx) Hd Hf.
    one_facts H1 Hh0. destruct (decide (k = x)) as [->|Hne].
    + assert (h0 = h) as -> by congruence.
      pose proof (resolve_stable _ _ _ _ _ Hrest) as (_ & _ & _ & _ & Hg).
      split; [apply Hg; naive_solver|].
      eapply resolve_sole_absent; eauto.
      intros [?|[[? _]|[_ [(k' & Hk' & Hin')|?]]]]%Hdead1; try done.
      by apply Hsole in Hin'.
    + apply elem_of_cons in Hin as [[= -> ->]|Hin]; [done|].
      apply IH; eauto.
      * intros [?|[[_ Hin']|[? _]]]%Hdead1; try done.
        apply elem_of_get in Hin'; [|done].
        assert (h0 = h) as -> by congruence.
        apply get_elem_of in Hh0. by apply Hsole in Hh0.
      * apply Hfoodne1; [|done]. intros <-.
        apply get_elem_of in Hh0. by apply Hsole in Hh0.
Qed.

(** ** The move loop and the clean-up *)

Lemma related_trans R1 R2 ps qs rs :
  related R1 ps qs → related R2 qs rs →
  related (λ k p r, ∃ q, R1 k p q ∧ R2 k q r) ps rs.
Proof.
  intros H1. revert rs.
  induction H1 as [|[k1 p1] [k2 p2] ps qs [Hk HR] _ IH]; intros rs H2.
  - apply Forall2_nil_inv_l in H2 as ->. constructor.
  - apply Forall2_cons_inv_l in H2 as ([k3 p3] & rs' & [Hk' HR'] & H2 & ->).
    simpl in *. subst. constructor; [|by apply IH]. simpl. eauto.
Qed.

Lemma heads_cover_related R nh ps qs :
  (∀ k p q, R k p q → alive q = alive p) →
  related R ps qs → heads_cover nh ps → heads_cover nh qs.
Proof.
  intros HR. unfold heads_cover.
  induction 1 as [|[k1 p1] [k2 p2] ps qs [Hk HR'] _ IH]; [done|].
  simpl in *. subst. intros [H1 H2]%Forall_cons_1. constructor; [|auto].
  simpl in *. rewrite (HR _ _ _ HR'). auto.
Qed.

Lemma move_all_Ok nh v ps occ :
  heads_cover nh ps →
  ∃ ps' occ', move_all nh v ps occ = Ok (ps', occ') ∧ related (moved nh v) ps ps'.
Proof.
  revert occ. induction ps as [|[k p] ps IH]; intros occ Hc; simpl.
  - eexists _, _. split; [done|constructor].
  - apply Forall_cons_1 in Hc as [Hk Hc]. simpl in Hk.
    destruct (alive p) eqn:Hp; simpl.
    + case_bool_decide as Hd.
      * destruct (IH occ Hc) as (ps' & occ' & -> & Hrel). eexists _, _.
        split; [done|]. constructor; [|done]. split; [done|].
        unfold moved. simpl. by rewrite Hp bool_decide_eq_true_2.
      * destruct (Hk eq_refl) as [h Hh]. rewrite Hh.
        edestruct IH as (ps' & occ' & -> & Hrel); [done|]. eexists _, _.
        split; [done|]. constructor; [|done]. split; [done|].
        unfold moved. simpl. rewrite Hp bool_decide_eq_false_2 //. eauto.
    + destruct (IH occ Hc) as (ps' & occ' & -> & Hrel). eexists _, _.
      split; [done|]. constructor; [|done]. split; [done|].
      unfold moved. simpl. by rewrite Hp.
Qed.

Lemma clean_up_related dead ps occ :
  related (cleaned (elements dead)) ps (clean_up dead ps occ).1.
Proof.
  unfold clean_up. induction (elements dead) as [|k l IH]; simpl.
  - apply Forall2_same_length_lookup_2; [done|].
    intros i [??] [??] H1 H2. simplify_eq. split; [done|by left].
  - destruct (foldr _ (ps, occ) l) as [ps1 occ1]. simpl in IH.
    assert (Hgoal : ∀ ps2, related (λ k' p q, q = p ∨ (k' = k ∧ q = set_alive false p)) ps1 ps2 →
      related (cleaned (k :: l)) ps ps2).
    { intros ps2 H2. eapply related_impl; [|by eapply related_trans].
      intros k' p r (q & [->|[Hin ->]] & [->|[-> ->]]); unfold cleaned.
      - by left.
      - right. split; [left|done].
      - right. split; [by right|done].
      - right. split; [left|done]. }
    destruct (Dict.get k ps1); simpl; apply Hgoal.
    + apply related_update.
    + apply Forall2_same_length_lookup_2; [done|].
      intros i [??] [??] H1 H2. simplify_eq. split; [done|by left].
Qed.

Lemma set_alive_dead p : alive p = false → set_alive false p = p.
Proof. destruct p. simpl. by intros ->. Qed.

(** ** Projected heads *)

Lemma elem_of_heads_of k h qs :
  (k, h) ∈ heads_of qs ↔
  ∃ p, (k, p) ∈ qs ∧ alive p = true ∧ projected p = Some h.
Proof.
  unfold heads_of. rewrite list_elem_of_omap. split.
  - intros ([k' p] & Hin & Hf). destruct (alive p) eqn:Hp; [|done].
    destruct (projected p) as [h'|] eqn:Hpr; [|done].
    injection Hf as -> ->. eauto.
  - intros (p & Hin & Hp & Hpr). exists (k, p). by rewrite Hp Hpr.
Qed.

Lemma keys_heads_of_sublist qs : sublist (Dict.keys (heads_of qs)) (Dict.keys qs).
Proof.
  unfold Dict.keys. induction qs as [|[k p] qs IH]; simpl; [done|].
  destruct (alive p); [|by constructor].
  destruct (projected p); simpl; by constructor.
Qed.

Lemma NoDup_keys_heads_of qs :
  NoDup (Dict.keys qs) → NoDup (Dict.keys (heads_of qs)).
Proof. intros H. eapply sublist_NoDup; [done|apply keys_heads_of_sublist]. Qed.

Lemma committed_related ps :
  related (λ _ p q, q = if alive p then commit p else p) ps (committed ps).
Proof.
  unfold committed. induction ps as [|[k p] ps IH]; simpl; by constructor.
Qed.

Lemma keys_committed ps : Dict.keys (committed ps) = Dict.keys ps.
Proof. apply (related_keys _ _ _ (committed_related ps)). Qed.

Lemma commit_alive p : alive (if alive p then commit p else p) = alive p.
Proof. destruct (alive p) eqn:Hp; [|done]. by destruct (commit_fields p) as (_ & -> & _). Qed.

Lemma heads_cover_committed ps :
  NoDup (Dict.keys ps) → bodies_nonempty ps →
  heads_cover (heads_of (committed ps)) (committed ps).
Proof.
  intros Hnd Hne. apply Forall_forall. intros [k q] Hin Hq. simpl in *.
  assert (Hget : Dict.get k (committed ps) = Some q).
  { apply elem_of_get; [by rewrite keys_committed|done]. }
  rewrite get_committed in Hget.
  destruct (Dict.get k ps) as [p|] eqn:Hp; [|done]. injection Hget as <-.
  rewrite commit_alive in Hq.
  apply get_elem_of in Hp as Hin'.
  eapply Forall_forall in Hne; [|done]. specialize (Hne Hq). simpl in Hne.
  destruct (commit_fields p) as (Hcb & Hca & _).
  destruct (body p) as [|[hx hy] tl] eqn:Hb; [done|].
  eexists. eapply get_heads_of.
  - by rewrite get_committed Hp.
  - by rewrite commit_alive.
  - rewrite Hq. unfold projected. by rewrite Hcb.
Qed.

(** ** The whole tick *)

Lemma fed_fields k p q :
  fed k p q →
  alive q = alive p ∧ body q = body p ∧ score q = score p ∧
  display_name q = display_name p ∧ dir q = dir p.
Proof. intros [_ [->| ->]]; done. Qed.

(** The tick before replenishment always resolves on a well-formed
    state, and every player comes out of it as [ticked] says. *)
Lemma resolve_tick_run st :
  well_formed st →
  let qs := committed (players st) in
  let nh := heads_of qs in
  ∃ qs2 v st1,
    resolve nh qs (verdict0 st) = Ok (qs2, v) ∧
    resolve_tick st = Ok st1 ∧
    food st1 = v_food v ∧ death_reasons st1 = v_reasons v ∧
    tick st1 = tick st ∧
    related (ticked nh v) (players st) (players st1).
Proof.
  intros [Hnd Hne] qs nh.
  pose proof (heads_cover_committed _ Hnd Hne) as Hcover.
  destruct (resolve_Ok nh qs (verdict0 st) Hcover) as (qs2 & v & Hres).
  pose proof (resolve_fed _ _ _ _ _ Hres) as Hfed.
  assert (Hcover2 : heads_cover nh qs2).
  { eapply heads_cover_related; [|done..]. intros k p q H. by apply fed_fields in H as [-> _]. }
  destruct (move_all_Ok nh v qs2 (list_to_set (v_food v)) Hcover2)
    as (qs3 & occ & Hmove & Hmoved).
  pose proof (clean_up_related (dead_snakes v) qs3 occ) as Hclean.
  destruct (clean_up (dead_snakes v) qs3 occ) as [qs4 occ'] eqn:Hcu.
  simpl in Hclean.
  exists qs2, v, {| players := qs4; food := v_food v; occupied := occ';
                   tick := tick st; death_reasons := v_reasons v |}.
  split; [done|]. split.
  { unfold resolve_tick. rewrite first_pass_Ok //. simpl.
    change (resolve _ _ _) with (resolve nh qs (verdict0 st)).
    rewrite Hres. simpl. rewrite Hmove. simpl. by rewrite Hcu. }
  split; [done|]. split; [done|]. split; [done|]. simpl.
  pose proof (related_trans _ _ _ _ _
    (related_trans _ _ _ _ _
       (related_trans _ _ _ _ _ (committed_related (players st)) Hfed) Hmoved)
    Hclean) as Hall.
  eapply related_impl; [|exact Hall]. clear.
  intros k p f (m & (r & (c & -> & Hfed) & Hmoved) & Hclean).
  apply fed_fields in Hfed as Hr. destruct Hr as (Har & Hbr & Hsr & Hnr & Hdr).
  unfold ticked, moved, cleaned in *. rewrite Har commit_alive in Hmoved.
  destruct (alive p) eqn:Hp.
  - destruct (commit_fields p) as (Hcb & Hca & Hcs & _ & Hcn & _).
    rewrite Hbr Hcb Hsr Hcs in Hmoved.
    case_bool_decide as Hdead.
    + subst m. destruct Hclean as [->|[_ ->]]; simpl;
        rewrite ?Hnr ?Hcn ?Hdr ?Hbr ?Hcb ?Hsr ?Hcs; done.
    + destruct Hmoved as (h & Hh & ->).
      destruct Hclean as [->|[Hin%elem_of_elements _]]; [|done].
      simpl. rewrite Hnr Hcn Hdr Har Hca Hp. split; [done|]. split; [done|].
      by exists h.
  - destruct Hfed as [Hf _]. specialize (Hf Hp). subst r m.
    destruct Hclean as [->|[_ ->]]; [done|]. by apply set_alive_dead.
Qed.

(** A completed [step] has the players and the death causes of the tick
    as resolved. *)
Lemma step_Ok fuel st g st' g' :
  step fuel st g = Ok (st', g') →
  ∃ st1, resolve_tick st = Ok st1 ∧ players st' = players st1 ∧
    death_reasons st' = death_reasons st1 ∧ (FOOD_COUNT ≤ length (food st'))%nat.
Proof.
  unfold step. destruct (resolve_tick st) as [st1| |]; simpl; try done.
  destruct (spawn_food fuel st1 g) as [[st2 g2]| |] eqn:Hsf; simpl; try done.
  intros [= <- <-]. apply spawn_food_Ok in Hsf as (? & ? & ? & ?).
  exists st1. by simpl.
Qed.

(** With room on the grid after the tick has resolved, [step] returns. *)
Lemma step_returns fuel st st1 g :
  resolve_tick st = Ok st1 → has_capacity st1 → (FOOD_COUNT ≤ fuel)%nat →
  ∃ st' g', step fuel st g = Ok (st', g').
Proof.
  intros Hr Hcap Hfuel. unfold step. rewrite Hr. simpl.
  destruct (spawn_food_returns fuel st1 g Hcap) as (st2 & g2 & -> & _); [lia|].
  simpl. by eexists _, _.
Qed.

Lemma head_of_player ps k p h :
  Dict.get k ps = Some p → alive p = true → projected (commit p) = Some h →
  Dict.get k (heads_of (committed ps)) = Some h ∧
  (k, commit p) ∈ committed ps ∧ alive (commit p) = true.
Proof.
  intros Hget Hp Hpr.
  assert (Hq : Dict.get k (committed ps) = Some (commit p)).
  { by rewrite get_committed Hget /= Hp. }
  destruct (commit_fields p) as (_ & Hca & _).
  split; [|split; [by apply get_elem_of|congruence]].
  eapply get_heads_of; [done|congruence|done].
Qed.

Lemma projected_player ps k p :
  bodies_nonempty ps → Dict.get k ps = Some p → alive p = true →
  ∃ h, projected (commit p) = Some h.
Proof.
  intros Hne Hin%get_elem_of Hp.
  eapply Forall_forall in Hne; [|done]. specialize (Hne Hp). simpl in Hne.
  unfold projected. destruct (commit_fields p) as (-> & _).
  destruct (body p) as [|[??] ?]; [done|]. eauto.
Qed.

(** Whoever has an entry in [new_heads] is an alive player of the state
    that projects it. *)
Lemma heads_of_player ps k h :
  NoDup (Dict.keys ps) → (k, h) ∈ heads_of (committed ps) →
  ∃ p, Dict.get k ps = Some p ∧ alive p = true ∧ projected (commit p) = Some h.
Proof.
  intros Hnd (q & Hin & Hq & Hpr)%elem_of_heads_of.
  apply elem_of_get in Hin; [|by rewrite keys_committed].
  rewrite get_committed in Hin.
  destruct (Dict.get k ps) as [p|]; [|done]. injection Hin as <-.
  rewrite commit_alive in Hq. rewrite Hq in Hpr. eauto.
Qed.

Lemma step_resolved fuel st st1 g st' g' :
  resolve_tick st = Ok st1 → step fuel st g = Ok (st', g') →
  players st' = players st1 ∧ death_reasons st' = death_reasons st1.
Proof.
  intros Hr (st1' & Hr' & Hp & Hd & _)%step_Ok.
  rewrite Hr in Hr'. injection Hr' as <-. done.
Qed.

(** ** Head-to-head collisions *)

Lemma head_collision_resolved st a b pa pb h :
  well_formed st →
  Dict.get a (players st) = Some pa → Dict.get b (players st) = Some pb →
  a ≠ b → alive pa = true → alive pb = true →
  projected (commit pa) = Some h → projected (commit pb) = Some h →
  ∃ st1, resolve_tick st = Ok st1 ∧ head_collided st1 a pa.
Proof.
  intros Hwf Ha Hb Hne Hpa Hpb Hha Hhb.
  destruct (resolve_tick_run st Hwf) as (qs2 & v & st1 & Hres & Htick & _ & Hdr & _ & Hrel).
  exists st1. split; [done|].
  destruct (head_of_player _ _ _ _ Ha Hpa Hha) as (Hga & Hina & Hca).
  destruct (head_of_player _ _ _ _ Hb Hpb Hhb) as (Hgb & _).
  assert (Hm : marked v a).
  { eapply resolve_clash; [done..|]. exists b. split; [done|by apply get_elem_of]. }
  destruct Hm as [Hdead Hreason].
  destruct (related_get _ _ _ _ _ Hrel Ha) as (q & Hq & Ht).
  unfold ticked in Ht. rewrite Hpa bool_decide_eq_true_2 // in Ht.
  destruct Ht as (_ & _ & Haq & Hbq & _).
  exists q. by rewrite Hdr.
Qed.

Lemma well_formed_perm ps st :
  ps ≡ₚ players st → well_formed st → well_formed (with_players ps st).
Proof.
  intros Hperm [Hnd Hne]. split; simpl.
  - unfold Dict.keys in *. by rewrite Hperm.
  - unfold bodies_nonempty in *. by rewrite Hperm.
Qed.

Lemma get_perm {V} k (d d' : list (pystr * V)) :
  d' ≡ₚ d → NoDup (Dict.keys d) → Dict.get k d' = Dict.get k d.
Proof.
  intros Hperm Hnd.
  assert (Hnd' : NoDup (Dict.keys d')) by (unfold Dict.keys in *; by rewrite Hperm).
  destruct (Dict.get k d) as [v|] eqn:Hd.
  - apply elem_of_get; [done|]. rewrite Hperm. by apply get_elem_of.
  - apply get_None_key. apply get_None_key in Hd.
    unfold Dict.keys in *. by rewrite Hperm.
Qed.

(** C2. When two distinct alive players project the same head cell, the
    tick resolves, whatever the order the players are iterated in, with
    both of them not alive, recorded dead of a "head_collision" and with
    the bodies they had; a completed [step] shows the same. Among more
    than two players with one projected head this holds of each pair,
    hence of all of them. *)
Theorem head_collision_kills_all st a b pa pb h :
  well_formed st →
  Dict.get a (players st) = Some pa → Dict.get b (players st) = Some pb →
  a ≠ b → alive pa = true → alive pb = true →
  projected (commit pa) = Some h → projected (commit pb) = Some h →
  ∀ ps, ps ≡ₚ players st →
    ∃ st1, resolve_tick (with_players ps st) = Ok st1 ∧
      head_collided st1 a pa ∧ head_collided st1 b pb ∧
      ∀ fuel g st' g', step fuel (with_players ps st) g = Ok (st', g') →
        head_collided st' a pa ∧ head_collided st' b pb.
Proof.
  intros Hwf Ha Hb Hne Hpa Hpb Hha Hhb ps Hperm.
  pose proof (well_formed_perm _ _ Hperm Hwf) as Hwf'.
  destruct Hwf as [Hnd _].
  assert (Ha' : Dict.get a (players (with_players ps st)) = Some pa).
  { simpl. by rewrite (get_perm _ _ _ Hperm Hnd). }
  assert (Hb' : Dict.get b (players (with_players ps st)) = Some pb).
  { simpl. by rewrite (get_perm _ _ _ Hperm Hnd). }
  destruct (head_collision_resolved _ a b pa pb h Hwf' Ha' Hb') as (st1 & Hr & Hca);
    [done..|].
  destruct (head_collision_resolved _ b a pb pa h Hwf' Hb' Ha') as (st1' & Hr' & Hcb);
    [done..|].
  assert (st1' = st1) as -> by congruence.
  exists st1. split; [done|]. split; [done|]. split; [done|].
  intros fuel g st' g' Hstep.
  destruct (step_resolved _ _ _ _ _ _ Hr Hstep) as [Hp Hd].
  unfold head_collided. by rewrite Hp Hd.
Qed.

(** ** Score *)

(** C6, as the code has it. Over a tick the score of a player never
    decreases. It increases by exactly 1 when the player is alive, its
    projected head lies on a food cell and no other alive player
    projects the same cell; it is unchanged when the player is not
    alive, when its projected head is on no food cell, and when another
    alive player projects the same cell (both then die, on food or not).
    A completed [step] leaves the player as the resolved tick has it. *)
Theorem score_counts_survived_meals st k p :
  well_formed st → Dict.get k (players st) = Some p →
  ∃ st1 q, resolve_tick st = Ok st1 ∧ Dict.get k (players st1) = Some q ∧
    (∀ fuel g st' g', step fuel st g = Ok (st', g') →
       Dict.get k (players st') = Some q) ∧
    score p ≤ score q ∧
    (alive p = false → score q = score p) ∧
    ∀ h, alive p = true → projected (commit p) = Some h →
      (h ∉ food st → score q = score p) ∧
      ((∃ k' p', k' ≠ k ∧ Dict.get k' (players st) = Some p' ∧
          alive p' = true ∧ projected (commit p') = Some h) →
       score q = score p ∧ alive q = false) ∧
      (h ∈ food st →
       (∀ k' p', Dict.get k' (players st) = Some p' → alive p' = true →
          projected (commit p') = Some h → k' = k) →
       score q = score p + 1 ∧ alive q = true).
Proof.
  intros Hwf Hget. pose proof Hwf as [Hnd Hne].
  destruct (resolve_tick_run st Hwf)
    as (qs2 & v & st1 & Hres & Htick & _ & _ & _ & Hrel).
  destruct (related_get _ _ _ _ _ Hrel Hget) as (q & Hq & Ht).
  exists st1, q. split; [done|]. split; [done|]. split.
  { intros fuel g st' g' Hstep.
    destruct (step_resolved _ _ _ _ _ _ Htick Hstep) as [-> _]. done. }
  unfold ticked in Ht. destruct (alive p) eqn:Hp; cycle 1.
  { subst q. split; [lia|]. split; [done|]. by intros. }
  destruct Ht as (_ & _ & Ht). split.
  { case_bool_decide; [destruct Ht as (_ & _ & ->); lia|].
    destruct Ht as (h & _ & _ & _ & ->). case_bool_decide; lia. }
  split; [done|]. intros h _ Hh.
  destruct (head_of_player _ _ _ _ Hget Hp Hh) as (Hgh & Hin & Hca).
  split; [|split].
  - intros Hnf.
    case_bool_decide; [by destruct Ht as (_ & _ & ->)|].
    destruct Ht as (h' & _ & _ & _ & ->).
    rewrite bool_decide_eq_false_2 //. intros Hg.
    destruct (resolve_grow_food _ _ _ _ _ Hres k h Hgh Hg) as [?%elem_of_nil|?];
      done.
  - intros (k' & p' & Hne' & Hget' & Hp' & Hh').
    destruct (head_of_player _ _ _ _ Hget' Hp' Hh') as (Hgh' & _).
    assert (Hm : marked v k).
    { eapply resolve_clash; [done..|]. exists k'. split; [done|by apply get_elem_of]. }
    destruct Hm as [Hdead _]. rewrite bool_decide_eq_true_2 // in Ht.
    by destruct Ht as (-> & _ & ->).
  - intros Hf Hsole.
    assert (Hs : sole (heads_of (committed (players st))) k h).
    { split; [done|]. intros k' (p' & Hg' & Hp' & Hh')%heads_of_player; [|done].
      eauto. }
    destruct (resolve_sole_eats _ k h _ _ _ _ Hres) as [Hg Hd].
    + by apply NoDup_keys_heads_of; rewrite keys_committed.
    + done.
    + by rewrite keys_committed.
    + eauto.
    + by intros ?%elem_of_empty.
    + done.
    + rewrite bool_decide_eq_false_2 // in Ht.
      destruct Ht as (h' & _ & -> & _ & ->). by rewrite bool_decide_eq_true_2.
Qed.

(** ** Bodies of distinct players *)

Lemma elem_of_removelast {A} (x : A) l : x ∈ removelast l → x ∈ l.
Proof.
  induction l as [|y [|z l] IH]; simpl; [done|by intros ?%elem_of_nil|].
  intros [->|?]%elem_of_cons; [left|right; auto].
Qed.

Lemma elem_of_moved_body c grows h b :
  c ∈ moved_body grows h b → c = h ∨ c ∈ b.
Proof.
  unfold moved_body. destruct grows; [by intros ?%elem_of_cons|].
  case_bool_decide; [|by intros ?%elem_of_cons].
  by intros ?%elem_of_removelast%elem_of_cons.
Qed.

Lemma temp_occupied_of_body ps fd k p c :
  (k, p) ∈ ps → alive p = true → c ∈ body p → c ∈ temp_occupied_of ps fd.
Proof.
  intros Hin Hp Hc. unfold temp_occupied_of.
  apply elem_of_union_l, elem_of_list_to_set, list_elem_of_bind.
  exists (k, p). by rewrite Hp.
Qed.

Lemma last_elem_of {A} (l : list A) x : last l = Some x → x ∈ l.
Proof.
  rewrite last_Some. intros [l' ->]. apply elem_of_app. right. left.
Qed.

(** A survivor of the tick was alive, is not among the dead of the
    verdict, and its body is its projected head on its old body. *)
Lemma ticked_survivor nh v k p q :
  ticked nh v k p q → alive q = true →
  alive p = true ∧ k ∉ dead_snakes v ∧
  ∃ h, Dict.get k nh = Some h ∧ ∀ c, c ∈ body q → c = h ∨ c ∈ body p.
Proof.
  unfold ticked. destruct (alive p) eqn:Hp; [|intros ->; congruence].
  intros (_ & _ & Ht) Hq. case_bool_decide as Hd.
  - destruct Ht as (? & _). congruence.
  - destruct Ht as (h & Hh & _ & -> & _). split; [done|]. split; [done|].
    exists h. split; [done|]. intros c. apply elem_of_moved_body.
Qed.

(** The projected head of a survivor is on no cell of the body another
    alive player had at the start of the tick. *)
Lemma survivor_head_clear st qs2 v k1 p1 k2 p2 h :
  well_formed st → alive_disjoint (players st) → food_clear st →
  resolve (heads_of (committed (players st))) (committed (players st))
    (verdict0 st) = Ok (qs2, v) →
  Dict.get k1 (players st) = Some p1 → Dict.get k2 (players st) = Some p2 →
  k1 ≠ k2 → alive p1 = true → alive p2 = true →
  Dict.get k1 (heads_of (committed (players st))) = Some h →
  k1 ∉ dead_snakes v → h ∉ body p2.
Proof.
  intros [Hnd Hne] Hdis Hfc Hres Hg1 Hg2 Hk Hp1 Hp2 Hh Hd Hin.
  destruct (projected_player _ _ _ Hne Hg1 Hp1) as [h' Hh'].
  destruct (head_of_player _ _ _ _ Hg1 Hp1 Hh') as (Hgh & Hin1 & Hca1).
  assert (h' = h) as -> by congruence.
  destruct (commit_fields p1) as (Hcb1 & _).
  assert (Hlast : last (body (commit p1)) = Some h).
  { eapply (resolve_survivor _ (food st)
             (temp_occupied_of (committed (players st)) (food st)));
      [exact Hres|done|done|exact Hin1|done..| |].
    - destruct (commit_fields p2) as (Hcb2 & Hca2 & _).
      apply (temp_occupied_of_body _ _ k2 (commit p2)); [|congruence..].
      apply get_elem_of. by rewrite get_committed Hg2 /= Hp2.
    - by eapply Hfc. }
  rewrite Hcb1 in Hlast. apply last_elem_of in Hlast.
  by eapply (Hdis k1 p1 k2 p2 h).
Qed.

(** C1, as the code has it. From a well-formed state in which the
    bodies of distinct alive players share no cell and no food lies
    under the body of an alive player, the tick resolves into a state in
    which the bodies of distinct alive players share no cell; so does
    every completed [step], and [step] completes when the grid has room
    for the missing food. *)
Theorem step_keeps_snakes_apart st :
  well_formed st → alive_disjoint (players st) → food_clear st →
  ∃ st1, resolve_tick st = Ok st1 ∧ alive_disjoint (players st1) ∧
    (∀ fuel g st' g', step fuel st g = Ok (st', g') →
       alive_disjoint (players st')) ∧
    (∀ fuel g, has_capacity st1 → (FOOD_COUNT ≤ fuel)%nat →
       ∃ st' g', step fuel st g = Ok (st', g')).
Proof.
  intros Hwf Hdis Hfc. pose proof Hwf as [Hnd Hne].
  destruct (resolve_tick_run st Hwf)
    as (qs2 & v & st1 & Hres & Htick & _ & _ & _ & Hrel).
  assert (Hdis1 : alive_disjoint (players st1)).
  { intros k1 q1 k2 q2 c Hq1 Hq2 Hk Ha1 Ha2 Hc1 Hc2.
    destruct (related_get_inv _ _ _ _ _ Hrel Hq1) as (p1 & Hg1 & Ht1).
    destruct (related_get_inv _ _ _ _ _ Hrel Hq2) as (p2 & Hg2 & Ht2).
    apply ticked_survivor in Ht1 as (Hp1 & Hd1 & h1 & Hh1 & Hb1); [|done].
    apply ticked_survivor in Ht2 as (Hp2 & Hd2 & h2 & Hh2 & Hb2); [|done].
    destruct (Hb1 c Hc1) as [Heq1|Hc1'], (Hb2 c Hc2) as [Heq2|Hc2'].
    - subst h1 h2. destruct (projected_player _ _ _ Hne Hg1 Hp1) as [h' Hh'].
      destruct (head_of_player _ _ _ _ Hg1 Hp1 Hh') as (Hgh & Hin1 & Hca1).
      assert (h' = c) as -> by congruence.
      assert (Hm : marked v k1).
      { eapply resolve_clash; [done..|]. exists k2.
        split; [done|by apply get_elem_of]. }
      by destruct Hm.
    - subst c. by eapply (survivor_head_clear st qs2 v k1 p1 k2 p2 h1).
    - subst c. by eapply (survivor_head_clear st qs2 v k2 p2 k1 p1 h2).
    - by eapply (Hdis k1 p1 k2 p2 c). }
  exists st1. split; [done|]. split; [done|]. split.
  - intros fuel g st' g' Hstep.
    by destruct (step_resolved _ _ _ _ _ _ Htick Hstep) as [-> _].
  - intros fuel g Hcap Hfuel. by eapply step_returns.
Qed.

(** ** Checks that compute, soundness *)

Lemma alive_disjoint_b_sound ps : alive_disjoint_b ps = true → alive_disjoint ps.
Proof.
  unfold alive_disjoint_b. rewrite forallb_forall.
  intros H k1 p1 k2 p2 c H1%get_elem_of H2%get_elem_of Hk Hp1 Hp2 Hc.
  apply list_elem_of_In in H1, H2. specialize (H _ H1). simpl in H.
  rewrite forallb_forall in H. specialize (H _ H2). simpl in H.
  rewrite Hp1 Hp2 bool_decide_eq_false_2 //= in H.
  rewrite forallb_forall in H. apply list_elem_of_In in Hc.
  specialize (H _ Hc). by apply bool_decide_eq_true in H.
Qed.

Lemma food_clear_b_sound st : food_clear_b st = true → food_clear st.
Proof.
  unfold food_clear_b. rewrite forallb_forall.
  intros H k p c Hg%get_elem_of Hp Hc. apply list_elem_of_In in Hg.
  specialize (H _ Hg). simpl in H. rewrite Hp /= forallb_forall in H.
  apply list_elem_of_In in Hc. specialize (H _ Hc).
  by apply bool_decide_eq_true in H.
Qed.

Lemma well_formed_decide st :
  bool_decide (NoDup (Dict.keys (players st))) &&
  forallb (λ kp : pystr * Player, negb (alive kp.2) || negb (bool_decide (body kp.2 = [])))
    (players st) = true →
  well_formed st.
Proof.
  intros [Hnd Hne]%andb_true_iff. split; [by apply bool_decide_eq_true in Hnd|].
  apply Forall_forall. intros kp Hin%list_elem_of_In Hp.
  rewrite forallb_forall in Hne. specialize (Hne _ Hin).
  rewrite Hp /= in Hne. apply negb_true_iff, bool_decide_eq_false in Hne. done.
Qed.

Ltac in_list :=
  repeat first [apply list_elem_of_here | apply list_elem_of_further].

Ltac run_computes :=
  eexists _, _; split; [vm_compute; reflexivity|].

(** ** Sample runs of the claims *)

(** C1, counterexample. After an admission by the fallback spawn onto
    the body of another player, a tick resolves with both players alive
    and the cell (9,5) in both bodies. *)
Lemma fallback_overlap_survives_tick :
  ∃ st g, overlap_run = Some (st, g) ∧
    alive <$> Dict.get alice (players st) = Some true ∧
    alive <$> Dict.get bob (players st) = Some true ∧
    body <$> Dict.get alice (players st) = Some [(11, 5); (10, 5); (9, 5)] ∧
    body <$> Dict.get bob (players st) = Some [(9, 6); (9, 5); (8, 5)] ∧
    ¬ alive_disjoint (players st).
Proof.
  run_computes. do 4 (split; [vm_compute; reflexivity|]).
  intros H. eapply (H alice _ bob _ (9, 5)).
  - vm_compute; reflexivity.
  - vm_compute; reflexivity.
  - by vm_compute.
  - reflexivity.
  - reflexivity.
  - simpl. in_list.
  - simpl. in_list.
Qed.

(** C4, at its failing input. A player whose projected head is its own
    tail cell, with food on that cell, is marked for growth and survives
    the tick, its body then through that cell twice; no death cause is
    recorded. The tail-vacate half of the claim is
    [body_check_tail_exempt]. *)
Lemma growing_onto_own_tail_survives :
  ∃ st g, tail_meal_run = Some (st, g) ∧
    alive <$> Dict.get alice (players st) = Some true ∧
    body <$> Dict.get alice (players st) = Some [(11, 6); (11, 5); (10, 5)] ∧
    (Dict.get alice (players st) ≫= λ p, projected (commit p)) = Some (10, 5) ∧
    (10, 5) ∈ food st ∧
    ∃ st' g', step 10 st g = Ok (st', g') ∧
      alive <$> Dict.get alice (players st') = Some true ∧
      score <$> Dict.get alice (players st') = Some 1 ∧
      body <$> Dict.get alice (players st')
        = Some [(10, 5); (11, 6); (11, 5); (10, 5)] ∧
      death_reasons st' !! alice = None.
Proof.
  run_computes. do 3 (split; [vm_compute; reflexivity|]).
  split; [simpl; in_list|].
  run_computes. do 3 (split; [vm_compute; reflexivity|]).
  vm_compute; reflexivity.
Qed.

(** The tail-vacate exemption: a player that does not grow and whose
    projected head is its own tail cell passes the check against the
    transient occupancy unchanged. *)
Lemma body_check_tail_exempt k p h v :
  last (body p) = Some h → k ∉ snakes_to_grow v → body_check k p h v = v.
Proof.
  intros Hl Hg. unfold body_check. case_bool_decide; [done|].
  rewrite Hl. rewrite (bool_decide_eq_true_2 (k ∉ snakes_to_grow v)) //.
  case_bool_decide as Hhit; [|done].
  destruct Hhit as [_ Hn]. destruct Hn. by apply elem_of_singleton.
Qed.

(** C5, at its failing input. The occupancy set is the union of the
    alive bodies and the food after [carol] is admitted on the cells of
    the dead [alice]; removing [alice] then takes the cells of [carol]
    out of the occupancy set, which is no longer that union. *)
Lemma remove_dead_player_frees_live_cells :
  ∃ st g, corpse_run = Some (st, g) ∧
    occupied st = occupancy_of st ∧
    alive <$> Dict.get alice (players st) = Some false ∧
    alive <$> Dict.get carol (players st) = Some true ∧
    (10, 5) ∈ occupancy_of (remove_player alice st) ∧
    (10, 5) ∉ occupied (remove_player alice st) ∧
    occupied (remove_player alice st) ≠ occupancy_of (remove_player alice st).
Proof.
  run_computes. do 3 (split; [vm_compute; reflexivity|]).
  assert (H1 : bool_decide ((10, 5) ∈ occupancy_of (remove_player alice
    (state_of_run corpse_run))) = true) by (vm_compute; reflexivity).
  assert (H2 : bool_decide ((10, 5) ∈ occupied (remove_player alice
    (state_of_run corpse_run))) = false) by (vm_compute; reflexivity).
  apply bool_decide_eq_true in H1. apply bool_decide_eq_false in H2.
  split; [exact H1|]. split; [exact H2|].
  intros Heq. apply H2. unfold state_of_run in *.
  change (corpse_run) with (Some (state_of_run corpse_run, rng_of_run corpse_run)) in *.
  cbv iota beta in *. by rewrite Heq.
Qed.

(** C6, counterexample. Two alive players project their heads onto the
    same food cell: the first of the dict takes the food and its
    [food_collected] goes up, both die, and its score stays 0. *)
Lemma meal_on_head_collision_scores_nothing :
  ∃ st g, shared_meal_run = Some (st, g) ∧
    alive <$> Dict.get alice (players st) = Some true ∧
    score <$> Dict.get alice (players st) = Some 0 ∧
    (Dict.get alice (players st) ≫= λ p, projected (commit p)) = Some (11, 5) ∧
    (11, 5) ∈ food st ∧
    ∃ st' g', step 10 st g = Ok (st', g') ∧
      score <$> Dict.get alice (players st') = Some 0 ∧
      food_collected <$> Dict.get alice (players st') = Some 1 ∧
      alive <$> Dict.get alice (players st') = Some false ∧
      (11, 5) ∉ food st'.
Proof.
  run_computes. do 3 (split; [vm_compute; reflexivity|]).
  split; [simpl; in_list|].
  run_computes. do 3 (split; [vm_compute; reflexivity|]).
  apply (bool_decide_unpack _). vm_compute. exact I.
Qed.


(** C9, at its failing input. [alice] was renamed to Bob and died; her
    [respawn] is accepted and re-adds her alive, with score 0 and the
    current tick as spawn tick, but under the display name "a" of her
    connection: the name she had is lost. *)
Lemma respawn_forgets_the_new_name :
  ∃ st g, renamed_run = Some (st, g) ∧
    alive <$> Dict.get alice (players st) = Some false ∧
    display_name <$> Dict.get alice (players st) = Some (py "Bob") ∧
    ∃ st' g', on_message alice 0%float respawn_message st g = Continue st' g' [] ∧
      alive <$> Dict.get alice (players st') = Some true ∧
      score <$> Dict.get alice (players st') = Some 0 ∧
      spawn_tick <$> Dict.get alice (players st') = Some (tick st) ∧
      display_name <$> Dict.get alice (players st') = Some (py "a").
Proof.
  run_computes. do 2 (split; [vm_compute; reflexivity|]).
  eexists _, _. split; [vm_compute; reflexivity|].
  do 3 (split; [vm_compute; reflexivity|]). vm_compute; reflexivity.
Qed.

(** ** The theorems at sample inputs *)

Lemma first_pass_commits_and_projects_witness :
  ∃ qs new_heads, first_pass edge_players = Ok (qs, new_heads) ∧
    dir <$> Dict.get alice qs = Some (1, 0) ∧
    Dict.get alice new_heads = Some (0, 5) ∧
    dir <$> Dict.get bob qs = Some (0, -1) ∧
    Dict.get bob new_heads = Some (30, 6).
Proof.
  destruct (first_pass_commits_and_projects edge_players alice
              (at_cell alice [(39, 5); (38, 5); (37, 5)] (1, 0) (1, 0)).2
              39 5 [(38, 5); (37, 5)])
    as (qs & nh & Hrun & Hdir & _ & Hedge);
    [by repeat constructor|reflexivity..|].
  destruct (first_pass_commits_and_projects edge_players bob
              (at_cell bob [(30, 7); (30, 8); (30, 9)] (0, -1) (0, 1)).2
              30 7 [(30, 8); (30, 9)])
    as (qs' & nh' & Hrun' & Hkept & Hhead & _);
    [by repeat constructor|reflexivity..|].
  rewrite Hrun in Hrun'. injection Hrun' as <- <-.
  exists qs, nh. split; [exact Hrun|]. split; [exact Hdir|].
  split; [apply Hedge; [reflexivity|reflexivity|unfold HEIGHT; lia]|].
  split; [exact Hkept|exact Hhead].
Defined.



Lemma well_formed_head_on : well_formed head_on.
Proof. apply well_formed_decide. vm_compute. reflexivity. Defined.

Lemma head_collision_kills_all_witness :
  ∃ st1, resolve_tick (with_players (reverse head_on_players) head_on) = Ok st1 ∧
    alive <$> Dict.get alice (players st1) = Some false ∧
    alive <$> Dict.get bob (players st1) = Some false ∧
    death_reasons st1 !! alice = Some (py "head_collision") ∧
    death_reasons st1 !! bob = Some (py "head_collision").
Proof.
  destruct (head_collision_kills_all head_on alice bob
              (at_cell alice [(5, 5); (4, 5); (3, 5)] (1, 0) (1, 0)).2
              (at_cell bob [(7, 5); (8, 5); (9, 5)] (-1, 0) (-1, 0)).2
              (6, 5) well_formed_head_on eq_refl eq_refl)
    with (ps := reverse head_on_players)
    as (st1 & Hrun & (pa & Ha & Haa & _ & Hra) & (pb & Hb & Hab & _ & Hrb) & _).
  - by vm_compute.
  - reflexivity.
  - reflexivity.
  - reflexivity.
  - reflexivity.
  - apply perm_swap.
  - exists st1. rewrite Ha Hb. simpl. rewrite Haa Hab. by repeat split.
Defined.

Lemma score_counts_survived_meals_witness :
  ∃ st1 q, resolve_tick meal = Ok st1 ∧
    Dict.get alice (players st1) = Some q ∧ score q = 1 ∧ alive q = true.
Proof.
  destruct (score_counts_survived_meals meal alice
              (at_cell alice [(5, 5); (4, 5); (3, 5)] (1, 0) (1, 0)).2)
    as (st1 & q & Hrun & Hq & _ & _ & _ & Hscore).
  - apply well_formed_decide. vm_compute. reflexivity.
  - reflexivity.
  - exists st1, q. split; [exact Hrun|]. split; [exact Hq|].
    destruct (Hscore (6, 5) eq_refl eq_refl) as (_ & _ & Hmeal).
    apply Hmeal.
    + simpl. in_list.
    + intros k' p'. simpl. case_decide; [done|discriminate].
Defined.

Lemma step_keeps_snakes_apart_witness :
  ∃ st1, resolve_tick edge_state = Ok st1 ∧ alive_disjoint (players st1) ∧
    ∃ st' g', step 10 edge_state (of_list []) = Ok (st', g').
Proof.
  destruct (step_keeps_snakes_apart edge_state) as (st1 & Hrun & Hdis & _ & Hret).
  - apply well_formed_decide. vm_compute. reflexivity.
  - apply alive_disjoint_b_sound. vm_compute. reflexivity.
  - apply food_clear_b_sound. vm_compute. reflexivity.
  - exists st1. split; [exact Hrun|]. split; [exact Hdis|].
    apply Hret.
    + assert (Hcap : match resolve_tick edge_state with
                     | Ok s =>
                         (size (occupied s) + (FOOD_COUNT - length (food s))
                          <=? Z.to_nat (WIDTH * HEIGHT))%nat = true
                     | _ => False
                     end).
      { vm_compute. reflexivity. }
      rewrite Hrun in Hcap. by apply Nat.leb_le in Hcap.
    + unfold FOOD_COUNT. lia.
Defined.

(** * Further properties *)

(** * Further properties of the code *)

(** ** Spatial utilities *)

Lemma clamp_pos_in_grid_aux x y : clamp_pos x y ∈ grid_cells.
Proof.
  unfold clamp_pos. apply elem_of_grid. unfold WIDTH, HEIGHT.
  pose proof (Z.mod_pos_bound x 40). pose proof (Z.mod_pos_bound y 30). lia.
Qed.

(** X1. [clamp_pos] maps every pair of integers, negative ones too, to
    the cell of the grid that differs from it by whole widths and
    heights; it leaves every cell of the grid where it is, so applying
    it twice is applying it once, and it does not tell coordinates apart
    that differ by whole widths and heights. *)
Theorem clamp_pos_wraps (x y a b : Z) :
  clamp_pos x y ∈ grid_cells ∧
  (∃ i j, clamp_pos x y = (x + i * WIDTH, y + j * HEIGHT)) ∧
  ((x, y) ∈ grid_cells → clamp_pos x y = (x, y)) ∧
  clamp_pos (clamp_pos x y).1 (clamp_pos x y).2 = clamp_pos x y ∧
  clamp_pos (x + a * WIDTH) (y + b * HEIGHT) = clamp_pos x y.
Proof.
  split; [apply clamp_pos_in_grid_aux|]. unfold clamp_pos. split; [|split; [|split]].
  - exists (- (x `div` WIDTH)), (- (y `div` HEIGHT)). unfold WIDTH, HEIGHT.
    f_equal; [pose proof (Z.div_mod x 40)|pose proof (Z.div_mod y 30)]; lia.
  - intros [Hx Hy]%elem_of_grid. by rewrite !Z.mod_small.
  - simpl. by rewrite !Z.mod_mod.
  - by rewrite !Z.mod_add.
Qed.

Lemma randint_pair_grid g x g1 y g2 :
  randint 0 (WIDTH - 1) g = (x, g1) → randint 0 (HEIGHT - 1) g1 = (y, g2) →
  (x, y) ∈ grid_cells.
Proof.
  intros Hx Hy. apply elem_of_grid.
  pose proof (randint_range 0 (WIDTH - 1) g) as H1.
  pose proof (randint_range 0 (HEIGHT - 1) g1) as H2.
  rewrite Hx in H1. rewrite Hy in H2. unfold WIDTH, HEIGHT in *.
  simpl in *. lia.
Qed.

Lemma probe_grid n occ g c : (probe n occ g).1 = Some c → c ∈ grid_cells.
Proof.
  revert g. induction n as [|n IH]; intros g; [done|].
  simpl. unfold mbind, rand_bind.
  destruct (randint 0 (WIDTH - 1) g) as [x g1] eqn:Hx.
  destruct (randint 0 (HEIGHT - 1) g1) as [y g2] eqn:Hy.
  case_bool_decide; [|apply IH]. intros [= <-].
  by eapply randint_pair_grid.
Qed.

Lemma find_empty_position_grid occ g :
  (find_empty_position occ g).1 ∈ grid_cells.
Proof.
  unfold find_empty_position, mbind, rand_bind.
  destruct (probe 100 occ g) as [[c|] g1] eqn:Hp.
  - apply (probe_grid 100 occ g). by rewrite Hp.
  - destruct (find _ grid_cells) as [c|] eqn:Hf.
    + apply find_some in Hf as [Hin _]. by apply list_elem_of_In.
    + destruct (randint 0 (WIDTH - 1) g1) as [x g2] eqn:Hx.
      destruct (randint 0 (HEIGHT - 1) g2) as [y g3] eqn:Hy.
      by eapply randint_pair_grid.
Qed.

(** X2. [find_empty_position] always answers a cell of the grid, and an
    occupied one only when every cell of the grid is occupied. *)
Theorem find_empty_position_spec (occ : gset cell) (g : rng) :
  (find_empty_position occ g).1 ∈ grid_cells ∧
  ((find_empty_position occ g).1 ∈ occ ↔ grid_full occ).
Proof.
  split; [apply find_empty_position_grid|]. split.
  - intros Hin.
    destruct (Forall_Exists_dec (λ c, c ∈ occ) (λ c, c ∉ occ)
                (λ c, decide (c ∈ occ)) grid_cells) as [Hall|Hex].
    + intros c Hc. by eapply Forall_forall in Hall.
    + apply Exists_exists in Hex as (c & Hc & Hfree).
      by destruct (find_empty_position_free occ g c Hc Hfree).
  - apply find_empty_position_full.
Qed.

(** ** Food *)

Lemma spawn_food_adds fuel st g st' g' :
  spawn_food fuel st g = Ok (st', g') →
  ∃ new, food st' = food st ++ new ∧
    occupied st' = list_to_set new ∪ occupied st ∧
    NoDup new ∧
    (∀ c, c ∈ new → c ∉ occupied st ∧ c ∈ grid_cells) ∧
    length (food st') = (length (food st) `max` FOOD_COUNT)%nat.
Proof.
  revert st g. induction fuel as [|fuel IH]; intros st g; simpl.
  - case_bool_decide; [done|]. intros [= <- <-]. exists [].
    rewrite app_nil_r. split_and!; [done|set_solver|constructor| |lia].
    by intros c ?%elem_of_nil.
  - case_bool_decide as Hlen; cycle 1.
    { intros [= <- <-]. exists []. rewrite app_nil_r.
      split_and!; [done|set_solver|constructor| |lia].
      by intros c ?%elem_of_nil. }
    pose proof (find_empty_position_grid (occupied st) g) as Hgrid.
    destruct (find_empty_position (occupied st) g) as [c g1]. simpl in Hgrid.
    case_bool_decide as Hfree.
    + intros (new & Hf & Ho & Hnd & Hnew & Hl)%IH. simpl in *.
      exists (c :: new). split_and!.
      * by rewrite Hf -assoc.
      * rewrite Ho. set_solver.
      * constructor; [|done]. intros Hin. apply Hnew in Hin as [Hn _].
        set_solver.
      * intros c' [->|Hin]%elem_of_cons; [done|].
        apply Hnew in Hin as [Hn ?]. split; [set_solver|done].
      * rewrite Hl length_app /=. lia.
    + apply IH.
Qed.

(** X3. Food never spawns on an occupied cell: when [spawn_food]
    returns, the food list is the old one followed by new cells that are
    distinct, on the grid and were not occupied before, exactly these
    cells joined the occupancy set, the list is topped up to
    [FOOD_COUNT] (or left as long as it was, if it was longer), and the
    players, the tick and the death causes are untouched. *)
Theorem spawn_food_places_food_on_free_cells fuel st g st' g' :
  spawn_food fuel st g = Ok (st', g') →
  ∃ new, food st' = food st ++ new ∧
    occupied st' = list_to_set new ∪ occupied st ∧
    NoDup new ∧
    (∀ c, c ∈ new → c ∉ occupied st ∧ c ∈ grid_cells) ∧
    length (food st') = (length (food st) `max` FOOD_COUNT)%nat ∧
    players st' = players st ∧ tick st' = tick st ∧
    death_reasons st' = death_reasons st.
Proof.
  intros Hrun.
  destruct (spawn_food_adds _ _ _ _ _ Hrun) as (new & ? & ? & ? & ? & ?).
  destruct (spawn_food_Ok _ _ _ _ _ Hrun) as (? & ? & ? & _).
  exists new. by split_and!.
Qed.

(** X4. With room on the grid for the missing items and at least as much
    fuel as items are missing, [spawn_food] returns and the food list
    then has [FOOD_COUNT] items, or as many as it had if it had more. *)
Theorem spawn_food_tops_up fuel st g :
  has_capacity st → (FOOD_COUNT - length (food st) ≤ fuel)%nat →
  ∃ st' g', spawn_food fuel st g = Ok (st', g') ∧
    length (food st') = (length (food st) `max` FOOD_COUNT)%nat.
Proof.
  intros Hcap Hfuel.
  destruct (spawn_food_returns fuel st g Hcap Hfuel) as (st' & g' & ? & _ & _ & _ & ?).
  by exists st', g'.
Qed.

(** X5. The startup of the application: from the initial state
    [spawn_food] returns for every random source, with exactly
    [FOOD_COUNT] distinct food cells, all on the grid, and these cells
    as the whole occupancy set. *)
Theorem startup_spawns_the_food fuel g :
  (FOOD_COUNT ≤ fuel)%nat →
  ∃ st' g', spawn_food fuel init g = Ok (st', g') ∧
    length (food st') = FOOD_COUNT ∧ NoDup (food st') ∧
    (∀ c, c ∈ food st' → c ∈ grid_cells) ∧
    occupied st' = list_to_set (food st') ∧ players st' = [].
Proof.
  intros Hfuel.
  destruct (spawn_food_returns fuel init g) as (st' & g' & Hrun & _);
    [unfold has_capacity, init; cbn [occupied food length];
     rewrite size_empty; apply Nat.leb_le; by vm_compute
    |unfold FOOD_COUNT in *; simpl; lia|].
  exists st', g'. split; [done|].
  destruct (spawn_food_adds _ _ _ _ _ Hrun) as (new & Hf & Ho & Hnd & Hnew & Hl).
  destruct (spawn_food_Ok _ _ _ _ _ Hrun) as (Hp & _).
  simpl in *. subst. split_and!; try done.
  - intros c Hc. by apply Hnew.
  - rewrite Ho. set_solver.
Qed.

(** ** Dictionaries: assignment and deletion *)

Lemma get_set {V} k k' (v : V) d :
  Dict.get k' (Dict.set k v d) = if decide (k = k') then Some v else Dict.get k' d.
Proof.
  induction d as [|[k0 v0] d IH]; simpl.
  - by destruct (decide (k = k')).
  - destruct (decide (k0 = k)) as [->|Hne]; simpl.
    + by destruct (decide (k = k')).
    + destruct (decide (k0 = k')) as [->|?]; [|apply IH].
      by destruct (decide (k = k')).
Qed.

Lemma keys_set {V} k (v : V) d :
  Dict.keys (Dict.set k v d) =
  if decide (k ∈ Dict.keys d) then Dict.keys d else Dict.keys d ++ [k].
Proof.
  unfold Dict.keys. induction d as [|[k0 v0] d IH]; csimpl.
  - done.
  - destruct (decide (k0 = k)) as [->|Hne]; csimpl.
    + clear IH. case_decide as H; [done|]. destruct H. left.
    + rewrite IH. clear IH. destruct (decide (k ∈ d.*1)) as [Hin|Hnin].
      * case_decide as H; [done|]. destruct H. by right.
      * case_decide as H; [|done]. by apply elem_of_cons in H as [?|?].
Qed.

Lemma get_del_ne {V} k k' (d : list (pystr * V)) :
  k ≠ k' → Dict.get k' (Dict.del k d) = Dict.get k' d.
Proof.
  intros Hne. induction d as [|[k0 v0] d IH]; simpl; [done|].
  destruct (decide (k0 = k)) as [->|?]; simpl.
  - by rewrite decide_False.
  - by rewrite IH.
Qed.

Lemma keys_del {V} k (d : list (pystr * V)) :
  NoDup (Dict.keys d) →
  k ∉ Dict.keys (Dict.del k d) ∧ NoDup (Dict.keys (Dict.del k d)) ∧
  ∀ k', k' ∈ Dict.keys (Dict.del k d) ↔ k' ≠ k ∧ k' ∈ Dict.keys d.
Proof.
  unfold Dict.keys. induction d as [|[k0 v0] d IH]; simpl.
  - intros _. split_and!; [by intros ?%elem_of_nil|constructor|].
    intros k'. split; [by intros ?%elem_of_nil|by intros [_ ?%elem_of_nil]].
  - intros [Hnin Hnd]%NoDup_cons. destruct (IH Hnd) as (H1 & H2 & H3).
    destruct (decide (k0 = k)) as [->|Hne]; simpl.
    + split_and!; [done..|]. intros k'. rewrite elem_of_cons. split.
      * intros Hin. split; [by intros ->|by right].
      * by intros [? [?|?]].
    + split_and!.
      * by intros [?|?]%elem_of_cons.
      * constructor; [|done]. rewrite H3. by intros [_ ?].
      * intros k'. rewrite !elem_of_cons H3. naive_solver.
Qed.

Lemma del_absent {V} k (d : list (pystr * V)) :
  k ∉ Dict.keys d → Dict.del k d = d.
Proof.
  unfold Dict.keys. induction d as [|[k0 v0] d IH]; simpl; [done|].
  intros [Hne Hnin]%not_elem_of_cons. rewrite decide_False; [|done].
  by rewrite IH.
Qed.

Lemma del_set_fresh {V} k (v : V) d :
  k ∉ Dict.keys d → Dict.del k (Dict.set k v d) = d.
Proof.
  unfold Dict.keys. induction d as [|[k0 v0] d IH]; simpl.
  - by rewrite decide_True.
  - intros [Hne Hnin]%not_elem_of_cons. rewrite decide_False; [|done].
    simpl. rewrite decide_False; [|done]. by rewrite IH.
Qed.

(** ** Spawning *)

Lemma spawn_body_grid x y c :
  (x, y) ∈ grid_cells → c ∈ spawn_body x y → c ∈ grid_cells.
Proof.
  intros [Hx Hy]%elem_of_grid. unfold spawn_body.
  intros [->|[->|[->|?%elem_of_nil]%elem_of_cons]%elem_of_cons]%elem_of_cons;
    [| | |done]; apply elem_of_grid; (split; [|done]);
    try done; unfold WIDTH in *.
  - pose proof (Z.mod_pos_bound (x - 1) 40). lia.
  - pose proof (Z.mod_pos_bound (x - 2) 40). lia.
Qed.

Lemma try_body_Some x y occ b :
  0 ≤ x < WIDTH →
  try_body START_LENGTH 0 x y occ = Some b →
  b = spawn_body x y ∧ ∀ c, c ∈ b → c ∉ occ.
Proof.
  intros Hx. unfold START_LENGTH, spawn_body. simpl.
  rewrite Z.sub_0_r (Z.mod_small x) //.
  case_bool_decide as H0; [done|].
  case_bool_decide as H1; [done|].
  case_bool_decide as H2; [done|]. simpl. intros [= <-]. split; [done|].
  intros c [->|[->|[->|?%elem_of_nil]%elem_of_cons]%elem_of_cons]%elem_of_cons;
    done.
Qed.

Lemma attempts_Some n occ g b :
  (attempts n occ g).1 = Some b →
  ∃ x y, 5 ≤ x ≤ 34 ∧ 2 ≤ y ≤ 27 ∧ b = spawn_body x y ∧ ∀ c, c ∈ b → c ∉ occ.
Proof.
  revert g. induction n as [|n IH]; intros g; [done|].
  cbn [attempts]. unfold mbind, rand_bind.
  pose proof (randint_range (Z.of_nat START_LENGTH + 2)
                (WIDTH - Z.of_nat START_LENGTH - 3) g) as Hx.
  destruct (randint _ _ g) as [x g1].
  pose proof (randint_range 2 (HEIGHT - 3) g1) as Hy.
  destruct (randint 2 _ g1) as [y g2].
  unfold START_LENGTH, WIDTH, HEIGHT in Hx, Hy. simpl in Hx, Hy.
  destruct (try_body START_LENGTH 0 x y occ) as [b'|] eqn:Hb; [|apply IH].
  cbn. intros [= <-].
  apply try_body_Some in Hb as [-> Hfree]; [|unfold WIDTH; lia].
  exists x, y. split; [lia|]. split; [lia|]. done.
Qed.

Lemma spawn_spec pid name b now st g :
  let st' := (spawn pid name b now st g).1 in
  ∃ hue, 0 ≤ hue ≤ 360 ∧
    Dict.get pid (players st') = Some (new_player pid name b hue now (tick st)) ∧
    (∀ k, k ≠ pid → Dict.get k (players st') = Dict.get k (players st)) ∧
    Dict.keys (players st')
      = (if decide (pid ∈ Dict.keys (players st)) then Dict.keys (players st)
         else Dict.keys (players st) ++ [pid]) ∧
    occupied st' = list_to_set b ∪ occupied st ∧
    food st' = food st ∧ tick st' = tick st ∧
    death_reasons st' = death_reasons st.
Proof.
  unfold spawn, mbind, rand_bind.
  pose proof (randint_range 0 360 g) as Hh.
  destruct (randint 0 360 g) as [hue g1]. simpl in *.
  exists hue. split; [lia|]. split; [by rewrite get_set decide_True|].
  split; [by intros k Hk; rewrite get_set decide_False|].
  split; [apply keys_set|done].
Qed.

Lemma add_player_cases pid name now st g :
  ∃ x y g1, (x, y) ∈ grid_cells ∧
    add_player pid name now st g
      = spawn pid (default pid name) (spawn_body x y) now st g1 ∧
    ((attempts 100 (occupied st) g).1 ≠ None →
     5 ≤ x ≤ 34 ∧ 2 ≤ y ≤ 27 ∧ ∀ c, c ∈ spawn_body x y → c ∉ occupied st).
Proof.
  unfold add_player, mbind, rand_bind.
  destruct (attempts 100 (occupied st) g) as [[b|] g1] eqn:Ha.
  - destruct (attempts_Some 100 (occupied st) g b) as (x & y & Hx & Hy & -> & Hfree);
      [by rewrite Ha|].
    exists x, y, g1. split; [apply elem_of_grid; unfold WIDTH, HEIGHT; lia|].
    split; [done|]. by intros _.
  - destruct (randint 0 (WIDTH - 1) g1) as [x g2] eqn:Hx.
    destruct (randint 0 (HEIGHT - 1) g2) as [y g3] eqn:Hy.
    exists x, y, g3. split; [by eapply randint_pair_grid|].
    split; [done|]. by intros [].
Qed.

(** X6. [add_player] always leaves the identity mapped to a new player
    that is alive, has score 0 and no food collected, moves right, was
    spawned at the current tick and has a body of [START_LENGTH] cells
    on one row of the grid, extending left from its head with
    wrap-around; its cells join the occupancy set, and every other
    player, the food, the tick and the death causes are as before. *)
Theorem add_player_spawns pid name now st g :
  let st' := (add_player pid name now st g).1 in
  ∃ x y hue, (x, y) ∈ grid_cells ∧ 0 ≤ hue ≤ 360 ∧
    Dict.get pid (players st')
      = Some (new_player pid (default pid name) (spawn_body x y) hue now (tick st)) ∧
    (∀ c, c ∈ spawn_body x y → c ∈ grid_cells) ∧
    (∀ k, k ≠ pid → Dict.get k (players st') = Dict.get k (players st)) ∧
    occupied st' = list_to_set (spawn_body x y) ∪ occupied st ∧
    food st' = food st ∧ tick st' = tick st ∧
    death_reasons st' = death_reasons st.
Proof.
  destruct (add_player_cases pid name now st g) as (x & y & g1 & Hg & -> & _).
  destruct (spawn_spec pid (default pid name) (spawn_body x y) now st g1)
    as (hue & Hh & Hget & Hothers & _ & Hocc & Hrest).
  destruct Hrest as (? & ? & ?).
  exists x, y, hue. split; [done|]. split; [done|]. split; [done|].
  split; [intros c; by apply spawn_body_grid|]. done.
Qed.

(** X7. Safe spawning: unless all hundred attempts of [add_player] were
    refused, the new body lies on cells that were not occupied, its head
    at least five columns and two rows away from the edges of the board,
    so that the body extends left of the head without wrapping. *)
Theorem add_player_safe_unless_fallback pid name now st g :
  (attempts 100 (occupied st) g).1 ≠ None →
  ∃ x y p, Dict.get pid (players (add_player pid name now st g).1) = Some p ∧
    body p = [(x, y); (x - 1, y); (x - 2, y)] ∧
    5 ≤ x ≤ 34 ∧ 2 ≤ y ≤ 27 ∧
    ∀ c, c ∈ body p → c ∉ occupied st.
Proof.
  intros Hok.
  destruct (add_player_cases pid name now st g) as (x & y & g1 & Hg & -> & Hsafe).
  destruct (Hsafe Hok) as (Hx & Hy & Hfree).
  destruct (spawn_spec pid (default pid name) (spawn_body x y) now st g1)
    as (hue & _ & Hget & _).
  eexists x, y, _. split; [exact Hget|]. simpl. split; [|done].
  unfold spawn_body, WIDTH. rewrite !Z.mod_small //; lia.
Qed.

(** X8. [add_player] keeps the order of the players: an identity that
    exists is overwritten where it stands, a new one goes last; distinct
    keys stay distinct. *)
Theorem add_player_keys pid name now st g :
  let st' := (add_player pid name now st g).1 in
  Dict.keys (players st')
    = (if decide (pid ∈ Dict.keys (players st)) then Dict.keys (players st)
       else Dict.keys (players st) ++ [pid]) ∧
  (NoDup (Dict.keys (players st)) → NoDup (Dict.keys (players st'))).
Proof.
  destruct (add_player_cases pid name now st g) as (x & y & g1 & _ & -> & _).
  destruct (spawn_spec pid (default pid name) (spawn_body x y) now st g1)
    as (hue & _ & _ & _ & Hkeys & _).
  cbv zeta in *. rewrite Hkeys. split; [done|]. intros Hnd.
  case_decide as Hin; [done|]. apply NoDup_app. split; [done|].
  split; [|apply NoDup_singleton]. by intros k Hk ->%list_elem_of_singleton.
Qed.

(** ** Removal *)

(** X9. [remove_player] does nothing for an unknown identity. For a
    known one (keys distinct) the identity is gone afterwards together
    with its death cause and the occupancy set loses exactly the cells
    of the removed body. In both cases every other player and death
    cause is as before, the food and the tick are untouched, and
    removing the identity once more changes nothing. *)
Theorem remove_player_spec pid st :
  NoDup (Dict.keys (players st)) →
  let st' := remove_player pid st in
  (Dict.get pid (players st) = None → st' = st) ∧
  (∀ p, Dict.get pid (players st) = Some p →
     occupied st' = occupied st ∖ list_to_set (body p) ∧
     death_reasons st' !! pid = None) ∧
  Dict.get pid (players st') = None ∧
  (∀ k, k ≠ pid → Dict.get k (players st') = Dict.get k (players st) ∧
                  death_reasons st' !! k = death_reasons st !! k) ∧
  food st' = food st ∧ tick st' = tick st ∧
  remove_player pid st' = st'.
Proof.
  intros Hnd st'. subst st'. unfold remove_player.
  destruct (Dict.get pid (players st)) as [p|] eqn:Hp; simpl.
  - destruct (keys_del pid (players st) Hnd) as (Hgone & _).
    apply get_None_key in Hgone. rewrite Hgone.
    split; [done|]. split.
    { intros p' [= ->]. split; [done|]. apply lookup_delete_eq. }
    split; [done|]. split; [|done].
    intros k Hk. by rewrite get_del_ne // lookup_delete_ne.
  - rewrite Hp. split; [done|]. split; [done|]. split; [done|]. done.
Qed.

(** X10. Round trip: a player admitted under a new identity by a safe
    spawn and removed again leaves the game state exactly as it was
    (given no death cause was recorded under that identity). *)
Theorem add_then_remove_restores pid name now st g :
  pid ∉ Dict.keys (players st) →
  death_reasons st !! pid = None →
  (attempts 100 (occupied st) g).1 ≠ None →
  remove_player pid (add_player pid name now st g).1 = st.
Proof.
  intros Hfresh Hdr Hok.
  destruct (add_player_cases pid name now st g) as (x & y & g1 & Hg & -> & Hsafe).
  destruct (Hsafe Hok) as (_ & _ & Hfree).
  assert (Hdisj : (list_to_set (spawn_body x y) ∪ occupied st)
                    ∖ list_to_set (spawn_body x y) = occupied st).
  { apply set_eq. intros c. rewrite elem_of_difference elem_of_union.
    split; [by intros [[?|?] ?]|]. intros Hc. split; [by right|].
    intros Hin%elem_of_list_to_set. by apply Hfree in Hin. }
  unfold spawn, mbind, rand_bind. destruct (randint 0 360 g1) as [hue g2].
  unfold remove_player. cbn [fst players mret rand_ret].
  rewrite get_set decide_True //. cbn [body new_player occupied food tick death_reasons players].
  rewrite del_set_fresh // Hdisj delete_id //. by destruct st.
Qed.

(** ** The tick, phase by phase *)

Lemma resolve_tick_chain st :
  well_formed st →
  let qs := committed (players st) in
  let nh := heads_of qs in
  ∃ qs2 v qs3 occ,
    resolve nh qs (verdict0 st) = Ok (qs2, v) ∧
    related fed qs qs2 ∧
    move_all nh v qs2 (list_to_set (v_food v)) = Ok (qs3, occ) ∧
    related (moved nh v) qs2 qs3 ∧
    related (cleaned (elements (dead_snakes v))) qs3
      (clean_up (dead_snakes v) qs3 occ).1 ∧
    resolve_tick st
      = Ok {| players := (clean_up (dead_snakes v) qs3 occ).1;
              food := v_food v;
              occupied := (clean_up (dead_snakes v) qs3 occ).2;
              tick := tick st; death_reasons := v_reasons v |}.
Proof.
  intros [Hnd Hne] qs nh.
  pose proof (heads_cover_committed _ Hnd Hne) as Hcover.
  destruct (resolve_Ok nh qs (verdict0 st) Hcover) as (qs2 & v & Hres).
  pose proof (resolve_fed _ _ _ _ _ Hres) as Hfed.
  assert (Hcover2 : heads_cover nh qs2).
  { eapply heads_cover_related; [|done..].
    intros k p q H. by apply fed_fields in H as [-> _]. }
  destruct (move_all_Ok nh v qs2 (list_to_set (v_food v)) Hcover2)
    as (qs3 & occ & Hmove & Hmoved).
  exists qs2, v, qs3, occ. split_and!; try done.
  - apply clean_up_related.
  - unfold resolve_tick. rewrite first_pass_Ok //. simpl.
    change (resolve _ _ _) with (resolve nh qs (verdict0 st)).
    rewrite Hres. simpl. rewrite Hmove. simpl.
    by destruct (clean_up (dead_snakes v) qs3 occ).
Qed.

Lemma framed_refl p : framed p p.
Proof. unfold framed. split_and!; auto; lia. Qed.

Lemma commit_framed p : framed p (commit p).
Proof.
  unfold commit. case_bool_decide; [|apply framed_refl].
  unfold framed. simpl. split_and!; auto; lia.
Qed.

(** The players of a resolved tick, each against the player it was. *)
Lemma resolve_tick_framed st st1 :
  well_formed st → resolve_tick st = Ok st1 →
  related (λ _ p q, framed p q ∧ (alive p = false → q = p) ∧
                    (alive q = true → alive p = true))
    (players st) (players st1).
Proof.
  intros Hwf Hrun.
  destruct (resolve_tick_chain st Hwf)
    as (qs2 & v & qs3 & occ & _ & Hfed & _ & Hmoved & Hclean & Hrun').
  rewrite Hrun in Hrun'. injection Hrun' as ->. simpl.
  pose proof (related_trans _ _ _ _ _
    (related_trans _ _ _ _ _
       (related_trans _ _ _ _ _ (committed_related (players st)) Hfed) Hmoved)
    Hclean) as Hall.
  eapply related_impl; [|exact Hall]. clear.
  intros k p f (m & (r & (c & -> & Hfed) & Hmoved) & Hclean).
  assert (Hc : framed p (if alive p then commit p else p)).
  { destruct (alive p); [apply commit_framed|apply framed_refl]. }
  pose proof (commit_alive p) as Hca.
  assert (Hcf : food_collected (if alive p then commit p else p)
                = food_collected p).
  { destruct (alive p); [|done]. by destruct (commit_fields p) as (_&_&_&_&_&?). }
  set (c := if alive p then commit p else p) in *.
  assert (Hr : framed p r ∧ alive r = alive p ∧ (alive p = false → r = p)).
  { destruct Hfed as [Hdead [->| ->]].
    - split; [done|]. split; [done|]. intros Hp. subst c. by rewrite Hp.
    - split; [|split; [done|]].
      + unfold framed in *. simpl. destruct Hc as (?&?&?&?&?&?&?&?).
        rewrite Hcf. split_and!; auto; lia.
      + intros Hp. rewrite -Hca in Hp. specialize (Hdead Hp). subst c.
        rewrite Hdead. rewrite Hca in Hp. by rewrite Hp. }
  destruct Hr as (Hfr & Har & Hrp).
  assert (Hm : framed p m ∧ (alive p = false → m = p) ∧
               (alive m = true → alive p = true)).
  { unfold moved in Hmoved. rewrite Har in Hmoved.
    destruct (alive p) eqn:Hp.
    - case_bool_decide.
      + subst m. split; [|split; [done|done]].
        unfold framed in *. by simpl.
      + destruct Hmoved as (h & _ & ->). split; [|split; [done|done]].
        unfold framed in *. by simpl.
    - subst m. split; [done|]. split; [auto|]. rewrite Har. done. }
  destruct Hm as (Hfm & Hmp & Hma).
  destruct Hclean as [->|[_ ->]]; [done|].
  split; [unfold framed in *; by simpl|]. split; [|done].
  intros Hp. rewrite (Hmp Hp). apply set_alive_dead. done.
Qed.

(** X11. A completed [step] advances the tick by one and neither adds
    nor removes a player nor reorders them. Of each player it leaves the
    identity, the display name, the pending direction, the color, the
    time of the last input and the spawn tick as they were; the
    direction is the old one or the pending one, and at most one more
    food item is collected. A player that was not alive is not changed
    at all, and none comes back to life. *)
Theorem step_frame fuel st g st' g' :
  well_formed st → step fuel st g = Ok (st', g') →
  tick st' = tick st + 1 ∧
  Dict.keys (players st') = Dict.keys (players st) ∧
  ∀ k p, Dict.get k (players st) = Some p →
    ∃ q, Dict.get k (players st') = Some q ∧ framed p q ∧
      (alive p = false → q = p) ∧ (alive q = true → alive p = true).
Proof.
  intros Hwf Hstep. unfold step in Hstep.
  destruct (resolve_tick st) as [st1| |] eqn:Hrun; simpl in Hstep; try done.
  destruct (spawn_food fuel st1 g) as [[st2 g2]| |] eqn:Hsf; simpl in Hstep;
    try done.
  injection Hstep as <- <-. simpl.
  apply spawn_food_Ok in Hsf as (Hp & Ht & _).
  pose proof (resolve_tick_framed st st1 Hwf Hrun) as Hrel.
  destruct (resolve_tick_chain st Hwf) as (?&?&?&?&_&_&_&_&_& Hrun').
  rewrite Hrun in Hrun'. injection Hrun' as Hst1.
  split; [rewrite Ht Hst1; simpl; done|].
  rewrite Hp. split; [by apply related_keys in Hrel|].
  intros k p Hget. by eapply related_get in Hrel.
Qed.

(** ** Death causes *)

Lemma accounted_kill dr v x r :
  r ∈ death_causes → accounted dr v → accounted dr (kill x r v).
Proof.
  intros Hr [H1 H2]. split; simpl.
  - intros y [->%elem_of_singleton|Hy]%elem_of_union.
    + exists r. by rewrite lookup_insert_eq.
    + destruct (decide (x = y)) as [->|Hne].
      * exists r. by rewrite lookup_insert_eq.
      * rewrite lookup_insert_ne //. auto.
  - intros y Hy. apply not_elem_of_union in Hy as [Hne%not_elem_of_singleton Hy].
    rewrite lookup_insert_ne //. auto.
Qed.

Lemma accounted_head_to_head dr k h nh v :
  accounted dr v → accounted dr (head_to_head k h nh v).
Proof.
  unfold head_to_head. revert v.
  induction nh as [|[k0 h0] nh IH]; intros v Hv; simpl; [done|].
  apply IH. destruct (decide (k0 = k)); [done|].
  destruct (decide (h = h0)); [|done].
  do 2 (apply accounted_kill; [unfold death_causes; in_list|]). done.
Qed.

Lemma accounted_body_check dr k p h v :
  accounted dr v → accounted dr (body_check k p h v).
Proof.
  intros Hv. unfold body_check. case_bool_decide; [done|].
  case_bool_decide; [|done]. apply accounted_kill; [|done].
  unfold death_causes. destruct (bool_decide (h ∈ body p)); in_list.
Qed.

Lemma accounted_resolve_one dr nh k p v p1 v1 :
  resolve_one nh k p v = Ok (p1, v1) → accounted dr v → accounted dr v1.
Proof.
  unfold resolve_one. destruct (Dict.get k nh) as [h|]; [|done].
  intros Heq Hv.
  assert (Hgoal : ∀ (q : Player) (ve : Verdict), accounted dr ve →
    accounted dr (body_check k q h (head_to_head k h nh ve))).
  { intros q ve Hve. by apply accounted_body_check, accounted_head_to_head. }
  case_bool_decide; injection Heq as <- <-; apply Hgoal; [|done].
  destruct Hv as [H1 H2]. by split.
Qed.

Lemma accounted_resolve dr nh ps v ps' v' :
  resolve nh ps v = Ok (ps', v') → accounted dr v → accounted dr v'.
Proof.
  revert ps v ps' v'.
  apply (resolve_run_ind nh (λ ps v ps' v', accounted dr v → accounted dr v'));
    [done..|].
  intros k p h p1 v1 ps v ps' v' _ _ H1 _ IH Hv.
  by eapply IH, accounted_resolve_one.
Qed.

(** Only players that were alive at the start of the tick are listed
    dead by the collision loop. *)
Lemma resolve_dead_alive nh ps v ps' v' :
  resolve nh ps v = Ok (ps', v') →
  ∀ x, x ∈ dead_snakes v' → x ∈ dead_snakes v ∨ x ∈ Dict.keys nh.
Proof.
  revert ps v ps' v'.
  apply (resolve_run_ind nh (λ ps v ps' v',
    ∀ x, x ∈ dead_snakes v' → x ∈ dead_snakes v ∨ x ∈ Dict.keys nh));
    [auto..|].
  intros k p h p1 v1 ps v ps' v' _ Hh H1 _ IH x Hx.
  one_facts H1 Hh. destruct (IH x Hx) as [Hd|?]; [|auto].
  apply Hdead1 in Hd as [?|[[_ Hin]|[-> _]]]; [auto| |].
  - right. apply list_elem_of_fmap. by exists (x, h).
  - right. by eapply get_Some_key.
Qed.

(** X12. The death causes after a completed [step]: every player that
    was alive and is not any more has one of "head_collision", "self",
    "other" recorded, and the record of every other identity is what it
    was before the tick. *)
Theorem step_records_death_causes fuel st g st' g' :
  well_formed st → step fuel st g = Ok (st', g') →
  ∀ k,
    (∃ p q, Dict.get k (players st) = Some p ∧ alive p = true ∧
       Dict.get k (players st') = Some q ∧ alive q = false ∧
       ∃ r, death_reasons st' !! k = Some r ∧ r ∈ death_causes)
    ∨ (death_reasons st' !! k = death_reasons st !! k ∧
       ∀ p q, Dict.get k (players st) = Some p →
         Dict.get k (players st') = Some q → alive q = alive p).
Proof.
  intros Hwf Hstep k.
  destruct (resolve_tick_run st Hwf)
    as (qs2 & v & st1 & Hres & Htick & _ & Hdr & _ & Hrel).
  destruct (step_resolved _ _ _ _ _ _ Htick Hstep) as [-> ->]. rewrite Hdr.
  assert (Hacc : accounted (death_reasons st) v).
  { eapply accounted_resolve; [exact Hres|]. split; [|done].
    by intros x ?%elem_of_empty. }
  destruct Hacc as [Hdead Hkeep].
  destruct (decide (k ∈ dead_snakes v)) as [Hk|Hk].
  - left.
    destruct (resolve_dead_alive _ _ _ _ _ Hres k Hk) as [?%elem_of_empty|Hin];
      [done|].
    apply list_elem_of_fmap in Hin as ([k' h] & -> & Hin). simpl in *.
    destruct Hwf as [Hnd _].
    apply heads_of_player in Hin as (p & Hp & Hal & _); [|done].
    destruct (related_get _ _ _ _ _ Hrel Hp) as (q & Hq & Ht).
    unfold ticked in Ht. rewrite Hal bool_decide_eq_true_2 // in Ht.
    destruct Ht as (_ & _ & Hqa & _). exists p, q. split_and!; auto.
  - right. split; [auto|]. intros p q Hp Hq.
    destruct (related_get _ _ _ _ _ Hrel Hp) as (q' & Hq' & Ht).
    assert (q' = q) as -> by congruence.
    unfold ticked in Ht. destruct (alive p) eqn:Hal; [|by subst].
    rewrite bool_decide_eq_false_2 // in Ht.
    by destruct Ht as (_ & _ & h & _ & -> & _).
Qed.

(** ** Bodies over a tick *)

Lemma moved_body_alt grows h b :
  moved_body grows h b =
  h :: (if grows then b
        else if bool_decide (START_LENGTH ≤ length b)%nat then removelast b
        else b).
Proof.
  unfold moved_body. destruct grows; [done|]. simpl length.
  case_bool_decide as H1; case_bool_decide as H2; try done; try lia.
  destruct b; [simpl in *; unfold START_LENGTH in *; lia|done].
Qed.

(** X13. How a completed [step] moves a player that was alive: either
    it died, and then its body and score are as they were; or it is
    alive, the head of its body is the head it projected, and either
    its score went up by one and the old body follows the head
    unshortened, or its score is unchanged and the old body follows
    without its last cell, unless it was shorter than [START_LENGTH]. *)
Theorem step_moves_the_living fuel st g st' g' k p :
  well_formed st → step fuel st g = Ok (st', g') →
  Dict.get k (players st) = Some p → alive p = true →
  ∃ q h, Dict.get k (players st') = Some q ∧ projected (commit p) = Some h ∧
    ((alive q = false ∧ body q = body p ∧ score q = score p) ∨
     (alive q = true ∧ score q = score p + 1 ∧ body q = h :: body p) ∨
     (alive q = true ∧ score q = score p ∧
      body q = h :: (if bool_decide (START_LENGTH ≤ length (body p))%nat
                     then removelast (body p) else body p))).
Proof.
  intros Hwf Hstep Hp Hal.
  destruct (resolve_tick_run st Hwf)
    as (qs2 & v & st1 & Hres & Htick & _ & _ & _ & Hrel).
  destruct (step_resolved _ _ _ _ _ _ Htick Hstep) as [-> _].
  destruct (related_get _ _ _ _ _ Hrel Hp) as (q & Hq & Ht).
  destruct Hwf as [_ Hne].
  destruct (projected_player _ _ _ Hne Hp Hal) as [h Hh].
  destruct (head_of_player _ _ _ _ Hp Hal Hh) as (Hgh & _).
  exists q, h. split; [done|]. split; [done|].
  unfold ticked in Ht. rewrite Hal in Ht. destruct Ht as (_ & _ & Ht).
  case_bool_decide; [left; by destruct Ht as (? & ? & ?)|].
  destruct Ht as (h' & Hh' & Ha & Hb & Hs).
  assert (h' = h) as -> by congruence. rewrite moved_body_alt in Hb.
  right. destruct (bool_decide (k ∈ snakes_to_grow v)); [left|right]; done.
Qed.

(** ** What every reachable state satisfies *)

Lemma good_well_formed st : good st → well_formed st.
Proof.
  intros (Hnd & Hp & _). split; [done|]. apply Forall_forall.
  intros [k p] Hin _. destruct (Hp k p Hin) as (_ & Hlen & _). simpl.
  destruct (body p); [simpl in Hlen; unfold START_LENGTH in Hlen; lia|done].
Qed.

Lemma good_init : good init.
Proof.
  split; [constructor|]. split; [by intros k p ?%elem_of_nil|].
  split; [by intros c ?%elem_of_nil|]. split; [simpl; unfold FOOD_COUNT; lia|done].
Qed.

Lemma good_spawn_food fuel st g st' g' :
  good st → spawn_food fuel st g = Ok (st', g') → good st'.
Proof.
  intros (Hnd & Hp & Hf & Hl & Ht) Hrun.
  destruct (spawn_food_adds _ _ _ _ _ Hrun) as (new & Hfd & _ & _ & Hnew & Hlen).
  destruct (spawn_food_Ok _ _ _ _ _ Hrun) as (Hps & Htk & _).
  unfold good. rewrite Hps Htk. split; [done|]. split; [done|]. split.
  - intros c. rewrite Hfd elem_of_app. intros [?|Hc]; [auto|]. by apply Hnew.
  - split; [lia|done].
Qed.

Lemma elem_of_set {V} k (v : V) d k' v' :
  (k', v') ∈ Dict.set k v d → (k', v') = (k, v) ∨ (k', v') ∈ d.
Proof.
  induction d as [|[k0 v0] d IH]; simpl.
  - intros ?%list_elem_of_singleton. by left.
  - case_decide as Hk.
    + subst k0. intros [?|?]%elem_of_cons; [by left|right; by right].
    + intros [->|Hin]%elem_of_cons; [right; left|].
      destruct (IH Hin); [by left|right; by right].
Qed.

Lemma elem_of_del {V} k (d : list (pystr * V)) kv : kv ∈ Dict.del k d → kv ∈ d.
Proof.
  induction d as [|[k0 v0] d IH]; simpl; [done|].
  case_decide; [by right|].
  intros [->|?]%elem_of_cons; [left|right; auto].
Qed.

Lemma elem_of_update {V} k (f : V → V) d k' v' :
  (k', v') ∈ Dict.update k f d →
  (k', v') ∈ d ∨ (k' = k ∧ ∃ v, (k, v) ∈ d ∧ v' = f v).
Proof.
  induction d as [|[k0 v0] d IH]; simpl; [by intros ?%elem_of_nil|].
  case_decide as Hk.
  - subst k0. intros [[= -> ->]|?]%elem_of_cons.
    + right. split; [done|]. exists v0. split; [left|done].
    + left. by right.
  - intros [->|Hin]%elem_of_cons; [left; left|].
    destruct (IH Hin) as [?|(-> & v & ? & ->)]; [left; by right|].
    right. split; [done|]. exists v. split; [by right|done].
Qed.

Lemma unit_vector_right : unit_vector (1, 0).
Proof. unfold unit_vector. in_list. Qed.

Lemma good_add_player pid name now st g :
  good st → good (add_player pid name now st g).1.
Proof.
  intros (Hnd & Hp & Hf & Hl & Ht).
  destruct (add_player_cases pid name now st g) as (x & y & g1 & Hg & -> & _).
  unfold spawn, mbind, rand_bind.
  pose proof (randint_range 0 360 g1) as Hh.
  destruct (randint 0 360 g1) as [hue g2]. unfold good. simpl.
  split.
  { rewrite keys_set. case_decide as Hin; [done|]. apply NoDup_app.
    split; [done|]. split; [|apply NoDup_singleton].
    by intros k Hk ->%list_elem_of_singleton. }
  split; [|done]. intros k p [[= -> ->]|Hin]%elem_of_set; [|by apply Hp].
  unfold good_player. simpl.
  split; [done|]. split; [done|].
  split; [intros c; by apply spawn_body_grid|].
  split; [apply unit_vector_right|]. split; [apply unit_vector_right|]. lia.
Qed.

Lemma good_remove_player pid st : good st → good (remove_player pid st).
Proof.
  intros (Hnd & Hp & Hf & Hl & Ht). unfold remove_player.
  destruct (Dict.get pid (players st)) as [p|]; [|done].
  unfold good. simpl. split; [by apply keys_del|]. split; [|done].
  intros k q Hin%elem_of_del. by apply Hp.
Qed.

Lemma good_update pid f st :
  (∀ t k p, good_player t k p → good_player t k (f p)) →
  good st → good (with_players (Dict.update pid f (players st)) st).
Proof.
  intros Hf (Hnd & Hp & Hfd & Hl & Ht). unfold good. simpl.
  split; [by rewrite keys_update|]. split; [|done].
  intros k q [Hin|(-> & p & Hin & ->)]%elem_of_update; [by apply Hp|].
  apply Hf. by apply Hp.
Qed.

Lemma unit_of_range v x : unit_of v = Some x → x = -1 ∨ x = 0 ∨ x = 1.
Proof.
  destruct v as [|b|n|f| | |]; simpl; try done.
  - intros [= <-]. destruct b; auto.
  - case_bool_decide as Hn; [|done]. intros [= <-].
    apply elem_of_cons in Hn as [->|Hn]; [auto|].
    apply elem_of_cons in Hn as [->|Hn]; [auto|].
    apply list_elem_of_singleton in Hn as ->. auto.
  - repeat case_match; intros [= <-]; auto.
Qed.

Lemma unit_vector_valid_dir direction d :
  valid_dir direction = Some d → unit_vector d.
Proof.
  intros (dx & dy & _ & Hx & Hy & Hnz)%valid_dir_spec.
  destruct d as [x y]. simpl in *.
  apply unit_of_range in Hx, Hy. unfold unit_vector.
  destruct Hx as [->|[->| ->]], Hy as [->|[->| ->]]; try in_list.
  by destruct Hnz.
Qed.

(** X14. Whatever passes the validation of an [input] message is one of
    the eight unit directions: the values of the two elements are each
    -1, 0 or 1 and not both zero, whether they came as integers, as
    booleans or as floats. *)
Theorem valid_dir_unit_vector direction d :
  valid_dir direction = Some d → unit_vector d.
Proof. apply unit_vector_valid_dir. Qed.

(** ** Food and counters in the collision loop *)

Lemma resolve_one_exact nh k p h v p1 v1 :
  Dict.get k nh = Some h → resolve_one nh k p v = Ok (p1, v1) →
  p1 = (if bool_decide (h ∈ v_food v) then add_food_collected p else p) ∧
  v_food v1 = (if bool_decide (h ∈ v_food v) then remove_first h (v_food v)
               else v_food v).
Proof.
  intros Hh. unfold resolve_one. rewrite Hh.
  assert (Hfood : ∀ (q : Player) (ve : Verdict),
    v_food (body_check k q h (head_to_head k h nh ve)) = v_food ve).
  { intros q ve.
    destruct (body_check_facts k q h (head_to_head k h nh ve)) as (-> & _).
    by destruct (head_to_head_facts k h nh ve) as (-> & _). }
  case_bool_decide; intros [= <- <-]; by rewrite Hfood.
Qed.

Lemma length_remove_first c l : (length (remove_first c l) ≤ length l)%nat.
Proof.
  induction l as [|c0 l IH]; simpl; [done|]. case_decide; simpl; lia.
Qed.

Lemma NoDup_remove_first c l :
  NoDup l → NoDup (remove_first c l) ∧ c ∉ remove_first c l.
Proof.
  induction l as [|c0 l IH]; simpl.
  - intros _. split; [constructor|by intros ?%elem_of_nil].
  - intros [Hnin Hnd]%NoDup_cons. destruct (IH Hnd) as [H1 H2].
    case_decide as Hc; [by subst|]. split.
    + constructor; [|done]. by intros ?%elem_of_remove_first.
    + by intros [?|?]%elem_of_cons.
Qed.

Lemma resolve_food nh ps v ps' v' :
  resolve nh ps v = Ok (ps', v') →
  (length (v_food v') ≤ length (v_food v))%nat ∧
  (NoDup (v_food v) →
   NoDup (v_food v') ∧
   ∀ k p h, (k, p) ∈ ps → alive p = true → Dict.get k nh = Some h →
     h ∉ v_food v').
Proof.
  revert ps v ps' v'.
  apply (resolve_run_ind nh (λ ps v ps' v',
    (length (v_food v') ≤ length (v_food v))%nat ∧
    (NoDup (v_food v) →
     NoDup (v_food v') ∧
     ∀ k p h, (k, p) ∈ ps → alive p = true → Dict.get k nh = Some h →
       h ∉ v_food v'))).
  - intros v. split; [done|]. intros Hnd. split; [done|].
    by intros k p h ?%elem_of_nil.
  - intros k0 p0 ps v ps' v' Hp0 _ [IH1 IH2]. split; [done|]. intros Hnd.
    destruct (IH2 Hnd) as [H1 H2]. split; [done|].
    intros k p h [[= -> ->]|Hin]%elem_of_cons Hp; [congruence|by eapply H2].
  - intros k0 p0 h0 p1 v1 ps v ps' v' Hp0 Hh0 Hone Hrest [IH1 IH2].
    destruct (resolve_one_exact _ _ _ _ _ _ _ Hh0 Hone) as [_ Hfd].
    pose proof (length_remove_first h0 (v_food v)) as Hlen.
    split; [rewrite Hfd in IH1; case_bool_decide; lia|]. intros Hnd.
    destruct (NoDup_remove_first h0 _ Hnd) as [Hnd1 Hgone].
    assert (Hnd' : NoDup (v_food v1) ∧ h0 ∉ v_food v1).
    { rewrite Hfd. by case_bool_decide. }
    destruct Hnd' as [Hnd' Hh0']. destruct (IH2 Hnd') as [H1 H2].
    split; [done|].
    intros k p h [[= -> ->]|Hin]%elem_of_cons Hp Hh; [|by eapply H2].
    assert (h = h0) as -> by congruence.
    apply resolve_stable in Hrest as (_ & _ & Hsub & _). auto.
Qed.

Lemma resolve_grow_keys nh ps v ps' v' :
  resolve nh ps v = Ok (ps', v') →
  ∀ x, x ∈ snakes_to_grow v' → x ∈ snakes_to_grow v ∨ x ∈ Dict.keys ps.
Proof.
  revert ps v ps' v'.
  apply (resolve_run_ind nh (λ ps v ps' v',
    ∀ x, x ∈ snakes_to_grow v' → x ∈ snakes_to_grow v ∨ x ∈ Dict.keys ps)).
  - auto.
  - intros k p ps v ps' v' _ _ IH x Hx.
    destruct (IH x Hx); [auto|right; by right].
  - intros k p h p1 v1 ps v ps' v' _ Hh H1 _ IH x Hx. one_facts H1 Hh.
    destruct (IH x Hx) as [Hg|?]; [|right; by right].
    apply Hgrow1 in Hg as [?|[-> _]]; [auto|right; left].
Qed.

Lemma resolve_collected nh ps v ps' v' :
  resolve nh ps v = Ok (ps', v') → NoDup (Dict.keys ps) →
  ∀ k p q, Dict.get k ps = Some p → Dict.get k ps' = Some q →
    k ∈ snakes_to_grow v' → k ∉ snakes_to_grow v →
    food_collected q = food_collected p + 1.
Proof.
  revert ps v ps' v'.
  apply (resolve_run_ind nh (λ ps v ps' v',
    NoDup (Dict.keys ps) →
    ∀ k p q, Dict.get k ps = Some p → Dict.get k ps' = Some q →
      k ∈ snakes_to_grow v' → k ∉ snakes_to_grow v →
      food_collected q = food_collected p + 1)).
  - done.
  - intros k0 p0 ps v ps' v' Hp0 Hrest IH [Hk0 Hnd]%NoDup_cons k p q.
    simpl. destruct (decide (k0 = k)) as [->|Hk]; [|by apply IH].
    intros _ _ Hg Hng.
    destruct (resolve_grow_keys _ _ _ _ _ Hrest k Hg); done.
  - intros k0 p0 h0 p1 v1 ps v ps' v' Hp0 Hh0 Hone Hrest IH
      [Hk0 Hnd]%NoDup_cons k p q.
    destruct (resolve_one_exact _ _ _ _ _ _ _ Hh0 Hone) as [Hp1 _].
    one_facts Hone Hh0. simpl. destruct (decide (k0 = k)) as [->|Hk].
    + intros [= ->] [= ->] Hg Hng.
      destruct (resolve_grow_keys _ _ _ _ _ Hrest k Hg) as [Hg1|?]; [|done].
      apply Hgrow1 in Hg1 as [?|[_ Hf]]; [done|].
      by rewrite Hp1 bool_decide_eq_true_2.
    + intros Hp Hq Hg Hng. apply (IH Hnd k p q Hp Hq Hg).
      intros [?|[? _]]%Hgrow1; done.
Qed.

(** A player that scores in a tick has collected one more food item. *)
Lemma resolve_tick_collected st st1 k p q :
  well_formed st → resolve_tick st = Ok st1 →
  Dict.get k (players st) = Some p → Dict.get k (players st1) = Some q →
  score q ≠ score p → food_collected q = food_collected p + 1.
Proof.
  intros Hwf Hrun Hp Hq Hscore.
  destruct (resolve_tick_chain st Hwf)
    as (qs2 & v & qs3 & occ & Hres & Hfed & _ & Hmoved & Hclean & Hrun').
  rewrite Hrun in Hrun'. injection Hrun' as ->. simpl in Hq.
  assert (Hc : Dict.get k (committed (players st))
               = Some (if alive p then commit p else p)).
  { by rewrite get_committed Hp. }
  destruct (related_get _ _ _ _ _ Hfed Hc) as (r & Hr & Hfr).
  destruct (related_get _ _ _ _ _ Hmoved Hr) as (m & Hm & Hmr).
  destruct (related_get _ _ _ _ _ Hclean Hm) as (f & Hf & Hcl).
  assert (f = q) as -> by congruence.
  apply fed_fields in Hfr as (Har & _ & Hsr & _).
  rewrite commit_alive in Har.
  assert (Hsc : score (if alive p then commit p else p) = score p).
  { destruct (alive p); [|done]. by destruct (commit_fields p) as (_&_&?&_). }
  assert (Hfc : food_collected (if alive p then commit p else p)
                = food_collected p).
  { destruct (alive p); [|done]. by destruct (commit_fields p) as (_&_&_&_&_&?). }
  unfold moved in Hmr. rewrite Har in Hmr.
  assert (Hqm : score q = score m ∧ food_collected q = food_collected m).
  { by destruct Hcl as [->|[_ ->]]. }
  destruct Hqm as [Hqs Hqf].
  destruct (alive p) eqn:Hal; [|subst m; congruence].
  case_bool_decide as Hdead; [subst m; simpl in *; congruence|].
  destruct Hmr as (h & _ & ->). simpl in *.
  case_bool_decide as Hgrow; [|congruence].
  rewrite Hqf -Hfc. destruct Hwf as [Hnd _].
  eapply (resolve_collected _ _ _ _ _ Hres); [by rewrite keys_committed|..];
    [exact Hc|exact Hr|exact Hgrow|by intros ?%elem_of_nil].
Qed.

Lemma spawn_food_no_raise fuel st g e : spawn_food fuel st g ≠ Raise e.
Proof.
  revert st g. induction fuel as [|fuel IH]; intros st g; simpl.
  - by case_bool_decide.
  - case_bool_decide; [|done].
    destruct (find_empty_position (occupied st) g) as [c g1].
    case_bool_decide; apply IH.
Qed.

Lemma projected_grid p h : projected p = Some h → h ∈ grid_cells.
Proof.
  unfold projected. destruct (body p) as [|[hx hy] ?]; [done|].
  intros [= <-]. apply (clamp_pos_in_grid_aux (hx + (dir p).1) (hy + (dir p).2)).
Qed.

Lemma good_resolve_tick st st1 :
  good st → resolve_tick st = Ok st1 →
  NoDup (Dict.keys (players st1)) ∧
  (∀ k q, (k, q) ∈ players st1 → good_player (tick st + 1) k q) ∧
  (∀ c, c ∈ food st1 → c ∈ grid_cells) ∧
  (length (food st1) ≤ FOOD_COUNT)%nat ∧ tick st1 = tick st.
Proof.
  intros Hgood Hrun. pose proof (good_well_formed st Hgood) as Hwf.
  destruct Hgood as (Hnd & Hgp & Hfd & Hlen & Ht).
  destruct (resolve_tick_run st Hwf)
    as (qs2 & v & st1' & Hres & Hrun' & Hfood & _ & Htick & Hrel).
  rewrite Hrun in Hrun'. injection Hrun' as <-.
  pose proof (resolve_tick_framed st st1 Hwf Hrun) as Hfr.
  assert (Hkeys : Dict.keys (players st1) = Dict.keys (players st))
    by by apply related_keys in Hrel.
  pose proof (resolve_stable _ _ _ _ _ Hres) as (_ & _ & Hsub & _).
  pose proof (resolve_food _ _ _ _ _ Hres) as [Hfl _].
  split; [by rewrite Hkeys|]. split; [|split; [|split; [|done]]].
  - intros k q Hin.
    assert (Hq : Dict.get k (players st1) = Some q).
    { apply elem_of_get; [by rewrite Hkeys|done]. }
    destruct (related_get_inv _ _ _ _ _ Hrel Hq) as (p & Hp & Htk).
    destruct (related_get _ _ _ _ _ Hfr Hp) as (q' & Hq' & Hframed & Hsame & _).
    assert (q' = q) as -> by congruence.
    destruct (Hgp k p (get_elem_of _ _ _ Hp))
      as (Hid & Hbl & Hbg & Hd & Hpd & Hs0 & Hsf & Hst0 & Hst).
    destruct (alive p) eqn:Hal; cycle 1.
    { rewrite (Hsame eq_refl). unfold good_player. split_and!; auto; lia. }
    pose proof (resolve_tick_collected st st1 k p q Hwf Hrun Hp Hq) as Hcol.
    destruct Hframed as (Hfi & _ & Hfp & _ & _ & Hfs & Hfdir & Hfc).
    unfold ticked in Htk. rewrite Hal in Htk. destruct Htk as (_ & _ & Htk).
    unfold good_player. rewrite Hfi Hfp Hfs.
    split; [done|].
    assert (Hbody : (START_LENGTH ≤ length (body q))%nat ∧
                    (∀ c, c ∈ body q → c ∈ grid_cells) ∧
                    score p ≤ score q).
    { case_bool_decide.
      - destruct Htk as (_ & -> & ->). split; [done|]. split; [done|lia].
      - destruct Htk as (h & Hh & _ & Hb & Hs). split; [|split].
        + rewrite Hb moved_body_alt. simpl.
          destruct (bool_decide (k ∈ snakes_to_grow v)); [lia|].
          case_bool_decide; [|lia]. unfold START_LENGTH in *.
          destruct (body p) as [|c1 [|c2 [|c3 l]]]; simpl in *; lia.
        + intros c Hc. rewrite Hb in Hc.
          apply elem_of_moved_body in Hc as [->|Hc]; [|auto].
          apply get_elem_of, elem_of_heads_of in Hh as (p' & _ & _ & Hpr).
          by eapply projected_grid.
        + rewrite Hs. case_bool_decide; lia. }
    destruct Hbody as (Hb1 & Hb2 & Hs1).
    split; [done|]. split; [done|].
    split; [by destruct Hfdir as [-> | ->]|]. split; [done|].
    split; [lia|]. split; [|lia].
    destruct (decide (score q = score p)) as [Heq|Hne]; [lia|].
    specialize (Hcol Hne).
    assert (score q ≤ score p + 1); [|lia].
    case_bool_decide; [destruct Htk as (_ & _ & ->); lia|].
    destruct Htk as (h & _ & _ & _ & ->). case_bool_decide; lia.
  - intros c Hc. rewrite Hfood in Hc. apply Hfd. by apply Hsub.
  - rewrite Hfood. simpl in Hfl. lia.
Qed.

Lemma good_step fuel st g :
  good st → ∀ st' g', step fuel st g = Ok (st', g') → good st'.
Proof.
  intros Hgood st' g'. pose proof (good_well_formed st Hgood) as Hwf.
  destruct (resolve_tick_run st Hwf) as (qs2 & v & st1 & _ & Hrun & _).
  destruct (good_resolve_tick st st1 Hgood Hrun) as (Hnd & Hgp & Hfd & Hlen & Ht).
  unfold step. rewrite Hrun. simpl.
  destruct (spawn_food fuel st1 g) as [[st2 g2]| |] eqn:Hsf; simpl; try done.
  intros [= <- <-].
  destruct (spawn_food_adds _ _ _ _ _ Hsf) as (new & Hfd2 & _ & _ & Hnew & Hl2).
  destruct (spawn_food_Ok _ _ _ _ _ Hsf) as (Hps & Htk & _).
  destruct Hgood as (_ & _ & _ & _ & Ht0).
  unfold good. simpl. rewrite Hps Htk Ht.
  split; [done|]. split; [done|]. split.
  - intros c. rewrite Hfd2 elem_of_app. intros [?|Hc]; [auto|]. by apply Hnew.
  - split; lia.
Qed.

(** X15. [step] on a state a run can reach: it never raises, and when it
    returns the state is again such a state (distinct keys; every body
    at least [START_LENGTH] long and on the grid; directions among the
    eight unit vectors; 0 ≤ score ≤ food_collected; spawn ticks not
    after the tick), with exactly [FOOD_COUNT] food items. *)
Theorem step_keeps_good fuel st g :
  good st →
  (∀ e, step fuel st g ≠ Raise e) ∧
  ∀ st' g', step fuel st g = Ok (st', g') →
    good st' ∧ length (food st') = FOOD_COUNT.
Proof.
  intros Hgood. pose proof (good_well_formed st Hgood) as Hwf.
  destruct (resolve_tick_run st Hwf) as (qs2 & v & st1 & _ & Hrun & _).
  destruct (good_resolve_tick st st1 Hgood Hrun) as (Hnd & Hgp & Hfd & Hlen & Ht).
  unfold step. rewrite Hrun. simpl. split.
  - intros e. pose proof (spawn_food_no_raise fuel st1 g e).
    by destruct (spawn_food fuel st1 g) as [[??]| |].
  - intros st' g'.
    destruct (spawn_food fuel st1 g) as [[st2 g2]| |] eqn:Hsf; simpl; try done.
    intros [= <- <-].
    destruct (spawn_food_adds _ _ _ _ _ Hsf) as (new & Hfd2 & _ & _ & Hnew & Hl2).
    destruct (spawn_food_Ok _ _ _ _ _ Hsf) as (Hps & Htk & _).
    destruct Hgood as (_ & _ & _ & _ & Ht0).
    unfold good. simpl. rewrite Hps Htk Ht. split; [|lia].
    split; [done|]. split; [done|]. split.
    + intros c. rewrite Hfd2 elem_of_app. intros [?|Hc]; [auto|]. by apply Hnew.
    + split; lia.
Qed.

Lemma good_on_message pid now message st g st' g' sent :
  good st → on_message pid now message st g = Continue st' g' sent → good st'.
Proof.
  intros Hgood. unfold on_message.
  destruct (msg_get (py "type") message) as [t|]; [|done].
  destruct (str_eq t (py "input")).
  { destruct (msg_get (py "dir") message) as [direction|]; [|done].
    intros [= <- _ _]. unfold on_input.
    destruct (is_list_of_two direction && is_alive pid st); [|done].
    destruct (valid_dir direction) as [d|] eqn:Hd; [|done].
    apply unit_vector_valid_dir in Hd.
    apply good_update; [|done]. intros t' k p (?&?&?&?&?&?&?&?&?).
    unfold good_player. simpl. auto 10. }
  destruct (str_eq t (py "respawn")).
  { destruct (on_respawn pid pid now st g) as [st1 g1] eqn:Hr.
    intros [= <- _ _]. unfold on_respawn in Hr.
    destruct (Dict.get pid (players st)) as [p|]; [|by injection Hr as <- _].
    destruct (alive p); [by injection Hr as <- _|].
    replace st1 with (add_player pid (Some pid) now (remove_player pid st) g).1
      by by rewrite Hr.
    by apply good_add_player, good_remove_player. }
  destruct (str_eq t (py "rename")); [|by intros [= <- _ _]].
  destruct (msg_get (py "name") message) as [new_name|]; [|done].
  destruct (on_rename pid new_name st) as [st1 sent1] eqn:Hr.
  intros [= <- _ _]. unfold on_rename in Hr.
  destruct (Dict.get pid (players st)) as [p|]; [|by injection Hr as <- _].
  destruct (valid_name new_name) as [n|]; [|by injection Hr as <- _].
  injection Hr as <- _. apply good_update; [|done].
  intros t' k q (?&?&?&?&?&?&?&?&?). unfold good_player. simpl. auto 10.
Qed.

Lemma good_apply_event fuel now e st g st' g' :
  good st → apply_event fuel now e (st, g) = Some (st', g') → good st'.
Proof.
  intros Hgood. destruct e as [|pid|pid message|pid|]; simpl.
  - destruct (spawn_food fuel st g) as [[st1 g1]| |] eqn:Hsf; try done.
    intros [= <- <-]. by eapply good_spawn_food.
  - unfold on_connect. intros [= Heq].
    replace st' with (add_player pid (Some pid) now st g).1 by by rewrite Heq.
    by apply good_add_player.
  - destruct (on_message pid now message st g) as [st1 g1 sent|] eqn:Hm.
    + intros [= <- <-]. by eapply good_on_message.
    + intros [= <- <-]. by apply good_remove_player.
  - intros [= <- <-]. by apply good_remove_player.
  - destruct (step fuel st g) as [[st1 g1]| |] eqn:Hs; try done.
    intros [= <- <-]. by destruct (good_step fuel st g Hgood st1 g1 Hs).
Qed.

Lemma run_None fuel now es :
  foldl (λ o e, o ≫= apply_event fuel now e) None es = None.
Proof. by induction es. Qed.

Lemma run_cons fuel now e es s :
  run fuel now (e :: es) s =
  match apply_event fuel now e s with
  | Some s' => run fuel now es s'
  | None => None
  end.
Proof.
  unfold run. cbn [foldl].
  change (Some s ≫= apply_event fuel now e) with (apply_event fuel now e s).
  destruct (apply_event fuel now e s); [done|apply run_None].
Qed.

Lemma run_good fuel now es st0 g0 st g :
  good st0 → run fuel now es (st0, g0) = Some (st, g) → good st.
Proof.
  revert st0 g0.
  induction es as [|e es IH]; intros st0 g0 Hgood.
  - by intros [= <- <-].
  - rewrite run_cons.
    destruct (apply_event fuel now e (st0, g0)) as [[st1 g1]|] eqn:He; [|done].
    apply IH. by eapply good_apply_event.
Qed.

(** X16. Every state that a run of the server reaches from the initial
    state (by startup, connections, messages of any content, closings
    and ticks, in any order, with any random draws) has distinct player
    keys, each player filed under its own identity with a body of at
    least [START_LENGTH] cells on the grid, a direction and a pending
    direction among the eight unit vectors, 0 ≤ score ≤ food_collected
    and a spawn tick between 0 and the tick; its food is on the grid and
    counts at most [FOOD_COUNT] items. *)
Theorem reachable_states_are_good fuel now es g st g' :
  run fuel now es (init, g) = Some (st, g') → good st.
Proof. apply run_good, good_init. Qed.

(** ** The occupancy set *)

Lemma elem_of_temp_occupied_of ps fd c :
  c ∈ temp_occupied_of ps fd ↔
  (∃ k p, (k, p) ∈ ps ∧ alive p = true ∧ c ∈ body p) ∨ c ∈ fd.
Proof.
  unfold temp_occupied_of.
  rewrite elem_of_union !elem_of_list_to_set list_elem_of_bind. split.
  - intros [([k p] & Hc & Hin)|?]; [left|by right].
    destruct (alive p) eqn:Hp; [eauto|by apply elem_of_nil in Hc].
  - intros [(k & p & Hin & Hp & Hc)|?]; [left|by right].
    exists (k, p). by rewrite Hp.
Qed.

Lemma move_all_occ nh v ps occ ps' occ' :
  move_all nh v ps occ = Ok (ps', occ') →
  ∀ c, c ∈ occ' ↔
    c ∈ occ ∨ ∃ k q, (k, q) ∈ ps' ∧ alive q = true ∧ c ∈ body q.
Proof.
  revert occ ps' occ'. induction ps as [|[k p] ps IH]; intros occ ps' occ'; simpl.
  - intros [= <- <-] c. split; [auto|].
    by intros [?|(? & ? & ?%elem_of_nil & _)].
  - destruct (alive p) eqn:Hp; simpl.
    + case_bool_decide as Hd.
      * destruct (move_all nh v ps occ) as [[qs occ1]| |] eqn:Hm; simpl; try done.
        intros [= <- <-] c. rewrite (IH _ _ _ Hm c). split.
        -- intros [?|(k' & q & Hin & ?)]; [auto|right].
           exists k', q. split; [by right|done].
        -- intros [?|(k' & q & [[= -> ->]|Hin]%elem_of_cons & Hq & Hc)];
             [auto|done|right; eauto].
      * destruct (Dict.get k nh) as [h|]; [|done].
        destruct (move_all nh v ps _) as [[qs occ1]| |] eqn:Hm; simpl; try done.
        intros [= <- <-] c. rewrite (IH _ _ _ Hm c) elem_of_union elem_of_list_to_set.
        split.
        -- intros [[Hc|?]|(k' & q & Hin & ?)]; [right| auto |right].
           ++ eexists k, _. split; [left|]. by simpl.
           ++ exists k', q. split; [by right|done].
        -- intros [?|(k' & q & [[= -> ->]|Hin]%elem_of_cons & Hq & Hc)];
             [auto| |right; eauto].
           left. by left.
    + destruct (move_all nh v ps occ) as [[qs occ1]| |] eqn:Hm; simpl; try done.
      intros [= <- <-] c. rewrite (IH _ _ _ Hm c). split.
      * intros [?|(k' & q & Hin & ?)]; [auto|right].
        exists k', q. split; [by right|done].
      * intros [?|(k' & q & [[= -> ->]|Hin]%elem_of_cons & Hq & Hc)];
          [auto|congruence|right; eauto].
Qed.

Lemma cleaned_body l k p q : cleaned l k p q → body q = body p.
Proof. by intros [->|[_ ->]]. Qed.

Lemma clean_up_occ dead ps occ c :
  c ∈ (clean_up dead ps occ).2 ↔
  c ∈ occ ∧ ∀ k p, k ∈ dead → Dict.get k ps = Some p → c ∉ body p.
Proof.
  unfold clean_up.
  assert (Hgen : ∀ l,
    let r := foldr (λ player_id '(ps, occ),
               match Dict.get player_id ps with
               | Some player =>
                   (Dict.update player_id (set_alive false) ps,
                    occ ∖ list_to_set (body player))
               | None => (ps, occ)
               end) (ps, occ) l in
    related (cleaned l) ps r.1 ∧
    (c ∈ r.2 ↔ c ∈ occ ∧ ∀ k p, k ∈ l → Dict.get k ps = Some p → c ∉ body p)).
  { induction l as [|k l [IHr IHc]]; simpl.
    - split.
      + apply Forall2_same_length_lookup_2; [done|].
        intros i [??] [??] H1 H2. simplify_eq. split; [done|by left].
      + split; [intros ?; split; [done|]; by intros k p ?%elem_of_nil|by intros [? _]].
    - destruct (foldr _ (ps, occ) l) as [ps1 occ1]. simpl in *.
      destruct (Dict.get k ps1) as [p1|] eqn:Hp1; simpl.
      + destruct (related_get_inv _ _ _ _ _ IHr Hp1) as (p & Hp & Hcl).
        apply cleaned_body in Hcl. split.
        * eapply related_impl; [|eapply related_trans; [exact IHr|apply related_update]].
          intros k' p' r' (q' & [->|[Hin ->]] & [->|[-> ->]]); unfold cleaned.
          -- by left.
          -- right. split; [left|done].
          -- right. split; [by right|done].
          -- right. split; [left|done].
        * rewrite elem_of_difference elem_of_list_to_set IHc Hcl. split.
          -- intros [[Ho Hl] Hn]. split; [done|].
             intros k' p' [->|Hin]%elem_of_cons Hp'; [|by eapply Hl].
             by assert (p' = p) as -> by congruence.
          -- intros [Ho Hl]. split; [split; [done|]|].
             ++ intros k' p' Hin. apply Hl. by right.
             ++ apply (Hl k p); [left|done].
      + split.
        * eapply related_impl; [|exact IHr].
          intros k' p' q' [->|[Hin ->]]; [by left|right].
          split; [by right|done].
        * rewrite IHc. split; intros [Ho Hl]; (split; [done|]).
          -- intros k' p' [->|Hin]%elem_of_cons Hp'; [|by eapply Hl].
             destruct (related_get _ _ _ _ _ IHr Hp') as (? & ? & _). congruence.
          -- intros k' p' Hin. apply Hl. by right. }
  destruct (Hgen (elements dead)) as [_ Hc]. simpl in Hc. rewrite Hc.
  by setoid_rewrite elem_of_elements.
Qed.

(** The players as the move loop leaves them, before the clean-up. *)
Lemma resolve_tick_moved st :
  well_formed st →
  let nh := heads_of (committed (players st)) in
  ∃ qs2 v qs3 occ,
    resolve nh (committed (players st)) (verdict0 st) = Ok (qs2, v) ∧
    move_all nh v qs2 (list_to_set (v_food v)) = Ok (qs3, occ) ∧
    related (ticked nh v) (players st) qs3 ∧
    resolve_tick st
      = Ok {| players := (clean_up (dead_snakes v) qs3 occ).1;
              food := v_food v;
              occupied := (clean_up (dead_snakes v) qs3 occ).2;
              tick := tick st; death_reasons := v_reasons v |}.
Proof.
  intros Hwf nh.
  destruct (resolve_tick_chain st Hwf)
    as (qs2 & v & qs3 & occ & Hres & Hfed & Hmove & Hmoved & _ & Hrun).
  exists qs2, v, qs3, occ. split; [done|]. split; [done|]. split; [|done].
  pose proof (related_trans _ _ _ _ _
       (related_trans _ _ _ _ _ (committed_related (players st)) Hfed) Hmoved)
    as Hall.
  eapply related_impl; [|exact Hall]. clear.
  intros k p m (r & (c & -> & Hfed) & Hmoved).
  apply fed_fields in Hfed as Hr. destruct Hr as (Har & Hbr & Hsr & Hnr & Hdr).
  unfold ticked, moved in *. rewrite Har commit_alive in Hmoved.
  destruct (alive p) eqn:Hp.
  - destruct (commit_fields p) as (Hcb & Hca & Hcs & _ & Hcn & _).
    rewrite Hbr Hcb Hsr Hcs in Hmoved.
    case_bool_decide as Hdead.
    + subst m. simpl. rewrite ?Hnr ?Hcn ?Hdr ?Hbr ?Hcb ?Hsr ?Hcs; done.
    + destruct Hmoved as (h & Hh & ->).
      simpl. rewrite Hnr Hcn Hdr Har Hca Hp. split; [done|]. split; [done|].
      by exists h.
  - destruct Hfed as [Hf _]. specialize (Hf Hp). by subst r m.
Qed.

(** A player the verdict lists dead keeps its body through the tick, and
    it was alive: its body was part of a consistent board. *)
Lemma dead_this_tick st qs2 v k q :
  well_formed st →
  resolve (heads_of (committed (players st))) (committed (players st))
    (verdict0 st) = Ok (qs2, v) →
  k ∈ dead_snakes v →
  ∀ p, Dict.get k (players st) = Some p →
    ticked (heads_of (committed (players st))) v k p q →
    alive p = true ∧ alive q = false ∧ body q = body p.
Proof.
  intros [Hnd _] Hres Hk p Hp Ht.
  destruct (resolve_dead_alive _ _ _ _ _ Hres k Hk) as [?%elem_of_empty|Hin];
    [done|].
  apply list_elem_of_fmap in Hin as ([k' h] & -> & Hin). simpl in *.
  apply heads_of_player in Hin as (p' & Hp' & Hal & _); [|done].
  assert (p' = p) as -> by congruence.
  unfold ticked in Ht. rewrite Hal bool_decide_eq_true_2 // in Ht.
  by destruct Ht as (_ & _ & ? & ? & _).
Qed.

Lemma resolve_tick_occupancy st st1 :
  well_formed st → alive_disjoint (players st) → food_clear st →
  resolve_tick st = Ok st1 → occupied st1 = occupancy_of st1.
Proof.
  intros Hwf Hdis Hfc Hrun. pose proof Hwf as [Hnd Hne].
  destruct (resolve_tick_moved st Hwf)
    as (qs2 & v & qs3 & occ & Hres & Hmove & Hrel3 & Hrun').
  destruct (resolve_tick_run st Hwf)
    as (qs2' & v' & st1' & Hres' & Hrun'' & _ & _ & _ & Hrel4).
  assert (st1' = st1) as -> by congruence.
  assert (v' = v) as -> by congruence.
  assert (Hst1 : st1 = {| players := (clean_up (dead_snakes v) qs3 occ).1;
              food := v_food v;
              occupied := (clean_up (dead_snakes v) qs3 occ).2;
              tick := tick st; death_reasons := v_reasons v |}) by congruence.
  assert (Hfood : food st1 = v_food v) by by rewrite Hst1.
  assert (Hocc : occupied st1 = (clean_up (dead_snakes v) qs3 occ).2)
    by by rewrite Hst1.
  pose proof (resolve_stable _ _ _ _ _ Hres) as (_ & _ & Hsub & _).
  assert (Hk3 : Dict.keys qs3 = Dict.keys (players st)) by by apply related_keys in Hrel3.
  assert (Hk4 : Dict.keys (players st1) = Dict.keys (players st))
    by by apply related_keys in Hrel4.
  (* an alive player after the tick, in either list, with what it was *)
  assert (Halive : ∀ k q, ticked (heads_of (committed (players st))) v k
            (default q (Dict.get k (players st))) q → alive q = true →
            is_Some (Dict.get k (players st)) →
            ∀ c, c ∈ body q →
              ∀ k2 p2, k2 ∈ dead_snakes v → Dict.get k2 (players st) = Some p2 →
                alive p2 = true → c ∉ body p2).
  { intros k q Ht Hq [p Hp] c Hc k2 p2 Hk2 Hp2 Hal2. rewrite Hp in Ht. simpl in Ht.
    apply ticked_survivor in Ht as (Hal & Hnd1 & h & Hh & Hb); [|done].
    assert (k ≠ k2) by by intros ->.
    destruct (Hb c Hc) as [->|Hc'].
    - by eapply (survivor_head_clear st qs2 v k p k2 p2 h).
    - by eapply (Hdis k p k2 p2 c). }
  apply set_eq. intros c. rewrite Hocc clean_up_occ (move_all_occ _ _ _ _ _ _ Hmove).
  unfold occupancy_of. rewrite elem_of_temp_occupied_of elem_of_list_to_set Hfood.
  split.
  - intros [[Hc|(k & q3 & Hin & Hq3 & Hc)] Hclean]; [by right|left].
    apply elem_of_get in Hin; [|by rewrite Hk3].
    destruct (related_get_inv _ _ _ _ _ Hrel3 Hin) as (p & Hp & Ht3).
    destruct (related_get _ _ _ _ _ Hrel4 Hp) as (q4 & Hq4 & Ht4).
    apply ticked_survivor in Ht3 as Hs3; [|done].
    destruct Hs3 as (Hal & Hnd3 & _).
    unfold ticked in Ht3, Ht4. rewrite Hal bool_decide_eq_false_2 // in Ht3, Ht4.
    destruct Ht3 as (_ & _ & h3 & Hh3 & _ & Hb3 & _).
    destruct Ht4 as (_ & _ & h4 & Hh4 & Ha4 & Hb4 & _).
    assert (h4 = h3) as -> by congruence.
    exists k, q4. split; [by apply get_elem_of|]. split; [done|congruence].
  - intros Hc. split.
    + destruct Hc as [(k & q4 & Hin & Hq4 & Hc)|?]; [right|by left].
      apply elem_of_get in Hin; [|by rewrite Hk4].
      destruct (related_get_inv _ _ _ _ _ Hrel4 Hin) as (p & Hp & Ht4).
      destruct (related_get _ _ _ _ _ Hrel3 Hp) as (q3 & Hq3' & Ht3).
      apply ticked_survivor in Ht4 as Hs4; [|done].
      destruct Hs4 as (Hal & Hnd4 & _).
      unfold ticked in Ht3, Ht4. rewrite Hal bool_decide_eq_false_2 // in Ht3, Ht4.
      destruct Ht3 as (_ & _ & h3 & Hh3 & Ha3 & Hb3 & _).
      destruct Ht4 as (_ & _ & h4 & Hh4 & _ & Hb4 & _).
      assert (h4 = h3) as -> by congruence.
      exists k, q3. split; [by apply get_elem_of|]. split; [done|congruence].
    + intros k2 p3 Hk2 Hp3.
      destruct (related_get_inv _ _ _ _ _ Hrel3 Hp3) as (p2 & Hp2 & Ht2).
      destruct (dead_this_tick st qs2 v k2 p3 Hwf Hres Hk2 p2 Hp2 Ht2)
        as (Hal2 & _ & Hb2).
      rewrite Hb2. destruct Hc as [(k & q4 & Hin & Hq4 & Hc)|Hc].
      * apply elem_of_get in Hin; [|by rewrite Hk4].
        destruct (related_get_inv _ _ _ _ _ Hrel4 Hin) as (p & Hp & Ht4).
        eapply (Halive k q4); [by rewrite Hp|done|by eexists|done..].
      * intros Hin. eapply Hfc; [exact Hp2|done|exact Hin|]. by apply Hsub.
Qed.

Lemma occupancy_of_spawn_food fuel st g st' g' :
  spawn_food fuel st g = Ok (st', g') →
  occupied st = occupancy_of st → occupied st' = occupancy_of st'.
Proof.
  intros Hrun Hocc.
  destruct (spawn_food_adds _ _ _ _ _ Hrun) as (new & Hf & Ho & _).
  destruct (spawn_food_Ok _ _ _ _ _ Hrun) as (Hp & _).
  apply set_eq. intros c. rewrite Ho Hocc. unfold occupancy_of.
  rewrite elem_of_union !elem_of_temp_occupied_of elem_of_list_to_set Hp Hf elem_of_app.
  tauto.
Qed.

(** X17. [step] rebuilds the occupancy set: from a well-formed state in
    which the bodies of distinct alive players share no cell and no food
    lies under an alive body, whatever the occupancy set held before, a
    completed [step] ends with the occupancy set equal to the union of
    the bodies of the alive players and the food cells. *)
Theorem step_rebuilds_occupancy fuel st g st' g' :
  well_formed st → alive_disjoint (players st) → food_clear st →
  step fuel st g = Ok (st', g') → occupied st' = occupancy_of st'.
Proof.
  intros Hwf Hdis Hfc Hstep. unfold step in Hstep.
  destruct (resolve_tick st) as [st1| |] eqn:Hrun; simpl in Hstep; try done.
  destruct (spawn_food fuel st1 g) as [[st2 g2]| |] eqn:Hsf; simpl in Hstep;
    try done.
  injection Hstep as <- <-.
  pose proof (resolve_tick_occupancy st st1 Hwf Hdis Hfc Hrun) as Hocc.
  by apply (occupancy_of_spawn_food _ _ _ _ _ Hsf) in Hocc.
Qed.

(** ** Consistent boards are kept *)

(** The tick keeps the bodies of distinct alive players apart. *)
Lemma resolve_tick_apart st st1 :
  well_formed st → alive_disjoint (players st) → food_clear st →
  resolve_tick st = Ok st1 → alive_disjoint (players st1).
Proof.
  intros Hwf Hdis Hfc Hrun. pose proof Hwf as [Hnd Hne].
  destruct (resolve_tick_run st Hwf)
    as (qs2 & v & st1' & Hres & Htick & _ & _ & _ & Hrel).
  assert (st1' = st1) as -> by congruence.
  intros k1 q1 k2 q2 c Hq1 Hq2 Hk Ha1 Ha2 Hc1 Hc2.
  destruct (related_get_inv _ _ _ _ _ Hrel Hq1) as (p1 & Hg1 & Ht1).
  destruct (related_get_inv _ _ _ _ _ Hrel Hq2) as (p2 & Hg2 & Ht2).
  apply ticked_survivor in Ht1 as (Hp1 & Hd1 & h1 & Hh1 & Hb1); [|done].
  apply ticked_survivor in Ht2 as (Hp2 & Hd2 & h2 & Hh2 & Hb2); [|done].
  destruct (Hb1 c Hc1) as [Heq1|Hc1'], (Hb2 c Hc2) as [Heq2|Hc2'].
  - subst h1 h2. destruct (projected_player _ _ _ Hne Hg1 Hp1) as [h' Hh'].
    destruct (head_of_player _ _ _ _ Hg1 Hp1 Hh') as (Hgh & Hin1 & Hca1).
    assert (h' = c) as -> by congruence.
    assert (Hm : marked v k1).
    { eapply resolve_clash; [done..|]. exists k2.
      split; [done|by apply get_elem_of]. }
    by destruct Hm.
  - subst c. by eapply (survivor_head_clear st qs2 v k1 p1 k2 p2 h1).
  - subst c. by eapply (survivor_head_clear st qs2 v k2 p2 k1 p1 h2).
  - by eapply (Hdis k1 p1 k2 p2 c).
Qed.

(** The tick keeps the state well formed. *)
Lemma resolve_tick_well_formed st st1 :
  well_formed st → resolve_tick st = Ok st1 → well_formed st1.
Proof.
  intros Hwf Hrun. pose proof Hwf as [Hnd Hne].
  destruct (resolve_tick_run st Hwf)
    as (qs2 & v & st1' & Hres & Htick & _ & _ & _ & Hrel).
  assert (st1' = st1) as -> by congruence.
  split; [by rewrite (related_keys _ _ _ Hrel)|].
  apply Forall_forall. intros [k q] Hin Hq. simpl in *.
  apply elem_of_get in Hin; [|by rewrite (related_keys _ _ _ Hrel)].
  destruct (related_get_inv _ _ _ _ _ Hrel Hin) as (p & Hp & Ht).
  apply ticked_survivor in Ht as Hs; [|done]. destruct Hs as (Hal & Hnd1 & _).
  unfold ticked in Ht. rewrite Hal bool_decide_eq_false_2 // in Ht.
  destruct Ht as (_ & _ & h & _ & _ & -> & _).
  unfold moved_body. repeat case_match; try done.
  destruct (body p) as [|c b]; [simpl in *; unfold START_LENGTH in *; lia|].
  done.
Qed.

(** After the tick no food is left under an alive body, and the food
    cells stay distinct. *)
Lemma resolve_tick_food_clear st st1 :
  well_formed st → food_clear st → NoDup (food st) →
  resolve_tick st = Ok st1 → food_clear st1 ∧ NoDup (food st1).
Proof.
  intros Hwf Hfc Hndf Hrun. pose proof Hwf as [Hnd Hne].
  destruct (resolve_tick_run st Hwf)
    as (qs2 & v & st1' & Hres & Htick & Hfood & _ & _ & Hrel).
  assert (st1' = st1) as -> by congruence.
  destruct (resolve_food _ _ _ _ _ Hres) as [_ Hf].
  destruct (Hf Hndf) as [Hndf' Hhead].
  pose proof (resolve_stable _ _ _ _ _ Hres) as (_ & _ & Hsub & _).
  split; [|by rewrite Hfood].
  intros k q c Hq Hal Hc. rewrite Hfood.
  destruct (related_get_inv _ _ _ _ _ Hrel Hq) as (p & Hp & Ht).
  apply ticked_survivor in Ht as (Hpa & Hd & h & Hh & Hb); [|done].
  destruct (Hb c Hc) as [->|Hc'].
  - destruct (projected_player _ _ _ Hne Hp Hpa) as [h' Hh'].
    destruct (head_of_player _ _ _ _ Hp Hpa Hh') as (Hgh & Hin & Hca).
    eapply Hhead; [exact Hin|done|done].
  - intros Hin%Hsub. by eapply Hfc.
Qed.

Lemma spawn_food_consistent fuel st g st' g' :
  spawn_food fuel st g = Ok (st', g') → consistent st → consistent st'.
Proof.
  intros Hrun (Hwf & Hdis & Hfc & Hndf & Hocc).
  destruct (spawn_food_adds _ _ _ _ _ Hrun) as (new & Hf & Ho & Hndn & Hnew & _).
  destruct (spawn_food_Ok _ _ _ _ _ Hrun) as (Hp & _).
  assert (Hin_occ : ∀ c, c ∈ occupied st ↔
    (∃ k p, (k, p) ∈ players st ∧ alive p = true ∧ c ∈ body p) ∨ c ∈ food st).
  { intros c. by rewrite Hocc /occupancy_of elem_of_temp_occupied_of. }
  split; [by rewrite /well_formed Hp|]. split; [by rewrite Hp|]. split.
  { intros k p c Hk Hal Hc. rewrite Hp in Hk. rewrite Hf elem_of_app.
    intros [Hin|Hin]; [by eapply Hfc|].
    destruct (Hnew c Hin) as [Hno _]. apply Hno, Hin_occ. left.
    exists k, p. split; [by apply get_elem_of|done]. }
  split.
  { rewrite Hf. apply NoDup_app. split; [done|]. split; [|done].
    intros c Hc Hin. destruct (Hnew c Hin) as [Hno _].
    apply Hno, Hin_occ. by right. }
  by apply (occupancy_of_spawn_food _ _ _ _ _ Hrun).
Qed.

Lemma consistent_step fuel st g st' g' :
  well_formed st → alive_disjoint (players st) → food_clear st →
  NoDup (food st) →
  step fuel st g = Ok (st', g') → consistent st'.
Proof.
  intros Hwf Hdis Hfc Hndf Hstep. unfold step in Hstep.
  destruct (resolve_tick st) as [st1| |] eqn:Hrun; simpl in Hstep; try done.
  destruct (spawn_food fuel st1 g) as [[st2 g2]| |] eqn:Hsf; simpl in Hstep;
    try done.
  injection Hstep as <- <-.
  assert (Hc1 : consistent st1).
  { destruct (resolve_tick_food_clear st st1) as [??]; [done..|].
    split; [by eapply resolve_tick_well_formed|].
    split; [by eapply resolve_tick_apart|]. split; [done|]. split; [done|].
    by eapply resolve_tick_occupancy. }
  by apply (spawn_food_consistent _ _ _ _ _ Hsf) in Hc1.
Qed.

(** X18. A completed [step] keeps the board consistent, and repairs the
    occupancy set on the way: from a well-formed state in which the
    bodies of distinct alive players share no cell, no food lies under an
    alive body and the food cells are distinct, whatever the occupancy
    set holds, the state after the step is well formed, its alive bodies
    are pairwise disjoint, no food lies under an alive body, the food
    cells are distinct, and the occupancy set is the union of the alive
    bodies and the food. *)
Theorem step_keeps_consistent fuel st g st' g' :
  well_formed st → alive_disjoint (players st) → food_clear st →
  NoDup (food st) →
  step fuel st g = Ok (st', g') → consistent st'.
Proof. apply consistent_step. Qed.

Lemma elem_of_occupancy_of st c :
  NoDup (Dict.keys (players st)) →
  c ∈ occupancy_of st ↔
  (∃ k p, Dict.get k (players st) = Some p ∧ alive p = true ∧ c ∈ body p) ∨
  c ∈ food st.
Proof.
  intros Hnd. unfold occupancy_of. rewrite elem_of_temp_occupied_of. split.
  - intros [(k & p & Hin & ?)|?]; [left|by right].
    exists k, p. split; [by apply elem_of_get|done].
  - intros [(k & p & Hin & ?)|?]; [left|by right].
    exists k, p. split; [by apply get_elem_of|done].
Qed.

Lemma bodies_nonempty_get ps :
  NoDup (Dict.keys ps) →
  bodies_nonempty ps ↔
  ∀ k p, Dict.get k ps = Some p → alive p = true → body p ≠ [].
Proof.
  intros Hnd. unfold bodies_nonempty. rewrite Forall_forall. split.
  - intros H k p Hp. apply (H (k, p)). by apply get_elem_of.
  - intros H [k p] Hin. apply (H k p). by apply elem_of_get.
Qed.

Lemma spawn_consistent pid name b now st g :
  consistent st → b ≠ [] → NoDup b → (∀ c, c ∈ b → c ∉ occupied st) →
  (∀ p, Dict.get pid (players st) = Some p → alive p = false) →
  consistent (spawn pid name b now st g).1.
Proof.
  intros (Hwf & Hdis & Hfc & Hndf & Hocc) Hb Hndb Hfree Hdead.
  pose proof Hwf as [Hnd Hne].
  destruct (spawn_spec pid name b now st g)
    as (hue & _ & Hnew & Hold & Hkeys & Ho & Hf & _).
  set (st' := (spawn pid name b now st g).1) in *.
  assert (Hnd' : NoDup (Dict.keys (players st'))).
  { rewrite Hkeys. case_decide as Hin; [done|]. apply NoDup_app.
    split; [done|]. split; [|apply NoDup_singleton].
    by intros k Hk ->%list_elem_of_singleton. }
  assert (Hin_occ : ∀ c, c ∈ occupied st ↔
    (∃ k p, Dict.get k (players st) = Some p ∧ alive p = true ∧ c ∈ body p) ∨
    c ∈ food st).
  { intros c. by rewrite Hocc elem_of_occupancy_of. }
  assert (Hget : ∀ k p, Dict.get k (players st') = Some p →
    (k = pid ∧ body p = b ∧ alive p = true) ∨
    (k ≠ pid ∧ Dict.get k (players st) = Some p)).
  { intros k p Hp. destruct (decide (k = pid)) as [->|Hk].
    - left. rewrite Hnew in Hp. by injection Hp as <-.
    - right. by rewrite -(Hold k Hk). }
  assert (Hclear : ∀ k p c, k ≠ pid → Dict.get k (players st) = Some p →
    alive p = true → c ∈ body p → c ∉ b).
  { intros k p c Hk Hp Hal Hc Hcb. apply (Hfree c Hcb), Hin_occ. left.
    by exists k, p. }
  split; [split; [done|]|].
  { apply bodies_nonempty_get; [done|]. intros k p Hp Hal.
    destruct (Hget k p Hp) as [(_ & -> & _)|[_ Hp']]; [done|].
    by apply (proj1 (bodies_nonempty_get _ Hnd) Hne k p). }
  split.
  { intros k1 p1 k2 p2 c Hp1 Hp2 Hk Ha1 Ha2 Hc1 Hc2.
    destruct (Hget k1 p1 Hp1) as [(-> & Hb1 & _)|[Hk1 Hp1']],
             (Hget k2 p2 Hp2) as [(-> & Hb2 & _)|[Hk2 Hp2']]; [done| | |].
    - rewrite Hb1 in Hc1. by eapply (Hclear k2 p2 c).
    - rewrite Hb2 in Hc2. by eapply (Hclear k1 p1 c).
    - by eapply (Hdis k1 p1 k2 p2 c). }
  split.
  { intros k p c Hp Hal Hc. rewrite Hf.
    destruct (Hget k p Hp) as [(-> & Hb1 & _)|[Hk1 Hp']].
    - rewrite Hb1 in Hc. intros Hin. apply (Hfree c Hc), Hin_occ. by right.
    - by eapply Hfc. }
  split; [by rewrite Hf|].
  apply set_eq. intros c.
  rewrite Ho elem_of_union elem_of_list_to_set Hin_occ elem_of_occupancy_of //
    Hf.
  split.
  - intros [Hc|[(k & p & Hp & Hal & Hc)|Hc]]; [left|left|by right].
    + eexists pid, _. split; [exact Hnew|]. by split.
    + exists k, p. split; [|done]. rewrite Hold; [done|].
      intros ->. rewrite (Hdead p Hp) in Hal. done.
  - intros [(k & p & Hp & Hal & Hc)|Hc]; [|right; by right].
    destruct (Hget k p Hp) as [(-> & Hb1 & _)|[Hk1 Hp']].
    + left. by rewrite -Hb1.
    + right. left. by exists k, p.
Qed.

Lemma spawn_body_NoDup x y : 2 ≤ x < WIDTH → NoDup (spawn_body x y).
Proof.
  intros Hx. unfold spawn_body, WIDTH in *.
  rewrite !Z.mod_small; [|lia..].
  repeat (apply NoDup_cons; split;
    [rewrite ?elem_of_cons ?elem_of_nil; intros H;
     repeat (destruct H as [H|H]); try done; injection H; lia|]).
  constructor.
Qed.

(** X19. Admission keeps a consistent board consistent: when the
    identity names no alive player (it is new, or names a dead player)
    and one of the hundred attempts of [add_player] finds its cells
    free, the state after [add_player] is again well formed with
    pairwise disjoint alive bodies, no food under an alive body, distinct
    food cells, and its occupancy set is the union of the alive bodies
    and the food. *)
Theorem add_player_keeps_consistent pid name now st g :
  consistent st →
  (∀ p, Dict.get pid (players st) = Some p → alive p = false) →
  (attempts 100 (occupied st) g).1 ≠ None →
  consistent (add_player pid name now st g).1.
Proof.
  intros Hc Hdead Hsafe.
  destruct (add_player_cases pid name now st g) as (x & y & g1 & Hxy & -> & Hs).
  destruct (Hs Hsafe) as (Hx & Hy & Hfree).
  apply spawn_consistent; [done|done| |done|done].
  apply spawn_body_NoDup. unfold WIDTH. lia.
Qed.

(** X20. Removing an alive player, or an unknown identity, keeps a
    consistent board consistent: the occupancy set loses exactly the
    cells of the removed body, which no other alive body and no food
    item lies on, so it is again the union of the alive bodies and the
    food. *)
Theorem remove_alive_player_keeps_consistent pid st :
  consistent st →
  (∀ p, Dict.get pid (players st) = Some p → alive p = true) →
  consistent (remove_player pid st).
Proof.
  intros (Hwf & Hdis & Hfc & Hndf & Hocc) Halive. pose proof Hwf as [Hnd Hne].
  unfold remove_player. destruct (Dict.get pid (players st)) as [p|] eqn:Hp;
    [|done].
  specialize (Halive p eq_refl).
  destruct (keys_del pid (players st) Hnd) as (Hgone & Hnd' & Hkeys).
  assert (Hget : ∀ k q, Dict.get k (Dict.del pid (players st)) = Some q ↔
    k ≠ pid ∧ Dict.get k (players st) = Some q).
  { intros k q. destruct (decide (k = pid)) as [->|Hk].
    - apply get_None_key in Hgone. rewrite Hgone. naive_solver.
    - rewrite get_del_ne; [|done]. naive_solver. }
  assert (Hin_occ : ∀ c, c ∈ occupied st ↔
    (∃ k p, Dict.get k (players st) = Some p ∧ alive p = true ∧ c ∈ body p) ∨
    c ∈ food st).
  { intros c. by rewrite Hocc elem_of_occupancy_of. }
  split; [split; [done|]|]; simpl.
  { apply bodies_nonempty_get; [done|]. intros k q [_ Hq]%Hget.
    by apply (proj1 (bodies_nonempty_get _ Hnd) Hne k q). }
  split.
  { intros k1 p1 k2 p2 c [_ Hp1]%Hget [_ Hp2]%Hget. by apply Hdis. }
  split; [intros k q c [_ Hq]%Hget; by apply (Hfc k q c)|].
  split; [done|].
  apply set_eq. intros c.
  rewrite elem_of_difference elem_of_list_to_set Hin_occ elem_of_occupancy_of //.
  simpl. split.
  - intros [[(k & q & Hq & Hal & Hc)|Hc] Hnot]; [left|by right].
    exists k, q. split; [|done]. apply Hget. split; [|done].
    intros ->. assert (q = p) as -> by congruence. done.
  - intros [(k & q & [Hk Hq]%Hget & Hal & Hc)|Hc].
    + split; [left; by exists k, q|]. intros Hcp.
      by apply (Hdis k q pid p c).
    + split; [by right|]. intros Hcp. by apply (Hfc pid p c).
Qed.

(** ** Messages *)

Lemma on_respawn_cases pid name now st g :
  (on_respawn pid name now st g = (st, g) ∧
   ∀ p, Dict.get pid (players st) = Some p → alive p = true) ∨
  (∃ p, Dict.get pid (players st) = Some p ∧ alive p = false ∧
     on_respawn pid name now st g
       = add_player pid (Some name) now (remove_player pid st) g).
Proof.
  unfold on_respawn. destruct (Dict.get pid (players st)) as [p|] eqn:Hp.
  - destruct (alive p) eqn:Hal.
    + left. split; [done|]. by intros ? [= <-].
    + right. by exists p.
  - left. split; [done|]. by intros ?.
Qed.

Lemma add_after_remove pid name now st g p :
  Dict.get pid (players st) = Some p →
  let st' := (add_player pid name now (remove_player pid st) g).1 in
  ∃ x y hue, (x, y) ∈ grid_cells ∧
    Dict.get pid (players st')
      = Some (new_player pid (default pid name) (spawn_body x y) hue now (tick st)) ∧
    (∀ k, k ≠ pid → Dict.get k (players st') = Dict.get k (players st) ∧
                    death_reasons st' !! k = death_reasons st !! k) ∧
    death_reasons st' !! pid = None ∧
    (∀ c, c ∈ spawn_body x y → c ∈ occupied st') ∧
    food st' = food st ∧ tick st' = tick st.
Proof.
  intros Hp st'. subst st'.
  destruct (add_player_cases pid name now (remove_player pid st) g)
    as (x & y & g1 & Hxy & -> & _).
  destruct (spawn_spec pid (default pid name) (spawn_body x y) now
              (remove_player pid st) g1)
    as (hue & _ & Hnew & Hold & _ & Ho & Hf & Ht & Hd).
  assert (Hrm : (∀ k, k ≠ pid →
             Dict.get k (players (remove_player pid st)) = Dict.get k (players st)) ∧
           death_reasons (remove_player pid st) = delete pid (death_reasons st) ∧
           food (remove_player pid st) = food st ∧
           tick (remove_player pid st) = tick st).
  { unfold remove_player. rewrite Hp. cbn [players death_reasons food tick].
    split; [|done]. intros k Hk. by rewrite get_del_ne. }
  destruct Hrm as (Hrg & Hrd & Hrf & Hrt).
  exists x, y, hue. split; [done|]. rewrite Hnew Ho Hf Ht Hd Hrd Hrf Hrt.
  split; [done|]. split.
  { intros k Hk. rewrite Hold; [|done]. rewrite Hrg; [|done].
    by rewrite lookup_delete_ne. }
  split; [apply lookup_delete_eq|]. split; [|done].
  intros c Hc. apply elem_of_union. left. by apply elem_of_list_to_set.
Qed.

(** X21. A message touches only the player of its connection. Whatever
    a connection sends, as long as the receive loop goes on: every other
    player and every other death cause is as before, the food and the
    tick are untouched, and no player appears or disappears. When the
    sender is alive, the message changes neither its body, nor its
    direction, score or food count, nor the occupancy set, and draws no
    random number. *)
Theorem message_touches_own_player_only pid now message st g st' g' sent :
  on_message pid now message st g = Continue st' g' sent →
  (∀ k, k ≠ pid → Dict.get k (players st') = Dict.get k (players st) ∧
                  death_reasons st' !! k = death_reasons st !! k) ∧
  food st' = food st ∧ tick st' = tick st ∧
  (is_Some (Dict.get pid (players st')) ↔ is_Some (Dict.get pid (players st))) ∧
  (∀ p, Dict.get pid (players st) = Some p → alive p = true →
     ∃ q, Dict.get pid (players st') = Some q ∧ alive q = true ∧
       body q = body p ∧ dir q = dir p ∧ score q = score p ∧
       food_collected q = food_collected p ∧
       occupied st' = occupied st ∧ g' = g).
Proof.
  assert (Hsame : ∀ (st : GameState) (g : rng),
    (∀ k, k ≠ pid → Dict.get k (players st) = Dict.get k (players st) ∧
                    death_reasons st !! k = death_reasons st !! k) ∧
    food st = food st ∧ tick st = tick st ∧
    (is_Some (Dict.get pid (players st)) ↔ is_Some (Dict.get pid (players st))) ∧
    (∀ p, Dict.get pid (players st) = Some p → alive p = true →
       ∃ q, Dict.get pid (players st) = Some q ∧ alive q = true ∧
         body q = body p ∧ dir q = dir p ∧ score q = score p ∧
         food_collected q = food_collected p ∧
         occupied st = occupied st ∧ g = g)).
  { intros st0 g0. split; [done|]. split; [done|]. split; [done|].
    split; [done|]. intros p Hp Hal. by exists p. }
  assert (Hupd : ∀ (f : Player → Player) (st : GameState) (g : rng),
    (∀ p, alive (f p) = alive p ∧ body (f p) = body p ∧ dir (f p) = dir p ∧
          score (f p) = score p ∧ food_collected (f p) = food_collected p) →
    let st' := with_players (Dict.update pid f (players st)) st in
    (∀ k, k ≠ pid → Dict.get k (players st') = Dict.get k (players st) ∧
                    death_reasons st' !! k = death_reasons st !! k) ∧
    food st' = food st ∧ tick st' = tick st ∧
    (is_Some (Dict.get pid (players st')) ↔ is_Some (Dict.get pid (players st))) ∧
    (∀ p, Dict.get pid (players st) = Some p → alive p = true →
       ∃ q, Dict.get pid (players st') = Some q ∧ alive q = true ∧
         body q = body p ∧ dir q = dir p ∧ score q = score p ∧
         food_collected q = food_collected p ∧
         occupied st' = occupied st ∧ g = g)).
  { intros f st0 g0 Hf. simpl. split.
    { intros k Hk. by rewrite get_update decide_False. }
    split; [done|]. split; [done|]. rewrite get_update decide_True //.
    split; [by rewrite fmap_is_Some|].
    intros p -> Hal. exists (f p). destruct (Hf p) as (-> & -> & -> & -> & ->).
    done. }
  pose proof (Hsame st g) as Hs. pose proof (λ f, Hupd f st g) as Hu.
  clear Hsame Hupd. unfold on_message.
  destruct (msg_get (py "type") message) as [t|]; [|done].
  destruct (str_eq t (py "input")).
  { destruct (msg_get (py "dir") message) as [direction|]; [|done].
    intros [= <- <- _]. unfold on_input.
    destruct (is_list_of_two direction && is_alive pid st); [|exact Hs].
    destruct (valid_dir direction) as [d|]; [|exact Hs].
    by apply Hu. }
  destruct (str_eq t (py "respawn")).
  { destruct (on_respawn pid pid now st g) as [st1 g1] eqn:Hr.
    intros [= <- <- _].
    destruct (on_respawn_cases pid pid now st g) as [[Heq _]|(p & Hp & Hal & Heq)].
    - rewrite Heq in Hr. injection Hr as <- <-. exact Hs.
    - destruct (add_after_remove pid (Some pid) now st g p Hp)
        as (x & y & hue & _ & Hnew & Hold & _ & _ & Hf & Ht).
      rewrite -Heq Hr in Hnew Hold Hf Ht. simpl in *.
      split; [done|]. split; [done|]. split; [done|].
      rewrite Hnew Hp. split; [done|]. intros ? [= <-]. congruence. }
  destruct (str_eq t (py "rename")); [|intros [= <- <- _]; exact Hs].
  destruct (msg_get (py "name") message) as [new_name|]; [|done].
  destruct (on_rename pid new_name st) as [st1 sent1] eqn:Hr.
  intros [= <- <- _]. unfold on_rename in Hr.
  remember (Dict.get pid (players st)) as o eqn:Ho in Hr.
  destruct o as [p|]; [|by injection Hr as <- _].
  destruct (valid_name new_name) as [n|]; [|by injection Hr as <- _].
  injection Hr as <- _. by apply Hu.
Qed.

(** X22. A [respawn] message of a dead player revives it: the receive
    loop goes on and sends nothing, and afterwards the player is alive
    with score 0, no food collected, direction right, a new body of
    [START_LENGTH] cells on one row of the grid that are all in the
    occupancy set, the current tick as its spawn tick, and no death
    cause recorded. *)
Theorem respawn_revives_the_dead pid now message st g p :
  msg_get (py "type") message = Some (JStr (py "respawn")) →
  Dict.get pid (players st) = Some p → alive p = false →
  ∃ st' g' q x y,
    on_message pid now message st g = Continue st' g' [] ∧
    Dict.get pid (players st') = Some q ∧
    alive q = true ∧ score q = 0 ∧ food_collected q = 0 ∧
    dir q = (1, 0) ∧ pending_dir q = (1, 0) ∧ spawn_tick q = tick st ∧
    body q = spawn_body x y ∧ (∀ c, c ∈ body q → c ∈ grid_cells) ∧
    (∀ c, c ∈ body q → c ∈ occupied st') ∧
    death_reasons st' !! pid = None.
Proof.
  intros Ht Hp Hal. unfold on_message. rewrite Ht.
  replace (str_eq (JStr (py "respawn")) (py "input")) with false by done.
  replace (str_eq (JStr (py "respawn")) (py "respawn")) with true by done.
  unfold on_respawn. rewrite Hp Hal.
  destruct (add_after_remove pid (Some pid) now st g p Hp)
    as (x & y & hue & Hxy & Hnew & _ & Hd & Hocc & _).
  destruct (add_player pid (Some pid) now (remove_player pid st) g)
    as [st1 g1]. simpl in *.
  eexists st1, g1, _, x, y. split; [done|]. split; [exact Hnew|]. simpl.
  split; [done|]. split; [done|]. split; [done|]. split; [done|].
  split; [done|]. split; [done|]. split; [done|].
  split; [intros c; by apply spawn_body_grid|].
  split; [|done]. intros c Hc. by apply Hocc.
Qed.

(** *** Names *)








(** ** Snapshots *)

(** X24. What clients are sent. The snapshot of every state that a run
    of the server reaches from the initial state lists the players in
    the order of the players dict under distinct identities, and can be
    drawn inside the width and height it announces: every cell of every
    body and every food item has 0 ≤ x < width and 0 ≤ y < height. Each
    player's [snake_length] is the length of its body and at least
    [START_LENGTH], its score is between 0 and its [food_collected], and
    there are at most [FOOD_COUNT] food items. *)
Theorem snapshot_of_reachable_state fuel now es g st g' :
  run fuel now es (init, g) = Some (st, g') →
  let s := snapshot st in
  (s_players s).*1 = Dict.keys (players st) ∧ NoDup (s_players s).*1 ∧
  (∀ k v, (k, v) ∈ s_players s →
     pv_id v = k ∧ snake_length v = length (pv_body v) ∧
     (START_LENGTH ≤ snake_length v)%nat ∧
     0 ≤ pv_score v ≤ pv_food_collected v ∧
     ∀ x y, (x, y) ∈ pv_body v → 0 ≤ x < s_width s ∧ 0 ≤ y < s_height s) ∧
  (∀ x y, (x, y) ∈ s_food s → 0 ≤ x < s_width s ∧ 0 ≤ y < s_height s) ∧
  (length (s_food s) ≤ FOOD_COUNT)%nat.
Proof.
  intros Hrun. apply run_good in Hrun; [|apply good_init].
  destruct Hrun as (Hnd & Hps & Hfood & Hlen & _). cbn zeta.
  assert (Hk : (s_players (snapshot st)).*1 = Dict.keys (players st)).
  { unfold snapshot, Dict.keys. cbn [s_players]. rewrite -list_fmap_compose.
    by apply list_fmap_ext. }
  split; [done|]. split; [by rewrite Hk|]. split.
  - intros k v ([k' p] & [= -> ->] & Hin)%list_elem_of_fmap. simpl.
    destruct (Hps k' p Hin) as (_ & Hl & Hg & _ & _ & Hs0 & Hs1 & _).
    split; [done|]. split; [done|]. split; [done|]. split; [done|].
    intros x y Hxy. by apply elem_of_grid, Hg.
  - split; [|done]. intros x y Hxy. by apply elem_of_grid, Hfood.
Qed.

(** ** The further theorems at sample inputs *)

Lemma consistent_edge_state : consistent edge_state.
Proof.
  split; [apply well_formed_decide; vm_compute; reflexivity|].
  split; [apply alive_disjoint_b_sound; vm_compute; reflexivity|].
  split; [apply food_clear_b_sound; vm_compute; reflexivity|].
  split; [apply (bool_decide_unpack _); vm_compute; exact I|reflexivity].
Defined.

Lemma good_lone_run : good (state_of_run lone_run).
Proof.
  apply (run_good 10 0%float [Startup; Connect alice] init
           (of_list (food_draws ++ at_10_5)) _ (rng_of_run lone_run));
    [apply good_init|vm_compute; reflexivity].
Defined.

Lemma spawn_food_places_food_on_free_cells_witness :
  ∃ new, food (state_after (spawn_food 10 init (of_list food_draws))) = [] ++ new ∧
    NoDup new ∧ ∀ c, c ∈ new → c ∉ occupied init ∧ c ∈ grid_cells.
Proof.
  destruct (spawn_food_places_food_on_free_cells 10 init (of_list food_draws)
              (state_after (spawn_food 10 init (of_list food_draws)))
              (rng_after (spawn_food 10 init (of_list food_draws))))
    as (new & Hf & _ & Hnd & Hnew & _).
  - vm_compute; reflexivity.
  - exists new. split; [exact Hf|]. split; [exact Hnd|exact Hnew].
Defined.

Lemma spawn_food_tops_up_witness :
  ∃ st' g', spawn_food 10 init (of_list food_draws) = Ok (st', g') ∧
    length (food st') = FOOD_COUNT.
Proof.
  destruct (spawn_food_tops_up 10 init (of_list food_draws))
    as (st' & g' & Hrun & Hlen).
  - unfold has_capacity. apply Nat.leb_le. vm_compute. reflexivity.
  - apply Nat.leb_le. vm_compute. reflexivity.
  - exists st', g'. split; [exact Hrun|exact Hlen].
Defined.

Lemma startup_spawns_the_food_witness :
  ∃ st' g', spawn_food 10 init (of_list food_draws) = Ok (st', g') ∧
    length (food st') = FOOD_COUNT ∧ NoDup (food st').
Proof.
  destruct (startup_spawns_the_food 10 (of_list food_draws))
    as (st' & g' & Hrun & Hlen & Hnd & _).
  - apply Nat.leb_le. vm_compute. reflexivity.
  - exists st', g'. split; [exact Hrun|]. split; [exact Hlen|exact Hnd].
Defined.

Lemma add_player_safe_unless_fallback_witness :
  ∃ x y p,
    Dict.get bob (players (add_player bob None 0%float (state_of_run lone_run)
                             (of_list at_13_5)).1) = Some p ∧
    body p = [(x, y); (x - 1, y); (x - 2, y)] ∧
    ∀ c, c ∈ body p → c ∉ occupied (state_of_run lone_run).
Proof.
  destruct (add_player_safe_unless_fallback bob None 0%float
              (state_of_run lone_run) (of_list at_13_5))
    as (x & y & p & Hp & Hb & _ & _ & Hfree).
  - intros H. vm_compute in H. discriminate H.
  - exists x, y, p. split; [exact Hp|]. split; [exact Hb|exact Hfree].
Defined.

Lemma remove_player_spec_witness :
  Dict.get alice (players (remove_player alice (state_of_run lone_run))) = None ∧
  food (remove_player alice (state_of_run lone_run)) = food (state_of_run lone_run).
Proof.
  destruct (remove_player_spec alice (state_of_run lone_run))
    as (_ & _ & Hgone & _ & Hfood & _).
  - apply (bool_decide_unpack _). vm_compute. exact I.
  - split; [exact Hgone|exact Hfood].
Defined.

Lemma add_then_remove_restores_witness :
  remove_player bob
    (add_player bob None 0%float (state_of_run lone_run) (of_list at_13_5)).1
  = state_of_run lone_run.
Proof.
  apply (add_then_remove_restores bob None 0%float (state_of_run lone_run)
           (of_list at_13_5)).
  - apply (bool_decide_unpack _). vm_compute. exact I.
  - vm_compute. reflexivity.
  - intros H. vm_compute in H. discriminate H.
Defined.

Lemma step_frame_witness :
  tick (state_after (step 10 edge_state (of_list []))) = tick edge_state + 1 ∧
  Dict.keys (players (state_after (step 10 edge_state (of_list []))))
    = Dict.keys (players edge_state).
Proof.
  destruct (step_frame 10 edge_state (of_list [])
              (state_after (step 10 edge_state (of_list [])))
              (rng_after (step 10 edge_state (of_list []))))
    as (Ht & Hk & _).
  - apply well_formed_decide. vm_compute. reflexivity.
  - vm_compute. reflexivity.
  - split; [exact Ht|exact Hk].
Defined.

Lemma step_records_death_causes_witness :
  (∃ p q, Dict.get alice (players head_on) = Some p ∧ alive p = true ∧
     Dict.get alice (players (state_after (step 10 head_on (of_list [])))) = Some q ∧
     alive q = false ∧
     ∃ r, death_reasons (state_after (step 10 head_on (of_list []))) !! alice = Some r ∧
       r ∈ death_causes)
  ∨ (death_reasons (state_after (step 10 head_on (of_list []))) !! alice
       = death_reasons head_on !! alice ∧
     ∀ p q, Dict.get alice (players head_on) = Some p →
       Dict.get alice (players (state_after (step 10 head_on (of_list [])))) = Some q →
       alive q = alive p).
Proof.
  apply (step_records_death_causes 10 head_on (of_list [])
           (state_after (step 10 head_on (of_list [])))
           (rng_after (step 10 head_on (of_list [])))).
  - apply well_formed_head_on.
  - vm_compute. reflexivity.
Defined.

Lemma step_moves_the_living_witness :
  ∃ q h, Dict.get alice (players (state_after (step 10 meal (of_list [20; 20])))) = Some q ∧
    projected (commit (at_cell alice [(5, 5); (4, 5); (3, 5)] (1, 0) (1, 0)).2) = Some h.
Proof.
  destruct (step_moves_the_living 10 meal (of_list [20; 20])
              (state_after (step 10 meal (of_list [20; 20])))
              (rng_after (step 10 meal (of_list [20; 20])))
              alice (at_cell alice [(5, 5); (4, 5); (3, 5)] (1, 0) (1, 0)).2)
    as (q & h & Hq & Hh & _).
  - apply well_formed_decide. vm_compute. reflexivity.
  - vm_compute. reflexivity.
  - reflexivity.
  - reflexivity.
  - exists q, h. split; [exact Hq|exact Hh].
Defined.

Lemma valid_dir_unit_vector_witness :
  valid_dir (JList [JBool true; JFloat (-1)%float]) = Some (1, -1) ∧
  unit_vector (1, -1).
Proof.
  split; [reflexivity|].
  apply (valid_dir_unit_vector (JList [JBool true; JFloat (-1)%float])).
  reflexivity.
Defined.

Lemma step_keeps_good_witness :
  (∀ e, step 10 (state_of_run lone_run) (rng_of_run lone_run) ≠ Raise e) ∧
  ∀ st' g', step 10 (state_of_run lone_run) (rng_of_run lone_run) = Ok (st', g') →
    good st' ∧ length (food st') = FOOD_COUNT.
Proof.
  apply (step_keeps_good 10 (state_of_run lone_run) (rng_of_run lone_run)).
  apply good_lone_run.
Defined.

Lemma reachable_states_are_good_witness : good (state_of_run lone_run).
Proof.
  apply (reachable_states_are_good 10 0%float [Startup; Connect alice]
           (of_list (food_draws ++ at_10_5)) _ (rng_of_run lone_run)).
  vm_compute. reflexivity.
Defined.

Lemma step_rebuilds_occupancy_witness :
  occupied (state_after (step 10 edge_state (of_list [])))
  = occupancy_of (state_after (step 10 edge_state (of_list []))).
Proof.
  destruct consistent_edge_state as (Hwf & Hdis & Hfc & _).
  apply (step_rebuilds_occupancy 10 edge_state (of_list []) _
           (rng_after (step 10 edge_state (of_list []))) Hwf Hdis Hfc).
  vm_compute. reflexivity.
Defined.

Lemma step_keeps_consistent_witness :
  consistent (state_after (step 10 edge_state (of_list []))).
Proof.
  destruct consistent_edge_state as (Hwf & Hdis & Hfc & Hnd & _).
  apply (step_keeps_consistent 10 edge_state (of_list []) _
           (rng_after (step 10 edge_state (of_list []))) Hwf Hdis Hfc Hnd).
  vm_compute. reflexivity.
Defined.

Lemma add_player_keeps_consistent_witness :
  consistent (add_player carol None 0%float edge_state (of_list at_10_5)).1.
Proof.
  apply (add_player_keeps_consistent carol None 0%float edge_state
           (of_list at_10_5) consistent_edge_state).
  - intros p Hp. vm_compute in Hp. discriminate Hp.
  - intros H. vm_compute in H. discriminate H.
Defined.

Lemma remove_alive_player_keeps_consistent_witness :
  consistent (remove_player alice edge_state).
Proof.
  apply (remove_alive_player_keeps_consistent alice edge_state
           consistent_edge_state).
  intros p Hp. injection Hp as <-. reflexivity.
Defined.

Lemma message_touches_own_player_only_witness :
  let st := state_of_run lone_run in
  let st' := with_players
               (Dict.update alice (set_pending (0, 1) 0%float) (players st)) st in
  food st' = food st ∧ tick st' = tick st ∧
  ∀ k, k ≠ alice → Dict.get k (players st') = Dict.get k (players st).
Proof.
  intros st st'.
  destruct (message_touches_own_player_only alice 0%float
              (input_message (JList [JInt 0; JInt 1])) st (rng_of_run lone_run)
              st' (rng_of_run lone_run) [])
    as (Hothers & Hf & Ht & _).
  - vm_compute. reflexivity.
  - split; [exact Hf|]. split; [exact Ht|].
    intros k Hk. exact (proj1 (Hothers k Hk)).
Defined.

Lemma respawn_revives_the_dead_witness :
  ∃ st' g' q,
    on_message alice 0%float respawn_message fallen (of_list at_10_5)
      = Continue st' g' [] ∧
    Dict.get alice (players st') = Some q ∧ alive q = true ∧ score q = 0.
Proof.
  destruct (respawn_revives_the_dead alice 0%float respawn_message fallen
              (of_list at_10_5) fallen_alice eq_refl eq_refl eq_refl)
    as (st' & g' & q & x & y & Hrun & Hq & Hal & Hs & _).
  exists st', g', q. split; [exact Hrun|]. split; [exact Hq|].
  split; [exact Hal|exact Hs].
Defined.

Lemma snapshot_of_reachable_state_witness :
  (s_players (snapshot (state_of_run lone_run))).*1 = [alice] ∧
  (length (s_food (snapshot (state_of_run lone_run))) ≤ FOOD_COUNT)%nat.
Proof.
  destruct (snapshot_of_reachable_state 10 0%float [Startup; Connect alice]
              (of_list (food_draws ++ at_10_5)) (state_of_run lone_run)
              (rng_of_run lone_run))
    as (Hk & _ & _ & _ & Hlen).
  - vm_compute. reflexivity.
  - split; [|exact Hlen]. rewrite Hk. vm_compute. reflexivity.
Defined.

Lemma add_player_keys_witness :
  Dict.keys (players (add_player bob None 0%float (state_of_run lone_run)
                        (of_list at_13_5)).1) = [alice; bob] ∧
  NoDup (Dict.keys (players (add_player bob None 0%float (state_of_run lone_run)
                               (of_list at_13_5)).1)).
Proof.
  destruct (add_player_keys bob None 0%float (state_of_run lone_run)
              (of_list at_13_5)) as [Hk Hnd].
  split.
  - rewrite Hk. vm_compute. reflexivity.
  - apply Hnd. apply (bool_decide_unpack _). vm_compute. exact I.
Defined.


Lemma clamp_pos_wraps_witness :
  clamp_pos 7 8 = (7, 8) ∧ clamp_pos (-1) 30 = clamp_pos 39 0.
Proof.
  destruct (clamp_pos_wraps 7 8 0 0) as (_ & _ & Hfix & _).
  destruct (clamp_pos_wraps 39 0 (-1) 1) as (_ & _ & _ & _ & Hwrap).
  split; [|exact Hwrap].
  apply Hfix. apply elem_of_grid. unfold WIDTH, HEIGHT. lia.
Defined.
